(** * Asset-and-session consistency layer of the audio-project backend

    A shallow embedding of [src/backend/server.ts]: the credential engine
    ([hashPassword], [verifyPassword]), the session store (token issue,
    [authMiddleware], logout), the storage helpers ([resolveUploadsPath],
    [putObjectToR2], [deleteObjectFromR2], [downloadCoverToStorage]) and the
    project handlers (create, rename, delete, generate-cover).

    Handlers are written in a small state/error/trace monad over an explicit
    world (database tables, remote bucket, local disk).  Everything the
    process cannot decide by itself (clock, random bytes, outcome of every
    I/O request) is read from an environment record, so every failure
    interleaving is a value of that record. *)

From Stdlib Require Import ZArith NArith String Ascii List Lia Bool.
From Stdlib Require Import DecimalString.
From stdpp Require Import base gmap sets list strings.

Import ListNotations.
Open Scope string_scope.
Open Scope list_scope.

(* ===================================================================== *)
(** * 1. JavaScript string helpers                                        *)
(* ===================================================================== *)

Module Js.

(** [s.startsWith(p)] *)
Definition startsWith (s p : string) : bool := String.prefix p s.

(** [s.slice(n)] for [0 <= n]. *)
Fixpoint slice (n : nat) (s : string) : string :=
  match n, s with
  | O, _ => s
  | S n', String _ s' => slice n' s'
  | S _, EmptyString => EmptyString
  end.

(** [s.split(sep)] for a one-character separator: never empty,
    [''.split(sep)] is [['']]. *)
Fixpoint split (sep : ascii) (s : string) : list string :=
  match s with
  | EmptyString => [EmptyString]
  | String c s' =>
      if Ascii.eqb c sep then EmptyString :: split sep s'
      else match split sep s' with
           | x :: xs => String c x :: xs
           | [] => [String c EmptyString]
           end
  end.

(** [parts.join(sep)] *)
Fixpoint join (sep : string) (parts : list string) : string :=
  match parts with
  | [] => EmptyString
  | [x] => x
  | x :: xs => x +:+ sep +:+ join sep xs
  end.

(** Truthiness of a JavaScript string and of [string | null]. *)
Definition truthy (s : string) : bool := negb (String.eqb s "").

Definition truthy_opt (o : option string) : bool :=
  match o with Some s => truthy s | None => false end.

(** White space removed by [trim] (the one-byte part of it). *)
Definition is_space (c : ascii) : bool :=
  let n := nat_of_ascii c in
  (n =? 32)%nat || ((9 <=? n)%nat && (n <=? 13)%nat).

Fixpoint trimStart (s : string) : string :=
  match s with
  | String c s' => if is_space c then trimStart s' else s
  | EmptyString => EmptyString
  end.

Fixpoint trimEnd (s : string) : string :=
  match s with
  | EmptyString => EmptyString
  | String c s' =>
      match trimEnd s' with
      | EmptyString => if is_space c then EmptyString else String c EmptyString
      | t => String c t
      end
  end.

Definition trim (s : string) : string := trimEnd (trimStart s).

Definition lower_char (c : ascii) : ascii :=
  let n := nat_of_ascii c in
  if (65 <=? n)%nat && (n <=? 90)%nat then ascii_of_nat (n + 32) else c.

Fixpoint toLowerCase (s : string) : string :=
  match s with
  | EmptyString => EmptyString
  | String c s' => String (lower_char c) (toLowerCase s')
  end.

(** [String(n)] / template interpolation of an integer. *)
Definition of_Z (n : Z) : string := NilZero.string_of_int (Z.to_int n).

End Js.

(* ===================================================================== *)
(** * 2. Node's POSIX [path] module (absolute paths)                      *)
(* ===================================================================== *)

Module Path.

Definition sep : string := "/".

(** One step of [normalizeString]: empty and [.] segments are skipped,
    [..] drops the last kept segment (and is dropped at the root). *)
Definition norm_step (stack : list string) (seg : string) : list string :=
  if String.eqb seg "" then stack
  else if String.eqb seg "." then stack
  else if String.eqb seg ".." then tail stack
  else seg :: stack.

Definition normalize_segments (segs : list string) : list string :=
  rev (fold_left norm_step segs []).

(** The absolute path with the given segments: ["/" + segs.join("/")]. *)
Definition of_segments (segs : list string) : string :=
  "/" +:+ Js.join "/" segs.

Definition segments (p : string) : list string :=
  normalize_segments (Js.split "/" p).

Definition isAbsolute (p : string) : bool := Js.startsWith p "/".

(** [path.join(a, b)] for an absolute [a] and a [b] without trailing
    separator: the normalisation of [a + "/" + b]. *)
Definition join (a b : string) : string :=
  of_segments (segments (a +:+ "/" +:+ b)).

(** [path.resolve(from, to)] for an absolute [from]: arguments are
    taken right to left until an absolute one is met, empty ones are
    skipped, and the concatenation is normalised. *)
Definition resolve (from to : string) : string :=
  let resolvedPath :=
    if String.eqb to "" then from +:+ "/"
    else if isAbsolute to then to +:+ "/"
    else from +:+ "/" +:+ (to +:+ "/") in
  of_segments (segments resolvedPath).

(** [path.resolve(p)] for an absolute [p]. *)
Definition resolve1 (p : string) : string :=
  of_segments (segments (p +:+ "/")).

End Path.

(* ===================================================================== *)
(** * 3. Buffers: base64, base64url and hex                               *)
(* ===================================================================== *)

Abbreviation bytes := (list Byte.byte).

Module Buffer.

Definition byte_of (n : N) : Byte.byte :=
  match Byte.of_N (n mod 256) with Some b => b | None => Byte.x00 end.

(** ** Base64 *)

(** The character of a six-bit value; [url] selects the URL-safe
    alphabet. *)
Definition b64_char (url : bool) (n : N) : ascii :=
  if (n <? 26)%N then ascii_of_N (n + 65)
  else if (n <? 52)%N then ascii_of_N (n + 71)
  else if (n <? 62)%N then ascii_of_N (n - 4)
  else if (n =? 62)%N then (if url then "-" else "+")%char
  else (if url then "_" else "/")%char.

(** The six-bit value of a character; both alphabets are accepted, any
    other character has none. *)
Definition b64_value (c : ascii) : option N :=
  let n := N_of_ascii c in
  if (65 <=? n)%N && (n <=? 90)%N then Some (n - 65)%N
  else if (97 <=? n)%N && (n <=? 122)%N then Some (n - 71)%N
  else if (48 <=? n)%N && (n <=? 57)%N then Some (n + 4)%N
  else if (n =? 43)%N || (n =? 45)%N then Some 62%N
  else if (n =? 47)%N || (n =? 95)%N then Some 63%N
  else None.

Definition s0 (a : N) : N := (a / 4)%N.
Definition s1 (a b : N) : N := ((a mod 4) * 16 + b / 16)%N.
Definition s2 (b c : N) : N := ((b mod 16) * 4 + c / 64)%N.
Definition s3 (c : N) : N := (c mod 64)%N.

(** [buf.toString('base64')] ([pad = true], [url = false]) and
    [buf.toString('base64url')] ([pad = false], [url = true]). *)
Fixpoint encode64 (url pad : bool) (bs : bytes) : string :=
  match bs with
  | [] => ""
  | [a] =>
      let a := Byte.to_N a in
      String (b64_char url (s0 a)) (String (b64_char url (s1 a 0))
        (if pad then "==" else ""))
  | [a; b] =>
      let a := Byte.to_N a in let b := Byte.to_N b in
      String (b64_char url (s0 a)) (String (b64_char url (s1 a b))
        (String (b64_char url (s2 b 0)) (if pad then "=" else "")))
  | a :: b :: c :: rest =>
      let a := Byte.to_N a in let b := Byte.to_N b in let c := Byte.to_N c in
      String (b64_char url (s0 a)) (String (b64_char url (s1 a b))
        (String (b64_char url (s2 b c)) (String (b64_char url (s3 c))
           (encode64 url pad rest))))
  end.

Definition toBase64 (bs : bytes) : string := encode64 false true bs.
Definition toBase64Url (bs : bytes) : string := encode64 true false bs.

(** The six-bit values read by the decoder: characters outside both
    alphabets are skipped, the first [=] ends the input. *)
Fixpoint sextets (s : string) : list N :=
  match s with
  | EmptyString => []
  | String c s' =>
      if Ascii.eqb c "=" then []
      else match b64_value c with
           | Some v => v :: sextets s'
           | None => sextets s'
           end
  end.

Fixpoint bytes_of_sextets (l : list N) : bytes :=
  match l with
  | a :: b :: c :: d :: rest =>
      byte_of (a * 4 + b / 16) :: byte_of ((b mod 16) * 16 + c / 4)
        :: byte_of ((c mod 4) * 64 + d) :: bytes_of_sextets rest
  | [a; b; c] => [byte_of (a * 4 + b / 16); byte_of ((b mod 16) * 16 + c / 4)]
  | [a; b] => [byte_of (a * 4 + b / 16)]
  | _ => []
  end.

(** [Buffer.from(s, 'base64')]: lenient, never throws. *)
Definition fromBase64 (s : string) : bytes := bytes_of_sextets (sextets s).

(** ** Hex *)

Definition hex_digit (n : N) : ascii :=
  if (n <? 10)%N then ascii_of_N (n + 48) else ascii_of_N (n + 87).

(** [buf.toString('hex')] *)
Fixpoint toHex (bs : bytes) : string :=
  match bs with
  | [] => ""
  | b :: rest =>
      let n := Byte.to_N b in
      String (hex_digit (n / 16)) (String (hex_digit (n mod 16)) (toHex rest))
  end.

End Buffer.

(* ===================================================================== *)
(** * 4. Results and errors                                               *)
(* ===================================================================== *)

Inductive error : Type :=
| Error (message : string)       (* [new Error(message)] thrown by the server *)
| DbError                        (* a rejected [pool.query] *)
| R2Error                        (* a rejected [r2Client.send] *)
| FsError                        (* a throwing [fs] call *)
| KdfError                       (* a failing [crypto.scrypt] *)
| RangeError (message : string). (* thrown by [crypto.timingSafeEqual] *)

Inductive result (A : Type) : Type :=
| Ok (a : A)
| Throw (e : error).
Arguments Ok {A} a.
Arguments Throw {A} e.

(** What the runtime provides and the server only calls. *)
Class Platform : Type := {
  (** [crypto.scrypt(password, salt, keylen)] with the default cost
      parameters: a function of its arguments that may reject. *)
  scrypt : string -> bytes -> nat -> result bytes;
  (** [crypto.createHash('sha256').update(s).digest()] *)
  sha256 : string -> bytes;
  (** PostgreSQL's conversion of a text parameter compared with an
      [INTEGER] column; [None] is the "invalid input syntax" error. *)
  int4_in : string -> option Z;
}.

Class PlatformLaws `{Platform} : Prop := {
  scrypt_length : forall p s n k, scrypt p s n = Ok k -> length k = n;
  sha256_length : forall s, length (sha256 s) = 32%nat;
}.

(* ===================================================================== *)
(** * 5. Configuration                                                    *)
(* ===================================================================== *)

(** The values read once at start-up.  The [R2_*] fields are the results
    of [getTrimmedEnv] ([None] is [null]). *)
Record Config : Type := {
  dirname : string;                     (* [__dirname], absolute *)
  R2_ENDPOINT : option string;
  R2_ACCESS_KEY_ID : option string;
  R2_SECRET_ACCESS_KEY : option string;
  R2_BUCKET : option string;
  R2_PUBLIC_BASE_URL : option string;
  R2_PREFIX : option string;
  DEBUG_ERRORS_ENABLED : bool;
  SESSION_TTL_DAYS : Z;
}.

Definition R2_ENABLED (cfg : Config) : bool :=
  Js.truthy_opt (R2_ENDPOINT cfg) && Js.truthy_opt (R2_ACCESS_KEY_ID cfg)
  && Js.truthy_opt (R2_SECRET_ACCESS_KEY cfg) && Js.truthy_opt (R2_BUCKET cfg)
  && Js.truthy_opt (R2_PUBLIC_BASE_URL cfg).

(** [s.replace(/^\/+/, '')] *)
Fixpoint strip_leading_slashes (s : string) : string :=
  match s with
  | String c s' => if Ascii.eqb c "/" then strip_leading_slashes s' else s
  | EmptyString => EmptyString
  end.

(** [s.replace(/\/+$/, '')] *)
Fixpoint strip_trailing_slashes (s : string) : string :=
  match s with
  | EmptyString => EmptyString
  | String c s' =>
      match strip_trailing_slashes s' with
      | EmptyString => if Ascii.eqb c "/" then EmptyString else String c EmptyString
      | t => String c t
      end
  end.

Definition joinUrl (base pathPart : string) : string :=
  let normalizedBase := strip_trailing_slashes base in
  let normalizedPath := strip_leading_slashes pathPart in
  normalizedBase +:+ "/" +:+ normalizedPath.

Definition isHttpUrl (value : string) : bool :=
  Js.startsWith value "http://" || Js.startsWith value "https://".

Definition buildR2ObjectKey (cfg : Config) (key : string) : string :=
  let normalizedKey := strip_leading_slashes key in
  match R2_PREFIX cfg with
  | Some prefix =>
      if Js.truthy prefix then strip_trailing_slashes prefix +:+ "/" +:+ normalizedKey
      else normalizedKey
  | None => normalizedKey
  end.

(** [joinUrl(R2_PUBLIC_BASE_URL!, objectKey)]; only called when
    [R2_ENABLED], where the base URL is a non-empty string. *)
Definition buildR2PublicUrl (cfg : Config) (objectKey : string) : string :=
  joinUrl (default "" (R2_PUBLIC_BASE_URL cfg)) objectKey.

Definition uploadsDir (cfg : Config) : string := Path.join (dirname cfg) "uploads".
Definition coversDir (cfg : Config) : string := Path.join (uploadsDir cfg) "covers".

(* ===================================================================== *)
(** * 6. Local Disk path resolution                                       *)
(* ===================================================================== *)

Definition resolveUploadsPath (cfg : Config) (uploadsUrl : string) : result string :=
  if negb (Js.startsWith uploadsUrl "/uploads/") then
    Throw (Error "Invalid uploads URL")
  else
    let relativePath := Js.slice (String.length "/uploads/") uploadsUrl in
    let fullPath := Path.resolve (uploadsDir cfg) relativePath in
    let uploadsRoot := Path.resolve1 (uploadsDir cfg) +:+ Path.sep in
    if negb (Js.startsWith fullPath uploadsRoot) then
      Throw (Error "Invalid uploads path")
    else Ok fullPath.

(* ===================================================================== *)
(** * 7. Data model                                                       *)
(* ===================================================================== *)

Inductive UserRole : Type := RoleUser | RoleAdmin.

Definition role_eqb (a b : UserRole) : bool :=
  match a, b with
  | RoleUser, RoleUser | RoleAdmin, RoleAdmin => true
  | _, _ => false
  end.

(** A row of [users]. *)
Record UserRow : Type := {
  u_id : Z;
  username : string;
  password_hash : string;
  role : UserRole;
  u_created_at : Z;
}.

(** A row of [sessions]. *)
Record SessionRow : Type := {
  s_id : Z;
  token_hash : string;
  s_user_id : Z;
  s_created_at : Z;
  expires_at : Z;
}.

(** A row of [projects]. *)
Record ProjectRow : Type := {
  p_id : Z;
  name : string;
  audio_url : string;
  audio_object_key : option string;
  transcription : option string;
  emotional_analysis : option string;
  cover_url : option string;
  cover_object_key : option string;
  created_at : Z;
  user_id : option Z;
}.

(** The principal attached to a request. *)
Record AuthUser : Type := {
  au_id : Z;
  au_username : string;
  au_role : UserRole;
}.

(** The relational store: three tables and their [SERIAL] counters. *)
Record Db : Type := {
  users : list UserRow;
  sessions : list SessionRow;
  projects : list ProjectRow;
  users_seq : Z;
  sessions_seq : Z;
  projects_seq : Z;
}.

(** Everything outside the process: the database, the keys present in
    the remote bucket and the files present on the local disk. *)
Record World : Type := {
  db : Db;
  bucket : gset string;
  disk : gset string;
}.

Definition set_db (w : World) (d : Db) : World :=
  {| db := d; bucket := bucket w; disk := disk w |}.
Definition set_bucket (w : World) (b : gset string) : World :=
  {| db := db w; bucket := b; disk := disk w |}.
Definition set_disk (w : World) (f : gset string) : World :=
  {| db := db w; bucket := bucket w; disk := f |}.

Definition set_users (d : Db) (us : list UserRow) (seq : Z) : Db :=
  {| users := us; sessions := sessions d; projects := projects d;
     users_seq := seq; sessions_seq := sessions_seq d; projects_seq := projects_seq d |}.
Definition set_sessions (d : Db) (ss : list SessionRow) (seq : Z) : Db :=
  {| users := users d; sessions := ss; projects := projects d;
     users_seq := users_seq d; sessions_seq := seq; projects_seq := projects_seq d |}.
Definition set_projects (d : Db) (ps : list ProjectRow) (seq : Z) : Db :=
  {| users := users d; sessions := sessions d; projects := ps;
     users_seq := users_seq d; sessions_seq := sessions_seq d; projects_seq := seq |}.

Definition set_name (p : ProjectRow) (n : string) : ProjectRow :=
  {| p_id := p_id p; name := n; audio_url := audio_url p;
     audio_object_key := audio_object_key p; transcription := transcription p;
     emotional_analysis := emotional_analysis p; cover_url := cover_url p;
     cover_object_key := cover_object_key p; created_at := created_at p;
     user_id := user_id p |}.

Definition set_cover (p : ProjectRow) (url key : option string) : ProjectRow :=
  {| p_id := p_id p; name := name p; audio_url := audio_url p;
     audio_object_key := audio_object_key p; transcription := transcription p;
     emotional_analysis := emotional_analysis p; cover_url := url;
     cover_object_key := key; created_at := created_at p;
     user_id := user_id p |}.

(* ===================================================================== *)
(** * 8. Requests, responses, I/O requests and the trace                  *)
(* ===================================================================== *)

(** The file delivered by the inbound transfer layer ([req.file]). *)
Record UploadedFile : Type := {
  originalname : string;
  filename : string;
  path : string;
  mimetype : string;
  size : Z;
}.

(** A request as it arrives.  Body fields are [None] when absent or not
    strings. *)
Record Incoming : Type := {
  authorization : option string;
  params_id : string;
  body_username : option string;
  body_password : option string;
  body_name : option string;
  file : option UploadedFile;
}.

(** The request after [authMiddleware]. *)
Record Request : Type := {
  incoming : Incoming;
  user : option AuthUser;
  sessionToken : option string;
}.

Inductive Query : Type :=
| SelectUserByName (username : string)
| InsertUser (username : string)
| SelectSessionUser (tokenHash : string)
| InsertSession (tokenHash : string) (userId : Z)
| DeleteSession (tokenHash : string)
| SelectProject (id : string)
| SelectProjectWithOwner (id : option Z)
| InsertProject (audioUrl : string)
| UpdateProjectName (id : string)
| DeleteProject (id : string)
| UpdateProjectCover (id : string).

(** A request sent to the outside; the environment decides whether it
    fails. *)
Inductive Io : Type :=
| DbQuery (q : Query)
| R2Put (objectKey : string)
| R2Delete (objectKey : string)
| FsWrite (filePath : string)
| FsUnlink (filePath : string).

Inductive Body : Type :=
| JsonError (message : string) (details : option error)
| JsonOk
| JsonAuth (token : string) (principal : AuthUser)
| JsonUser (principal : option AuthUser)
| JsonProject (project : option (ProjectRow * option string))
| JsonProjects (rows : list (ProjectRow * option string)).

Inductive Event : Type :=
| EvIo (io : Io) (ok : bool)         (* a request was issued; [ok] is its outcome *)
| EvExists (filePath : string)       (* [fs.existsSync] *)
| EvLog (message : string)           (* [console.error] *)
| EvSend (status : Z) (body : Body). (* the response *)

(** The part of a request's execution that the server does not control. *)
Record Env : Type := {
  now : Z;                              (* [Date.now()] and [NOW()], ms *)
  fails : Io -> bool;                   (* which outside requests fail *)
  salt_bytes : bytes;                   (* [crypto.randomBytes(16)] *)
  token_bytes : bytes;                  (* [crypto.randomBytes(32)] *)
  name_bytes : bytes;                   (* [crypto.randomBytes(8)] of a file name *)
  cover_source : string;                (* [coverSourceUrl] chosen by the image service *)
  http_get : string -> option (bytes * option string);
                                        (* [axios.get]: body and content type *)
}.

(* ===================================================================== *)
(** * 9. The handler monad                                                *)
(* ===================================================================== *)

(** A computation reads and updates the world, appends to the trace and
    either returns or throws. *)
Definition M (A : Type) : Type := World -> result A * World * list Event.

Definition ret {A} (a : A) : M A := fun w => (Ok a, w, []).

Definition throw {A} (e : error) : M A := fun w => (Throw e, w, []).

Definition bind {A B} (m : M A) (f : A -> M B) : M B := fun w =>
  match m w with
  | (Ok a, w1, t1) =>
      match f a w1 with (r, w2, t2) => (r, w2, t1 ++ t2) end
  | (Throw e, w1, t1) => (Throw e, w1, t1)
  end.

Notation "x <- m ;; k" := (bind m (fun x => k))
  (at level 100, m at next level, right associativity).
Notation "m ;;; k" := (bind m (fun _ => k))
  (at level 100, right associativity).

(** [try { m } catch (err) { h err }] *)
Definition try_catch {A} (m : M A) (h : error -> M A) : M A := fun w =>
  match m w with
  | (Ok a, w1, t1) => (Ok a, w1, t1)
  | (Throw e, w1, t1) =>
      match h e w1 with (r, w2, t2) => (r, w2, t1 ++ t2) end
  end.

(** [try { m } finally { f }] *)
Definition try_finally {A} (m : M A) (f : M unit) : M A := fun w =>
  match m w with
  | (r, w1, t1) =>
      match f w1 with
      | (Ok _, w2, t2) => (r, w2, t1 ++ t2)
      | (Throw e, w2, t2) => (Throw e, w2, t1 ++ t2)
      end
  end.

(** The outcome of [m] as a value. *)
Definition attempt {A} (m : M A) : M (result A) := fun w =>
  match m w with (r, w1, t1) => (Ok r, w1, t1) end.

Definition lift {A} (r : result A) : M A := fun w => (r, w, []).

Definition emit (e : Event) : M unit := fun w => (Ok tt, w, [e]).

Definition console_error (message : string) : M unit := emit (EvLog message).

(** [res.status(status).json(body)] *)
Definition send (status : Z) (body : Body) : M unit := emit (EvSend status body).

Definition get_world : M World := fun w => (Ok w, w, []).

(** World, trace and outcome of a run. *)
Definition outcome {A} (r : result A * World * list Event) : result A := fst (fst r).
Definition world_of {A} (r : result A * World * list Event) : World := snd (fst r).
Definition trace_of {A} (r : result A * World * list Event) : list Event := snd r.

(* ===================================================================== *)
(** * 10. The SQL statements of the server                                *)
(* ===================================================================== *)

Module Sql.

Local Open Scope Z_scope.

Definition auth_of (u : UserRow) : AuthUser :=
  {| au_id := u_id u; au_username := username u; au_role := role u |}.

(** [SELECT id, username, role, password_hash FROM users WHERE username = $1] *)
Definition select_user_by_name (uname : string) (d : Db) : list UserRow :=
  List.filter (fun u => String.eqb (username u) uname) (users d).

(** [INSERT INTO users (username, password_hash) VALUES ($1, $2)
    RETURNING id, username, role]; [username] is [UNIQUE]. *)
Definition insert_user (uname hash : string) (t : Z) (d : Db) : result (AuthUser * Db) :=
  if existsb (fun u => String.eqb (username u) uname) (users d) then Throw DbError
  else
    let row := {| u_id := users_seq d + 1; username := uname; password_hash := hash;
                  role := RoleUser; u_created_at := t |} in
    Ok (auth_of row, set_users d (users d ++ [row]) (users_seq d + 1)).

(** [SELECT u.id, u.username, u.role FROM sessions s JOIN users u
    ON u.id = s.user_id WHERE s.token_hash = $1 AND s.expires_at > NOW()] *)
Definition select_session_user (tokenHash : string) (t : Z) (d : Db) : list AuthUser :=
  flat_map
    (fun s =>
       if String.eqb (token_hash s) tokenHash && (t <? expires_at s)%Z then
         map auth_of (List.filter (fun u => (u_id u =? s_user_id s)%Z) (users d))
       else [])
    (sessions d).

(** [INSERT INTO sessions (token_hash, user_id, expires_at) VALUES
    ($1, $2, $3)]; [token_hash] is [UNIQUE], [user_id] references
    [users]. *)
Definition insert_session (tokenHash : string) (userId expiresAt t : Z) (d : Db)
  : result (unit * Db) :=
  if existsb (fun s => String.eqb (token_hash s) tokenHash) (sessions d) then Throw DbError
  else if negb (existsb (fun u => (u_id u =? userId)%Z) (users d)) then Throw DbError
  else
    let row := {| s_id := sessions_seq d + 1; token_hash := tokenHash;
                  s_user_id := userId; s_created_at := t; expires_at := expiresAt |} in
    Ok (tt, set_sessions d (sessions d ++ [row]) (sessions_seq d + 1)).

(** [DELETE FROM sessions WHERE token_hash = $1] *)
Definition delete_session (tokenHash : string) (d : Db) : Db :=
  set_sessions d
    (List.filter (fun s => negb (String.eqb (token_hash s) tokenHash)) (sessions d))
    (sessions_seq d).

(** [SELECT * FROM projects WHERE id = $1] *)
Definition select_project (i : Z) (d : Db) : list ProjectRow :=
  List.filter (fun p => (p_id p =? i)%Z) (projects d).

Definition owner_username (p : ProjectRow) (d : Db) : option string :=
  match user_id p with
  | Some uid => head (map username (List.filter (fun u => (u_id u =? uid)%Z) (users d)))
  | None => None
  end.

(** [SELECT p.*, u.username AS owner_username FROM projects p
    LEFT JOIN users u ON u.id = p.user_id WHERE p.id = $1] *)
Definition select_project_with_owner (i : Z) (d : Db)
  : list (ProjectRow * option string) :=
  map (fun p => (p, owner_username p d)) (select_project i d).

(** [INSERT INTO projects (name, audio_url, audio_object_key, user_id)
    VALUES ($1, $2, $3, $4) RETURNING id]; [name] is [VARCHAR(255)],
    [user_id] references [users]. *)
Definition insert_project (nm url : string) (key : option string) (uid t : Z) (d : Db)
  : result (Z * Db) :=
  if (255 <? String.length nm)%nat then Throw DbError
  else if negb (existsb (fun u => (u_id u =? uid)%Z) (users d)) then Throw DbError
  else
    let row := {| p_id := projects_seq d + 1; name := nm; audio_url := url;
                  audio_object_key := key; transcription := None;
                  emotional_analysis := None; cover_url := None;
                  cover_object_key := None; created_at := t; user_id := Some uid |} in
    Ok (projects_seq d + 1, set_projects d (projects d ++ [row]) (projects_seq d + 1)).

(** [UPDATE projects SET name = $1 WHERE id = $2] *)
Definition update_project_name (nm : string) (i : Z) (d : Db) : result (unit * Db) :=
  if (255 <? String.length nm)%nat then Throw DbError
  else Ok (tt, set_projects d
                 (map (fun p => if (p_id p =? i)%Z then set_name p nm else p) (projects d))
                 (projects_seq d)).

(** [DELETE FROM projects WHERE id = $1] *)
Definition delete_project (i : Z) (d : Db) : Db :=
  set_projects d (List.filter (fun p => negb (p_id p =? i)%Z) (projects d)) (projects_seq d).

(** [UPDATE projects SET cover_url = $1, cover_object_key = $2 WHERE id = $3] *)
Definition update_project_cover (url : string) (key : option string) (i : Z) (d : Db) : Db :=
  set_projects d
    (map (fun p => if (p_id p =? i)%Z then set_cover p (Some url) key else p) (projects d))
    (projects_seq d).

End Sql.

Arguments Sql.select_user_by_name : simpl never.
Arguments Sql.insert_user : simpl never.
Arguments Sql.select_session_user : simpl never.
Arguments Sql.insert_session : simpl never.
Arguments Sql.delete_session : simpl never.
Arguments Sql.select_project : simpl never.
Arguments Sql.select_project_with_owner : simpl never.
Arguments Sql.insert_project : simpl never.
Arguments Sql.update_project_name : simpl never.
Arguments Sql.delete_project : simpl never.
Arguments Sql.update_project_cover : simpl never.

(* ===================================================================== *)
(** * 11. Outside requests                                                *)
(* ===================================================================== *)

Section Server.

Local Open Scope Z_scope.

Context {platform : Platform}.
Variable cfg : Config.
Variable env : Env.

(** [await pool.query(...)]: rejected when the environment says so or
    when the statement itself is in error. *)
Definition query {A} (q : Query) (run : Db -> result (A * Db)) : M A := fun w =>
  if fails env (DbQuery q) then (Throw DbError, w, [EvIo (DbQuery q) false])
  else match run (db w) with
       | Ok (a, d) => (Ok a, set_db w d, [EvIo (DbQuery q) true])
       | Throw e => (Throw e, w, [EvIo (DbQuery q) false])
       end.

(** A statement whose text parameter is compared with the integer
    [id] column. *)
Definition with_id {A} (id : string) (run : Z -> Db -> result (A * Db))
  : Db -> result (A * Db) :=
  fun d => match int4_in id with
           | Some i => run i d
           | None => Throw DbError
           end.

Definition putObjectToR2 (objectKey : string) : M unit :=
  if negb (R2_ENABLED cfg) then throw (Error "R2 is not configured")
  else fun w =>
    if fails env (R2Put objectKey) then (Throw R2Error, w, [EvIo (R2Put objectKey) false])
    else (Ok tt, set_bucket w ({[ objectKey ]} ∪ bucket w), [EvIo (R2Put objectKey) true]).

Definition deleteObjectFromR2 (objectKey : string) : M unit :=
  if negb (R2_ENABLED cfg) then ret tt
  else fun w =>
    if fails env (R2Delete objectKey) then
      (Throw R2Error, w, [EvIo (R2Delete objectKey) false])
    else (Ok tt, set_bucket w (bucket w ∖ {[ objectKey ]}), [EvIo (R2Delete objectKey) true]).

(** [fs.existsSync(p)] *)
Definition existsSync (p : string) : M bool := fun w =>
  (Ok (bool_decide (p ∈ disk w)), w, [EvExists p]).

(** [fs.unlinkSync(p)]: throws when the file is missing. *)
Definition unlinkSync (p : string) : M unit := fun w =>
  if fails env (FsUnlink p) || negb (bool_decide (p ∈ disk w)) then
    (Throw FsError, w, [EvIo (FsUnlink p) false])
  else (Ok tt, set_disk w (disk w ∖ {[ p ]}), [EvIo (FsUnlink p) true]).

(** [fs.writeFileSync(p, data)] *)
Definition writeFileSync (p : string) : M unit := fun w =>
  if fails env (FsWrite p) then (Throw FsError, w, [EvIo (FsWrite p) false])
  else (Ok tt, set_disk w ({[ p ]} ∪ disk w), [EvIo (FsWrite p) true]).

(* =================================================================== *)
(** * 12. Credential engine                                            *)
(* =================================================================== *)

Definition hashPassword (password : string) : result string :=
  let salt := salt_bytes env in
  match scrypt password salt 64 with
  | Ok derivedKey =>
      Ok ("scrypt$" +:+ Buffer.toBase64 salt +:+ "$" +:+ Buffer.toBase64 derivedKey)
  | Throw e => Throw e
  end.

Fixpoint bytes_eqb (a b : bytes) : bool :=
  match a, b with
  | [], [] => true
  | x :: a', y :: b' => Byte.eqb x y && bytes_eqb a' b'
  | _, _ => false
  end.

(** [crypto.timingSafeEqual(a, b)] *)
Definition timingSafeEqual (a b : bytes) : result bool :=
  if (length a =? length b)%nat then Ok (bytes_eqb a b)
  else Throw (RangeError "Input buffers must have the same byte length").

Definition verifyPassword (password storedHash : string) : result bool :=
  let parts := Js.split "$" storedHash in
  if negb (length parts =? 3)%nat then Ok false
  else
    match parts with
    | [algo; saltB64; keyB64] =>
        if negb (String.eqb algo "scrypt") then Ok false
        else
          let salt := Buffer.fromBase64 saltB64 in
          let expected := Buffer.fromBase64 keyB64 in
          match scrypt password salt (length expected) with
          | Throw e => Throw e
          | Ok actual =>
              if negb (length expected =? length actual)%nat then Ok false
              else timingSafeEqual expected actual
          end
    | _ => Ok false
    end.

(* =================================================================== *)
(** * 13. Session store                                                *)
(* =================================================================== *)

Definition generateSessionToken : string := Buffer.toBase64Url (token_bytes env).

Definition hashSessionToken (token : string) : string := Buffer.toHex (sha256 token).

Definition getAuthTokenFromRequest (req : Incoming) : option string :=
  match authorization req with
  | None => None
  | Some header =>
      if negb (Js.truthy header) then None
      else
        match Js.split " " header with
        | scheme :: token :: _ =>
            if negb (String.eqb scheme "Bearer") || negb (Js.truthy token) then None
            else Some token
        | _ => None
        end
  end.

(** The body of [authMiddleware]; a thrown error is what it passes to
    [next(err)]. *)
Definition authMiddleware (req : Incoming) : M Request :=
  match getAuthTokenFromRequest req with
  | None => ret {| incoming := req; user := None; sessionToken := None |}
  | Some token =>
      let tokenHash := hashSessionToken token in
      rows <- query (SelectSessionUser tokenHash)
                (fun d => Ok (Sql.select_session_user tokenHash (now env) d, d)) ;;
      match rows with
      | row :: _ =>
          ret {| incoming := req; user := Some row; sessionToken := Some token |}
      | [] => ret {| incoming := req; user := None; sessionToken := None |}
      end
  end.

(** A route behind [app.use(authMiddleware)]; [protected] routes are
    also behind [requireAuth].  An error passed to [next] is answered
    by the framework's default handler. *)
Definition route (protected : bool) (handler : Request -> M unit) (req : Incoming)
  : M unit :=
  r <- attempt (authMiddleware req) ;;
  match r with
  | Throw _ => send 500 (JsonError "Internal Server Error" None)
  | Ok req' =>
      if protected && negb (match user req' with Some _ => true | None => false end)
      then send 401 (JsonError "Authentication required" None)
      else handler req'
  end.

Definition normalizeUsername (uname : option string) : option string :=
  match uname with
  | None => None
  | Some u =>
      let normalized := Js.toLowerCase (Js.trim u) in
      if (String.length normalized <? 3)%nat || (64 <? String.length normalized)%nat
      then None else Some normalized
  end.

Definition validatePassword (password : option string) : option string :=
  match password with
  | None => None
  | Some p =>
      if (String.length p <? 6)%nat || (200 <? String.length p)%nat then None
      else Some p
  end.

Definition session_ttl_ms : Z := SESSION_TTL_DAYS cfg * 24 * 60 * 60 * 1000.

(** Lines shared by register and login: issue a token for [userId]. *)
Definition issue_session (userId : Z) : M string :=
  let token := generateSessionToken in
  let tokenHash := hashSessionToken token in
  let expiresAt := (now env + session_ttl_ms)%Z in
  query (InsertSession tokenHash userId)
    (Sql.insert_session tokenHash userId expiresAt (now env)) ;;;
  ret token.

(** [POST /api/auth/register] *)
Definition register (req : Request) : M unit :=
  try_catch
    (let uname := normalizeUsername (body_username (incoming req)) in
     let password := validatePassword (body_password (incoming req)) in
     match uname, password with
     | Some uname, Some password =>
         existing <- query (SelectUserByName uname)
                       (fun d => Ok (Sql.select_user_by_name uname d, d)) ;;
         match existing with
         | _ :: _ => send 409 (JsonError "Username already taken" None)
         | [] =>
             passwordHash <- lift (hashPassword password) ;;
             usr <- query (InsertUser uname)
                      (Sql.insert_user uname passwordHash (now env)) ;;
             token <- issue_session (au_id usr) ;;
             send 200 (JsonAuth token usr)
         end
     | _, _ => send 400 (JsonError "Invalid username or password" None)
     end)
    (fun err => console_error "register" ;;; send 500 (JsonError "Failed to register" None)).

(** [POST /api/auth/login] *)
Definition login (req : Request) : M unit :=
  try_catch
    (let uname := normalizeUsername (body_username (incoming req)) in
     let password := validatePassword (body_password (incoming req)) in
     match uname, password with
     | Some uname, Some password =>
         result <- query (SelectUserByName uname)
                     (fun d => Ok (Sql.select_user_by_name uname d, d)) ;;
         match result with
         | [] => send 401 (JsonError "Invalid username or password" None)
         | row :: _ =>
             ok <- lift (verifyPassword password (password_hash row)) ;;
             if negb ok then send 401 (JsonError "Invalid username or password" None)
             else
               token <- issue_session (u_id row) ;;
               send 200 (JsonAuth token (Sql.auth_of row))
         end
     | _, _ => send 400 (JsonError "Invalid username or password" None)
     end)
    (fun err => console_error "login" ;;; send 500 (JsonError "Failed to login" None)).

(** [POST /api/auth/logout] *)
Definition logout (req : Request) : M unit :=
  try_catch
    (match sessionToken req with
     | Some token =>
         (if Js.truthy token then
            query (DeleteSession (hashSessionToken token))
              (fun d => Ok (tt, Sql.delete_session (hashSessionToken token) d))
          else ret tt) ;;;
         send 200 JsonOk
     | None => send 200 JsonOk
     end)
    (fun err => console_error "logout" ;;; send 500 (JsonError "Failed to logout" None)).

(** [GET /api/auth/me] *)
Definition me (req : Request) : M unit := send 200 (JsonUser (user req)).

(* =================================================================== *)
(** * 14. Access control and project helpers                           *)
(* =================================================================== *)

Inductive Access : Type :=
| Denied (status : Z) (message : string)
| Granted (project : ProjectRow).

Definition requireProjectWriteAccess (projectId : string) (usr : AuthUser) : M Access :=
  rows <- query (SelectProject projectId)
            (with_id projectId (fun i d => Ok (Sql.select_project i d, d))) ;;
  match rows with
  | [] => ret (Denied 404 "Project not found")
  | project :: _ =>
      if negb (role_eqb (au_role usr) RoleAdmin)
         && negb (match user_id project with
                  | Some uid => uid =? au_id usr
                  | None => false
                  end)
      then ret (Denied 403 "Forbidden")
      else ret (Granted project)
  end.

(** [getProjectWithOwner(projectId)]; [None] is an identifier the
    database cannot read as an integer. *)
Definition getProjectWithOwner (projectId : option Z)
  : M (option (ProjectRow * option string)) :=
  rows <- query (SelectProjectWithOwner projectId)
            (fun d => match projectId with
                      | Some i => Ok (Sql.select_project_with_owner i d, d)
                      | None => Throw DbError
                      end) ;;
  ret (head rows).

Definition is_lower_alnum (c : ascii) : bool :=
  let n := nat_of_ascii c in
  ((97 <=? n) && (n <=? 122))%nat || ((48 <=? n) && (n <=? 57))%nat.

Fixpoint all_chars (f : ascii -> bool) (s : string) : bool :=
  match s with
  | EmptyString => true
  | String c s' => f c && all_chars f s'
  end.

(** The suffix that starts at the last [.] of [s]. *)
Fixpoint last_dot_suffix (s : string) : option string :=
  match s with
  | EmptyString => None
  | String c s' =>
      match last_dot_suffix s' with
      | Some t => Some t
      | None => if Ascii.eqb c "." then Some s else None
      end
  end.

(** [path.extname(p)]: from the last [.] of the last path component,
    unless that dot is its first character or the component is [..]. *)
Definition extname (p : string) : string :=
  let base := List.last (List.filter Js.truthy (Js.split "/" p)) "" in
  match base with
  | String _ rest =>
      if String.eqb base ".." then ""
      else default "" (last_dot_suffix rest)
  | EmptyString => ""
  end.

Definition getSafeFileExtension (fname : string) : string :=
  let ext := Js.toLowerCase (extname fname) in
  if negb (Js.truthy ext) then ""
  else
    (* /^\.[a-z0-9]{1,10}$/ *)
    match ext with
    | String "." rest =>
        if (1 <=? String.length rest)%nat && (String.length rest <=? 10)%nat
           && all_chars is_lower_alnum rest
        then ext else ""
    | _ => ""
    end.

Definition mimeTypeToImageExtension (mimeType : string) : string :=
  let normalized := Js.toLowerCase (Js.trim (List.hd "" (Js.split ";" mimeType))) in
  if String.eqb normalized "image/png" then "png"
  else if String.eqb normalized "image/jpeg" then "jpg"
  else if String.eqb normalized "image/webp" then "webp"
  else if String.eqb normalized "image/gif" then "gif"
  else "png".

Definition is_mime_char (c : ascii) : bool :=
  let n := nat_of_ascii c in
  (((97 <=? n) && (n <=? 122)) || ((65 <=? n) && (n <=? 90))
   || ((48 <=? n) && (n <=? 57)) || (n =? 46) || (n =? 43) || (n =? 45))%nat.

Fixpoint span (f : ascii -> bool) (s : string) : string * string :=
  match s with
  | String c s' =>
      if f c then let '(a, b) := span f s' in (String c a, b) else (EmptyString, s)
  | EmptyString => (EmptyString, EmptyString)
  end.

Definition is_line_terminator (c : ascii) : bool :=
  let n := nat_of_ascii c in ((n =? 10) || (n =? 13))%nat.

(** [sourceUrl.match(/^data:(image\/[a-zA-Z0-9.+-]+);base64,(.+)$/)]:
    the media type and the base64 text. *)
Definition match_data_uri (sourceUrl : string) : option (string * string) :=
  if negb (Js.startsWith sourceUrl "data:image/") then None
  else
    let '(subtype, rest) := span is_mime_char (Js.slice 11 sourceUrl) in
    if negb (Js.truthy subtype) then None
    else if negb (Js.startsWith rest ";base64,") then None
    else
      let b64 := Js.slice 8 rest in
      if Js.truthy b64 && all_chars (fun c => negb (is_line_terminator c)) b64
      then Some ("image/" +:+ subtype, b64) else None.

Record StoredCover : Type := {
  url : string;
  objectKey : option string;
}.

(** [downloadCoverToStorage(sourceUrl, projectId)]; [None] is [null]. *)
Definition downloadCoverToStorage (sourceUrl projectId : string)
  : M (option StoredCover) :=
  try_catch
    (let fetched :=
       if Js.startsWith sourceUrl "data:image/" then
         match match_data_uri sourceUrl with
         | None => Ok None
         | Some (dataMimeType, b64) => Ok (Some (Buffer.fromBase64 b64, dataMimeType))
         end
       else
         match http_get env sourceUrl with
         | None => Throw (Error "Request failed")
         | Some (data, contentType) =>
             Ok (Some (data, match contentType with
                             | Some ct => if Js.truthy ct then ct else "image/png"
                             | None => "image/png"
                             end))
         end in
     got <- lift fetched ;;
     match got with
     | None => ret None
     | Some (coverBuffer, mimeType) =>
         let normalizedMimeType :=
           let m := Js.trim (List.hd "" (Js.split ";" mimeType)) in
           if Js.truthy m then m else "image/png" in
         let extension := mimeTypeToImageExtension normalizedMimeType in
         let fname :=
           Js.of_Z (now env) +:+ "-project-" +:+ projectId +:+ "-"
           +:+ Buffer.toHex (name_bytes env) +:+ "." +:+ extension in
         if R2_ENABLED cfg then
           let objectKey :=
             buildR2ObjectKey cfg ("covers/project-" +:+ projectId +:+ "/" +:+ fname) in
           putObjectToR2 objectKey ;;;
           ret (Some {| url := buildR2PublicUrl cfg objectKey; objectKey := Some objectKey |})
         else
           let filePath := Path.join (coversDir cfg) fname in
           writeFileSync filePath ;;;
           ret (Some {| url := "/uploads/covers/" +:+ fname; objectKey := None |})
     end)
    (fun err => console_error "Failed to store cover:" ;;; ret None).

(** The principal of a request that passed [requireAuth] ([req.user!]). *)
Definition the_user (req : Request) : M AuthUser :=
  match user req with
  | Some u => ret u
  | None => throw (Error "TypeError")
  end.

(* =================================================================== *)
(** * 15. Project handlers                                             *)
(* =================================================================== *)

Definition body_name_trimmed (req : Request) : string :=
  match body_name (incoming req) with
  | Some n => Js.trim n
  | None => ""
  end.

(** The [catch] block of [POST /api/projects], for the value
    [uploadedObjectKey] has when the error is thrown. *)
Definition createProject_catch (uploadedObjectKey : option string) (err : error)
  : M unit :=
  console_error "Failed to create project:" ;;;
  (if Js.truthy_opt uploadedObjectKey then
     try_catch (deleteObjectFromR2 (default "" uploadedObjectKey))
       (fun cleanupErr => console_error "Failed to cleanup R2 audio object:")
   else ret tt) ;;;
  if DEBUG_ERRORS_ENABLED cfg then
    send 500 (JsonError "Failed to create project" (Some err))
  else send 500 (JsonError "Failed to create project" None).

(** The upload step of [POST /api/projects]: the values of
    [audioUrlToStore] and [audioObjectKeyToStore] after it;
    [uploadedObjectKey] is set to the same key at the same point. *)
Definition createProject_upload (f : UploadedFile) : M (string * option string) :=
  if R2_ENABLED cfg then
    let ext := getSafeFileExtension (originalname f) in
    let objectKey :=
      buildR2ObjectKey cfg
        ("audio/" +:+ Js.of_Z (now env) +:+ "-" +:+ Buffer.toHex (name_bytes env) +:+ ext) in
    putObjectToR2 objectKey ;;;
    ret (buildR2PublicUrl cfg objectKey, Some objectKey)
  else ret ("/uploads/" +:+ filename f, None).

(** The [try] block of [POST /api/projects] (its [catch] block is
    [createProject_catch]). *)
Definition createProject_try (req : Request) : M unit :=
  let nm := body_name_trimmed req in
  match file (incoming req) with
  | None => send 400 (JsonError "Audio file is required" None)
  | Some f =>
      uploaded <- attempt (createProject_upload f) ;;
      match uploaded with
      | Throw err => createProject_catch None err
      | Ok (audioUrlToStore, audioObjectKeyToStore) =>
          try_catch
            (usr <- the_user req ;;
             newId <- query (InsertProject audioUrlToStore)
                        (Sql.insert_project
                           (if Js.truthy nm then nm else "Untitled Project")
                           audioUrlToStore audioObjectKeyToStore (au_id usr) (now env)) ;;
             project <- getProjectWithOwner (Some newId) ;;
             send 200 (JsonProject project))
            (createProject_catch audioObjectKeyToStore)
      end
  end.

(** The [finally] block of [POST /api/projects]. *)
Definition createProject_finally (req : Request) : M unit :=
  match file (incoming req) with
  | Some f =>
      if R2_ENABLED cfg && Js.truthy (path f) then
        try_catch (unlinkSync (path f)) (fun _ => ret tt)
      else ret tt
  | None => ret tt
  end.

(** [POST /api/projects] *)
Definition createProject (req : Request) : M unit :=
  try_finally (createProject_try req) (createProject_finally req).

(** [PUT /api/projects/:id] *)
Definition renameProject (req : Request) : M unit :=
  try_catch
    (let nm := body_name_trimmed req in
     let id := params_id (incoming req) in
     if negb (Js.truthy nm) then send 400 (JsonError "Name is required" None)
     else
       usr <- the_user req ;;
       access <- requireProjectWriteAccess id usr ;;
       match access with
       | Denied status message => send status (JsonError message None)
       | Granted _ =>
           query (UpdateProjectName id) (with_id id (Sql.update_project_name nm)) ;;;
           updated <- getProjectWithOwner (int4_in id) ;;
           send 200 (JsonProject updated)
       end)
    (fun err => console_error "rename" ;;;
                send 500 (JsonError "Failed to update project" None)).

(** The best-effort removal of a project's assets (the four blocks
    after the row is deleted in [DELETE /api/projects/:id]). *)
Definition deleteProjectAssets (project : ProjectRow) : M unit :=
  (if Js.truthy_opt (audio_object_key project) then
     try_catch (deleteObjectFromR2 (default "" (audio_object_key project)))
       (fun _ => console_error "Failed to delete R2 audio object:")
   else ret tt) ;;;
  (if Js.truthy_opt (cover_object_key project) then
     try_catch (deleteObjectFromR2 (default "" (cover_object_key project)))
       (fun _ => console_error "Failed to delete R2 cover object:")
   else ret tt) ;;;
  try_catch
    (if Js.startsWith (audio_url project) "/uploads/" then
       audioPath <- lift (resolveUploadsPath cfg (audio_url project)) ;;
       present <- existsSync audioPath ;;
       if present then unlinkSync audioPath else ret tt
     else ret tt)
    (fun _ => ret tt) ;;;
  match cover_url project with
  | Some coverUrl =>
      if Js.startsWith coverUrl "/uploads/covers/" then
        try_catch
          (coverPath <- lift (resolveUploadsPath cfg coverUrl) ;;
           present <- existsSync coverPath ;;
           if present then unlinkSync coverPath else ret tt)
          (fun _ => ret tt)
      else ret tt
  | None => ret tt
  end.

(** [DELETE /api/projects/:id] *)
Definition deleteProject (req : Request) : M unit :=
  try_catch
    (let id := params_id (incoming req) in
     usr <- the_user req ;;
     access <- requireProjectWriteAccess id usr ;;
     match access with
     | Denied status message => send status (JsonError message None)
     | Granted project =>
         query (DeleteProject id)
           (with_id id (fun i d => Ok (tt, Sql.delete_project i d))) ;;;
         deleteProjectAssets project ;;;
         send 200 JsonOk
     end)
    (fun err => console_error "delete" ;;;
                send 500 (JsonError "Failed to delete project" None)).

(** [a || b] on [string | null]. *)
Definition or_else (a b : option string) : option string :=
  if Js.truthy_opt a then a else b.

(** The removal of the previous cover (the two blocks after the
    [UPDATE] in [POST /api/generate-cover/:id]). *)
Definition removePreviousCover (previousCoverUrl previousCoverObjectKey : option string)
  (coverUrlToStore : string) (coverObjectKeyToStore : option string) : M unit :=
  (if Js.truthy_opt previousCoverObjectKey && Js.truthy_opt coverObjectKeyToStore
      && negb (String.eqb (default "" previousCoverObjectKey)
                          (default "" coverObjectKeyToStore))
   then
     try_catch (deleteObjectFromR2 (default "" previousCoverObjectKey))
       (fun _ => console_error "Failed to delete previous R2 cover:")
   else ret tt) ;;;
  if Js.truthy_opt previousCoverUrl
     && Js.startsWith (default "" previousCoverUrl) "/uploads/covers/"
     && negb (String.eqb (default "" previousCoverUrl) coverUrlToStore)
  then
    try_catch
      (previousPath <- lift (resolveUploadsPath cfg (default "" previousCoverUrl)) ;;
       present <- existsSync previousPath ;;
       if present then unlinkSync previousPath else ret tt)
      (fun _ => ret tt)
  else ret tt.

(** [POST /api/generate-cover/:id] from the stored cover on: update
    the pointer fields, then remove the previous cover. *)
Definition commitCover (id : string) (project : ProjectRow) (coverSourceUrl : string)
  (storedCover : option StoredCover) : M unit :=
  let coverUrlToStore :=
    match storedCover with Some c => url c | None => coverSourceUrl end in
  let coverObjectKeyToStore :=
    match storedCover with Some c => objectKey c | None => None end in
  let previousCoverUrl := cover_url project in
  let previousCoverObjectKey := cover_object_key project in
  query (UpdateProjectCover id)
    (with_id id (fun i d =>
       Ok (tt, Sql.update_project_cover coverUrlToStore coverObjectKeyToStore i d))) ;;;
  removePreviousCover previousCoverUrl previousCoverObjectKey
    coverUrlToStore coverObjectKeyToStore ;;;
  updated <- getProjectWithOwner (int4_in id) ;;
  send 200 (JsonProject updated).

(** [POST /api/generate-cover/:id]; the prompt and the call of the
    image service are outside this model, their result is
    [cover_source env]. *)
Definition generateCover (req : Request) : M unit :=
  try_catch
    (let id := params_id (incoming req) in
     usr <- the_user req ;;
     access <- requireProjectWriteAccess id usr ;;
     match access with
     | Denied status message => send status (JsonError message None)
     | Granted project =>
         let analysisText := or_else (emotional_analysis project) (transcription project) in
         if negb (Js.truthy_opt analysisText) then
           send 400 (JsonError "Audio analysis required for cover generation" None)
         else
           let coverSourceUrl := cover_source env in
           storedCover <- downloadCoverToStorage coverSourceUrl id ;;
           if R2_ENABLED cfg && negb (match storedCover with Some _ => true | None => false end)
           then send 500 (JsonError "Failed to store cover" None)
           else commitCover id project coverSourceUrl storedCover
     end)
    (fun err => console_error "Cover Gen Error:" ;;;
                send 500 (JsonError "Failed to generate cover" None)).

End Server.

Arguments buildR2ObjectKey : simpl never.
Arguments buildR2PublicUrl : simpl never.
Arguments getSafeFileExtension : simpl never.
Arguments mimeTypeToImageExtension : simpl never.
Arguments match_data_uri : simpl never.
Arguments getAuthTokenFromRequest : simpl never.
Arguments hashSessionToken : simpl never.
Arguments generateSessionToken : simpl never.
Arguments resolveUploadsPath : simpl never.

(** The routes as mounted: [route] adds [authMiddleware] and, where the
    source has it, [requireAuth]. *)
Inductive Call : Type :=
| CRegister | CLogin | CLogout | CMe
| CCreateProject | CRenameProject | CDeleteProject | CGenerateCover.

Definition handler `{Platform} (cfg : Config) (env : Env) (c : Call) : Incoming -> M unit :=
  match c with
  | CRegister => route env false (register cfg env)
  | CLogin => route env false (login cfg env)
  | CLogout => route env true (logout env)
  | CMe => route env true me
  | CCreateProject => route env true (createProject cfg env)
  | CRenameProject => route env true (renameProject env)
  | CDeleteProject => route env true (deleteProject cfg env)
  | CGenerateCover => route env true (generateCover cfg env)
  end.

(** A history: the requests served one after the other, each with the
    environment it ran in. *)
Fixpoint serve `{Platform} (cfg : Config) (history : list (Env * Call * Incoming))
  (w : World) : World * list Event :=
  match history with
  | [] => (w, [])
  | (env, c, req) :: rest =>
      let '(_, w1, t1) := handler cfg env c req w in
      let '(w2, t2) := serve cfg rest w1 in
      (w2, t1 ++ t2)
  end.


(* ===================================================================== *)
(** * 16. Vocabulary of the specification                                 *)
(* ===================================================================== *)

(** ** Paths *)

Fixpoint has_char (c : ascii) (s : string) : bool :=
  match s with
  | EmptyString => false
  | String d s' => Ascii.eqb d c || has_char c s'
  end.

(** A segment of a canonical path: not empty, not [.] or [..], no
    separator inside. *)
Definition proper_segment (s : string) : Prop :=
  s <> "" /\ s <> "." /\ s <> ".." /\ has_char "/" s = false.

(** The concatenation of ["/" + seg] over the segments. *)
Fixpoint abs_path (segs : list string) : string :=
  match segs with
  | [] => ""
  | x :: xs => String "/" (x +:+ abs_path xs)
  end.

(** The segments of the uploads root. *)
Definition uploads_segments (cfg : Config) : list string :=
  Path.segments (dirname cfg +:+ "/" +:+ "uploads").

(** [p] is a canonical path strictly below the uploads root. *)
Definition inside_uploads (cfg : Config) (p : string) : Prop :=
  exists rest, rest <> [] /\ Forall proper_segment rest /\
               p = Path.of_segments (uploads_segments cfg ++ rest).

(** ** Project rows *)

Definition renamed (i : Z) (nm : string) (p : ProjectRow) : ProjectRow :=
  if (p_id p =? i)%Z then set_name p nm else p.

Definition same_except_name (p p' : ProjectRow) : Prop :=
  p_id p' = p_id p /\ audio_url p' = audio_url p /\
  audio_object_key p' = audio_object_key p /\ transcription p' = transcription p /\
  emotional_analysis p' = emotional_analysis p /\ cover_url p' = cover_url p /\
  cover_object_key p' = cover_object_key p /\ created_at p' = created_at p /\
  user_id p' = user_id p.

(** ** Traces *)

Definition is_r2_delete (k : string) (e : Event) : bool :=
  match e with
  | EvIo (R2Delete k') _ => String.eqb k' k
  | _ => false
  end.

Definition is_unlink (p : string) (e : Event) : bool :=
  match e with
  | EvIo (FsUnlink p') _ => String.eqb p' p
  | _ => false
  end.

(** A request that removes stored bytes. *)
Definition is_removal (e : Event) : bool :=
  match e with
  | EvIo (R2Delete _) _ | EvIo (FsUnlink _) _ => true
  | _ => false
  end.

Definition is_log (e : Event) : bool :=
  match e with EvLog _ => true | _ => false end.

Definition is_send (e : Event) : bool :=
  match e with EvSend _ _ => true | _ => false end.

Definition count_events (f : Event -> bool) (t : list Event) : nat :=
  length (List.filter f t).

(** [e1] is issued before [e2]. *)
Definition before (e1 e2 : Event) (t : list Event) : Prop :=
  exists a b c, t = a ++ e1 :: b ++ e2 :: c.

(** ** Sessions *)

(** A request that carries [Authorization: Bearer <token>]. *)
Definition bearer (token : string) : Incoming :=
  {| authorization := Some ("Bearer " +:+ token); params_id := "";
     body_username := None; body_password := None; body_name := None;
     file := None |}.

(** [resolve(raw_token)]: the principal [authMiddleware] attaches to a
    request that presents the token. *)
Definition resolve `{Platform} (env : Env) (token : string) (w : World) : option AuthUser :=
  match authMiddleware env (bearer token) w with
  | (Ok req, _, _) => user req
  | (Throw _, _, _) => None
  end.

(** The constraints the schema puts on [users] and [sessions]: primary
    keys below the counters, [token_hash] unique. *)
Definition db_wf (d : Db) : Prop :=
  NoDup (map u_id (users d)) /\
  Forall (fun u => (u_id u <= users_seq d)%Z) (users d) /\
  NoDup (map token_hash (sessions d)).

(** ** An executable platform, for examples *)

Module Demo.

Definition bytes_of_string (s : string) : bytes :=
  map byte_of_ascii (list_ascii_of_string s).

(** [n] bytes: the input cut or padded with zeros. *)
Definition fit (n : nat) (l : bytes) : bytes :=
  firstn n (l ++ repeat Byte.x00 n).

Definition kdf (password : string) (salt : bytes) (keylen : nat) : result bytes :=
  Ok (fit keylen (bytes_of_string password ++ salt)).

Definition digest (s : string) : bytes := fit 32 (bytes_of_string s).

Fixpoint digits (s : string) (acc : Z) : option Z :=
  match s with
  | EmptyString => Some acc
  | String c s' =>
      let n := Z.of_nat (nat_of_ascii c) in
      if ((48 <=? n) && (n <=? 57))%Z then digits s' (acc * 10 + (n - 48))%Z
      else None
  end.

Definition decimal (s : string) : option Z :=
  match s with
  | EmptyString => None
  | _ => digits s 0%Z
  end.

#[export] Instance platform : Platform :=
  {| scrypt := kdf; sha256 := digest; int4_in := decimal |}.

(** A platform whose key derivation rejects. *)
Definition failing : Platform :=
  {| scrypt := fun _ _ _ => Throw KdfError; sha256 := digest; int4_in := decimal |}.

Definition cfg_local : Config :=
  {| dirname := "/srv/app"; R2_ENDPOINT := None; R2_ACCESS_KEY_ID := None;
     R2_SECRET_ACCESS_KEY := None; R2_BUCKET := None; R2_PUBLIC_BASE_URL := None;
     R2_PREFIX := None; DEBUG_ERRORS_ENABLED := false; SESSION_TTL_DAYS := 30 |}.

Definition cfg_r2 : Config :=
  {| dirname := "/srv/app"; R2_ENDPOINT := Some "https://r2.example";
     R2_ACCESS_KEY_ID := Some "id"; R2_SECRET_ACCESS_KEY := Some "secret";
     R2_BUCKET := Some "media"; R2_PUBLIC_BASE_URL := Some "https://cdn.example/";
     R2_PREFIX := Some "prod/"; DEBUG_ERRORS_ENABLED := false; SESSION_TTL_DAYS := 30 |}.

Definition rand (n : nat) (b : Byte.byte) : bytes := repeat b n.

(** An environment in which the requests listed in [bad] fail. *)
Definition env_at (t : Z) (bad : Io -> bool) : Env :=
  {| now := t; fails := bad; salt_bytes := rand 16 Byte.x2a;
     token_bytes := rand 32 Byte.x5b; name_bytes := rand 8 Byte.xc3;
     cover_source := "https://img.example/c.png";
     http_get := fun _ => Some (rand 4 Byte.x89, Some "image/png") |}.

Definition no_fault : Io -> bool := fun _ => false.

Definition alice : UserRow :=
  {| u_id := 1; username := "alice"; password_hash := "x"; role := RoleUser;
     u_created_at := 0 |}.

Definition bob : UserRow :=
  {| u_id := 2; username := "bob"; password_hash := "x"; role := RoleUser;
     u_created_at := 0 |}.

Definition token_a : string := "tokenA".

Definition session_a : SessionRow :=
  {| s_id := 1; token_hash := Buffer.toHex (digest token_a); s_user_id := 1;
     s_created_at := 0; expires_at := 1000000 |}.

Definition project (i : Z) (nm audio : string) (akey curl ckey : option string)
  : ProjectRow :=
  {| p_id := i; name := nm; audio_url := audio; audio_object_key := akey;
     transcription := Some "text"; emotional_analysis := Some "mood";
     cover_url := curl; cover_object_key := ckey; created_at := 0;
     user_id := Some 1%Z |}.

Definition world (ps : list ProjectRow) (keys files : list string) : World :=
  {| db := {| users := [alice; bob]; sessions := [session_a]; projects := ps;
              users_seq := 2; sessions_seq := 1; projects_seq := 10 |};
     bucket := list_to_set keys; disk := list_to_set files |}.

Definition request (id : string) (nm : option string) (f : option UploadedFile)
  : Incoming :=
  {| authorization := Some ("Bearer " +:+ token_a); params_id := id;
     body_username := None; body_password := None; body_name := nm; file := f |}.

End Demo.

(** ** Invariants of handlers *)

(** A computation keeps the database invariant [I] and only emits
    events that satisfy [P]. *)
Definition sound (I : Db -> Prop) (P : Event -> Prop) {A} (m : M A) : Prop :=
  forall w, I (db w) -> I (db (world_of (m w))) /\ Forall P (trace_of (m w)).

(** The token a request presents is not [token] (nor one with the same
    hash) when the request is a logout. *)
Definition keeps_session `{Platform} (token : string)
  (step : Env * Call * Incoming) : Prop :=
  let '(env, c, req) := step in
  c = CLogout ->
  forall presented, getAuthTokenFromRequest req = Some presented ->
                    hashSessionToken presented <> hashSessionToken token.

(** The session row of an issued token and the row of its user. *)
Definition session_of (token : string) `{Platform} (u : AuthUser) (expiry : Z) (d : Db) : Prop :=
  db_wf d /\
  (exists s, In s (sessions d) /\ token_hash s = hashSessionToken token /\
             s_user_id s = au_id u /\ expires_at s = expiry) /\
  (exists row, In row (users d) /\ Sql.auth_of row = u).

Module DemoAuth.

(** A registration request. *)
Definition signup (uname password : string) : Incoming :=
  {| authorization := None; params_id := ""; body_username := Some uname;
     body_password := Some password; body_name := None; file := None |}.

Definition carol : AuthUser :=
  {| au_id := 3; au_username := "carol"; au_role := RoleUser |}.

(** The token of the demo environment: [base64url] of 32 bytes [0x5b]. *)
Definition token : string := "W1tbW1tbW1tbW1tbW1tbW1tbW1tbW1tbW1tbW1tbW1s".

(** Thirty days, in milliseconds. *)
Definition ttl : Z := 2592000000.

End DemoAuth.

(** ** Cleanup requests *)

Definition is_failed_r2_delete (e : Event) : bool :=
  match e with
  | EvIo (R2Delete _) false => true
  | _ => false
  end.

Definition is_failed_unlink (e : Event) : bool :=
  match e with
  | EvIo (FsUnlink _) false => true
  | _ => false
  end.

(** What a best-effort removal from the bucket leaves behind: the
    requests it issues (with the log line of a failure) and the keys
    that remain. *)
Definition r2_cleanup_trace (cfg : Config) (env : Env) (k message : string) : list Event :=
  if R2_ENABLED cfg then
    if fails env (R2Delete k) then [EvIo (R2Delete k) false; EvLog message]
    else [EvIo (R2Delete k) true]
  else [].

Definition r2_cleanup_bucket (cfg : Config) (env : Env) (k : string) (keys : gset string)
  : gset string :=
  if R2_ENABLED cfg && negb (fails env (R2Delete k)) then keys ∖ {[ k ]} else keys.

(** The same for a best-effort removal of the local file behind an
    uploads URL: nothing at all when the URL does not resolve inside the
    uploads root, a look-up only when the file is missing. *)
Definition unlink_cleanup_trace (cfg : Config) (env : Env) (uploadsUrl : string)
  (files : gset string) : list Event :=
  match resolveUploadsPath cfg uploadsUrl with
  | Ok p =>
      if bool_decide (p ∈ files) then
        [EvExists p; EvIo (FsUnlink p) (negb (fails env (FsUnlink p)))]
      else [EvExists p]
  | Throw _ => []
  end.

Definition unlink_cleanup_disk (cfg : Config) (env : Env) (uploadsUrl : string)
  (files : gset string) : gset string :=
  match resolveUploadsPath cfg uploadsUrl with
  | Ok p =>
      if bool_decide (p ∈ files) && negb (fails env (FsUnlink p)) then files ∖ {[ p ]}
      else files
  | Throw _ => files
  end.

(** The requests and the remaining files of the cover block of
    [deleteProjectAssets]. *)
Definition cover_unlink_trace (cfg : Config) (env : Env) (coverUrl : option string)
  (files : gset string) : list Event :=
  match coverUrl with
  | Some u =>
      if Js.startsWith u "/uploads/covers/" then unlink_cleanup_trace cfg env u files
      else []
  | None => []
  end.

Definition cover_unlink_disk (cfg : Config) (env : Env) (coverUrl : option string)
  (files : gset string) : gset string :=
  match coverUrl with
  | Some u =>
      if Js.startsWith u "/uploads/covers/" then unlink_cleanup_disk cfg env u files
      else files
  | None => files
  end.

Definition key_cleanup_trace (cfg : Config) (env : Env) (key : option string)
  (message : string) : list Event :=
  if Js.truthy_opt key then r2_cleanup_trace cfg env (default "" key) message else [].

Definition key_cleanup_bucket (cfg : Config) (env : Env) (key : option string)
  (keys : gset string) : gset string :=
  if Js.truthy_opt key then r2_cleanup_bucket cfg env (default "" key) keys else keys.

(** A request that fails only the listed kind of outside request. *)
Definition fail_unlinks : Io -> bool :=
  fun io => match io with FsUnlink _ => true | _ => false end.

Definition fail_r2_deletes : Io -> bool :=
  fun io => match io with R2Delete _ => true | _ => false end.

Definition fail_inserts : Io -> bool :=
  fun io => match io with DbQuery (InsertProject _) => true | _ => false end.

Definition fail_inserts_and_r2_deletes : Io -> bool :=
  fun io => match io with
            | DbQuery (InsertProject _) | R2Delete _ => true
            | _ => false
            end.

Definition fail_cover_updates : Io -> bool :=
  fun io => match io with DbQuery (UpdateProjectCover _) => true | _ => false end.

(** ** Replace cover *)

(** The guard of the removal of the previous cover object. *)
Definition previous_key_due (previousKey newKey : option string) : bool :=
  Js.truthy_opt previousKey && Js.truthy_opt newKey
  && negb (String.eqb (default "" previousKey) (default "" newKey)).

(** The guard of the removal of the previous cover file. *)
Definition previous_file_due (previousUrl : option string) (newUrl : string) : bool :=
  Js.truthy_opt previousUrl
  && Js.startsWith (default "" previousUrl) "/uploads/covers/"
  && negb (String.eqb (default "" previousUrl) newUrl).

Definition previous_key_trace (cfg : Config) (env : Env)
  (previousKey newKey : option string) : list Event :=
  if previous_key_due previousKey newKey then
    r2_cleanup_trace cfg env (default "" previousKey) "Failed to delete previous R2 cover:"
  else [].

Definition previous_key_bucket (cfg : Config) (env : Env)
  (previousKey newKey : option string) (keys : gset string) : gset string :=
  if previous_key_due previousKey newKey then
    r2_cleanup_bucket cfg env (default "" previousKey) keys
  else keys.

Definition previous_file_trace (cfg : Config) (env : Env)
  (previousUrl : option string) (newUrl : string) (files : gset string) : list Event :=
  if previous_file_due previousUrl newUrl then
    unlink_cleanup_trace cfg env (default "" previousUrl) files
  else [].

Definition previous_file_disk (cfg : Config) (env : Env)
  (previousUrl : option string) (newUrl : string) (files : gset string) : gset string :=
  if previous_file_due previousUrl newUrl then
    unlink_cleanup_disk cfg env (default "" previousUrl) files
  else files.

Definition is_cover_update (id : string) (ok : bool) (e : Event) : bool :=
  match e with
  | EvIo (DbQuery (UpdateProjectCover id')) ok' => String.eqb id' id && Bool.eqb ok' ok
  | _ => false
  end.

(** The pointer fields of the stored cover. *)
Definition stored_url (coverSourceUrl : string) (storedCover : option StoredCover) : string :=
  match storedCover with Some c => url c | None => coverSourceUrl end.

Definition stored_key (storedCover : option StoredCover) : option string :=
  match storedCover with Some c => objectKey c | None => None end.

(** An event that neither removes stored bytes nor is the [UPDATE] of
    the cover pointer of project [id]. *)
Definition quiet (id : string) (e : Event) : Prop :=
  is_removal e = false /\ forall ok, is_cover_update id ok e = false.

(** ** Histories *)

(** What a step of a history has to satisfy for the invariant [I] and
    the event predicate [P] to hold along it: the token it may send is
    acceptable, the session it may insert keeps [I], and the token it
    may delete is [allowed]. *)
Definition step_ok `{Platform} (I : Db -> Prop) (P : Event -> Prop)
  (allowed : string -> Prop) (cfg : Config) (step : Env * Call * Incoming) : Prop :=
  let '(env, c, req) := step in
  (forall u, P (EvSend 200 (JsonAuth (generateSessionToken env) u))) /\
  (forall d uid u d',
      I d ->
      Sql.insert_session (hashSessionToken (generateSessionToken env)) uid
        (now env + session_ttl_ms cfg)%Z (now env) d = Ok (u, d') ->
      I d') /\
  (c = CLogout -> forall tok, getAuthTokenFromRequest req = Some tok -> allowed tok).

(** Every stored [token_hash] is the digest of some token. *)
Definition digests `{Platform} (d : Db) : Prop :=
  Forall (fun s => exists t, token_hash s = hashSessionToken t) (sessions d).

(** A token sent to a client has the length of a raw token. *)
Definition token_sized (e : Event) : Prop :=
  forall status token u, e = EvSend status (JsonAuth token u) ->
                         String.length token = 43%nat.

(* ===================================================================== *)
(** * 17. Further vocabulary                                              *)
(* ===================================================================== *)

(** ** Strings *)

(** The last character of a string. *)
Fixpoint last_char (s : string) : option ascii :=
  match s with
  | EmptyString => None
  | String c EmptyString => Some c
  | String _ s' => last_char s'
  end.

(** [n] separators in a row. *)
Fixpoint slashes (n : nat) : string :=
  match n with
  | O => EmptyString
  | S n' => String "/" (slashes n')
  end.


(** ** Routes *)

(** The routes mounted behind [requireAuth]. *)
Definition requires_auth (c : Call) : bool :=
  match c with
  | CRegister | CLogin => false
  | _ => true
  end.

(** The routes that call [requireProjectWriteAccess]. *)
Definition writes_project (c : Call) : bool :=
  match c with
  | CRenameProject | CDeleteProject | CGenerateCover => true
  | _ => false
  end.

(** The session lookup a request with a readable token starts with. *)
Definition auth_lookup `{Platform} (req : Incoming) : list Event :=
  match getAuthTokenFromRequest req with
  | Some token => [EvIo (DbQuery (SelectSessionUser (hashSessionToken token))) true]
  | None => []
  end.

(** An environment that fails only the [INSERT] of a session. *)
Definition fail_session_inserts : Io -> bool :=
  fun io => match io with DbQuery (InsertSession _ _) => true | _ => false end.

(** ** Start-up *)

(** [DELETE FROM sessions WHERE expires_at <= NOW()], the statement
    [initDb] ends with. *)
Definition delete_expired_sessions (t : Z) (d : Db) : Db :=
  set_sessions d
    (List.filter (fun s => negb (expires_at s <=? t)%Z) (sessions d))
    (sessions_seq d).

(** ** Storage requests *)

(** A request to the remote bucket. *)
Definition is_bucket_request (e : Event) : bool :=
  match e with
  | EvIo (R2Put _) _ | EvIo (R2Delete _) _ => true
  | _ => false
  end.


(** A request that removes a local file. *)
Definition is_file_unlink (e : Event) : bool :=
  match e with
  | EvIo (FsUnlink _) _ => true
  | _ => false
  end.

(** ** Names of stored files *)

(** [path.basename(p)]: the last component of [p] that is not empty. *)
Definition basename (p : string) : string :=
  List.last (List.filter Js.truthy (Js.split "/" p)) "".

(** The [filename] callback of the disk storage of uploads:
    [`${Date.now()}-${path.basename(file.originalname)}`]; the file is
    written to [path.join(uploadsDir, filename)]. *)
Definition storage_filename (env : Env) (originalname : string) : string :=
  Js.of_Z (now env) +:+ "-" +:+ basename originalname.

Definition storage_path (cfg : Config) (env : Env) (originalname : string) : string :=
  Path.join (uploadsDir cfg) (storage_filename env originalname).

(** ** Frames and answers *)

(** A computation relates the world it starts in to the world it ends
    in by [R] and only emits events that satisfy [P]. *)
Definition frames (R : World -> World -> Prop) (P : Event -> Prop) {A} (m : M A) : Prop :=
  forall w, R w (world_of (m w)) /\ Forall P (trace_of (m w)).

(** What the rules for [frames] ask of [R] and [P]: [R] is a
    preorder that every update of the database related by [Rq]
    respects, and [P] holds of every event that is not a request to
    the bucket or the disk. *)
Class FrameLaws (R : World -> World -> Prop) (Rq : Db -> Db -> Prop)
  (P : Event -> Prop) : Prop := {
  frame_refl : forall w, R w w;
  frame_trans : forall a b c, R a b -> R b c -> R a c;
  frame_db : forall w d, Rq (db w) d -> R w (set_db w d);
  frame_log : forall m, P (EvLog m);
  frame_send : forall s b, P (EvSend s b);
  frame_exists : forall p, P (EvExists p);
  frame_query : forall q ok, P (EvIo (DbQuery q) ok);
}.

(** The number of responses a computation sends: [ok] when it returns,
    [thrown] when it throws; [None] says that the outcome does not
    occur. *)
Definition sends (ok thrown : option nat) {A} (m : M A) : Prop :=
  forall w, match outcome (m w) with
            | Ok _ => ok = Some (count_events is_send (trace_of (m w)))
            | Throw _ => thrown = Some (count_events is_send (trace_of (m w)))
            end.

(* ===================================================================== *)
(** * 18. Properties                                                      *)
(* ===================================================================== *)

Open Scope Z_scope.

(** * Strings and paths *)

Lemma app_cons c s t : String c s +:+ t = String c (s +:+ t).
Proof. reflexivity. Qed.
Lemma app_nil_l t : "" +:+ t = t.
Proof. reflexivity. Qed.

Lemma split_nonempty sep s : Js.split sep s <> [].
Proof.
  destruct s as [|c s]; simpl; [discriminate|].
  destruct (Ascii.eqb c sep); [discriminate|].
  destruct (Js.split sep s); discriminate.
Qed.

Lemma split_no_sep sep s : Forall (fun x => has_char sep x = false) (Js.split sep s).
Proof.
  induction s as [|c s IH]; simpl.
  - repeat constructor.
  - destruct (Ascii.eqb c sep) eqn:E.
    + constructor; [reflexivity | exact IH].
    + destruct (Js.split sep s) as [|x xs].
      * repeat constructor. simpl. now rewrite E.
      * inversion IH; subst. constructor; [|assumption].
        simpl. now rewrite E.
Qed.

Lemma split_app sep a b :
  Js.split sep (a +:+ String sep b) = Js.split sep a ++ Js.split sep b.
Proof.
  induction a as [|c a IH].
  - rewrite app_nil_l. simpl. now rewrite Ascii.eqb_refl.
  - rewrite app_cons. simpl. destruct (Ascii.eqb c sep); [now rewrite IH|].
    rewrite IH. pose proof (split_nonempty sep a) as Hne.
    destruct (Js.split sep a); [contradiction|reflexivity].
Qed.

Lemma split_no_char sep s : has_char sep s = false -> Js.split sep s = [s].
Proof.
  induction s as [|c s IH]; simpl; [reflexivity|].
  intros H. apply orb_false_iff in H as [H1 H2].
  rewrite H1, (IH H2). reflexivity.
Qed.

Lemma split_join segs :
  segs <> [] -> Forall (fun x => has_char "/" x = false) segs ->
  Js.split "/" (Js.join "/" segs) = segs.
Proof.
  induction segs as [|x xs IH]; [contradiction|].
  intros _ H. inversion H; subst.
  destruct xs as [|y ys].
  - simpl. now apply split_no_char.
  - change (Js.join "/" (x :: y :: ys)) with (x +:+ String "/" (Js.join "/" (y :: ys))).
    rewrite split_app, split_no_char by assumption.
    rewrite IH; [reflexivity|discriminate|assumption].
Qed.

Lemma fold_norm_proper segs stack :
  Forall (fun x => has_char "/" x = false) segs ->
  Forall proper_segment stack ->
  Forall proper_segment (fold_left Path.norm_step segs stack).
Proof.
  revert stack. induction segs as [|s segs IH]; intros stack Hs Hst; simpl; [assumption|].
  inversion Hs; subst. apply IH; [assumption|].
  unfold Path.norm_step.
  destruct (String.eqb s "") eqn:E1; [assumption|].
  destruct (String.eqb s ".") eqn:E2; [assumption|].
  destruct (String.eqb s "..") eqn:E3.
  - destruct stack; [constructor|]. simpl. now inversion Hst.
  - constructor; [|assumption].
    apply String.eqb_neq in E1, E2, E3. repeat split; assumption.
Qed.

Lemma segments_proper p : Forall proper_segment (Path.segments p).
Proof.
  unfold Path.segments, Path.normalize_segments.
  apply Forall_rev. apply fold_norm_proper; [apply split_no_sep|constructor].
Qed.

Lemma fold_norm_id segs stack :
  Forall proper_segment segs ->
  fold_left Path.norm_step segs stack = rev segs ++ stack.
Proof.
  revert stack. induction segs as [|s segs IH]; intros stack H; simpl; [reflexivity|].
  inversion H as [|? ? (N1 & N2 & N3 & _) Hr]; subst.
  rewrite IH by assumption. unfold Path.norm_step.
  apply String.eqb_neq in N1, N2, N3. rewrite N1, N2, N3.
  now rewrite <- app_assoc.
Qed.

Lemma proper_no_slash segs :
  Forall proper_segment segs -> Forall (fun x => has_char "/" x = false) segs.
Proof. intros H. eapply Forall_impl; [exact H|]. intros ? (_ & _ & _ & H'). exact H'. Qed.

(** Normalising a canonical absolute path (with or without a trailing
    separator) gives its segments back. *)
Lemma segments_of_segments segs :
  Forall proper_segment segs ->
  Path.segments (Path.of_segments segs) = segs /\
  Path.segments (Path.of_segments segs +:+ "/") = segs.
Proof.
  intros H. unfold Path.segments, Path.of_segments, Path.normalize_segments.
  destruct segs as [|x xs].
  - split; reflexivity.
  - assert (Hs : Js.split "/" (Js.join "/" (x :: xs)) = x :: xs)
      by (apply split_join; [discriminate | now apply proper_no_slash]).
    split.
    + change ("/" +:+ Js.join "/" (x :: xs)) with ("" +:+ String "/" (Js.join "/" (x :: xs))).
      rewrite split_app, Hs. simpl Js.split. simpl app.
      change (fold_left Path.norm_step ("" :: x :: xs) []) with (fold_left Path.norm_step (x :: xs) []).
      rewrite (fold_norm_id (x :: xs) []) by assumption. rewrite app_nil_r. apply rev_involutive.
    + change (("/" +:+ Js.join "/" (x :: xs)) +:+ "/") with ("" +:+ String "/" (Js.join "/" (x :: xs) +:+ String "/" "")).
      rewrite split_app, split_app, Hs. simpl Js.split.
      change (fold_left Path.norm_step ([""] ++ (x :: xs) ++ [""]) []) with (fold_left Path.norm_step ((x :: xs) ++ [""]) []).
      rewrite fold_left_app, (fold_norm_id (x :: xs) []) by assumption.
      change (fold_left Path.norm_step [""] (rev (x :: xs) ++ [])) with (rev (x :: xs) ++ []).
      rewrite app_nil_r. apply rev_involutive.
Qed.

Lemma prefix_cons a s b t :
  String.prefix (String a s) (String b t) = true <-> a = b /\ String.prefix s t = true.
Proof.
  change (String.prefix (String a s) (String b t))
    with (if ascii_dec a b then String.prefix s t else false).
  destruct (ascii_dec a b); split; [tauto| tauto | discriminate | tauto].
Qed.

Lemma prefix_nil_r a s : String.prefix (String a s) "" = false.
Proof. reflexivity. Qed.

Lemma has_char_head c s : has_char c (String c s) = true.
Proof. simpl. now rewrite Ascii.eqb_refl. Qed.

(** String prefix against a separator boundary is segment prefix. *)
Lemma prefix_segment s t X Y :
  has_char "/" s = false -> has_char "/" t = false ->
  (Y = "" \/ exists Y', Y = String "/" Y') ->
  String.prefix (s +:+ String "/" X) (t +:+ Y) = true ->
  s = t /\ String.prefix (String "/" X) Y = true.
Proof.
  revert t. induction s as [|c s IH]; intros t Hs Ht HY Hp.
  - change ("" +:+ String "/" X) with (String "/" X) in Hp. destruct t as [|d t].
    + split; [reflexivity|exact Hp].
    + change (String d t +:+ Y) with (String d (t +:+ Y)) in Hp.
      apply prefix_cons in Hp as [<- _]. now rewrite has_char_head in Ht.
  - change (String c s +:+ String "/" X) with (String c (s +:+ String "/" X)) in Hp.
    simpl in Hs. apply orb_false_iff in Hs as [Hc Hs].
    destruct t as [|d t].
    + change ("" +:+ Y) with Y in Hp. destruct HY as [->|[Y' ->]]; [discriminate|].
      apply prefix_cons in Hp as [-> _]. now rewrite Ascii.eqb_refl in Hc.
    + change (String d t +:+ Y) with (String d (t +:+ Y)) in Hp.
      simpl in Ht. apply orb_false_iff in Ht as [_ Ht].
      apply prefix_cons in Hp as [<- Hp].
      destruct (IH t Hs Ht HY Hp) as [-> ?]. split; [reflexivity|assumption].
Qed.

Lemma of_segments_abs segs : segs <> [] -> Path.of_segments segs = abs_path segs.
Proof.
  unfold Path.of_segments. induction segs as [|x xs IH]; [contradiction|]. intros _.
  destruct xs as [|y ys].
  - simpl. change ("/" +:+ x) with (String "/" x). f_equal.
    clear. induction x; [reflexivity|]. rewrite app_cons. now f_equal.
  - change (Js.join "/" (x :: y :: ys)) with (x +:+ ("/" +:+ Js.join "/" (y :: ys))).
    rewrite IH by discriminate. reflexivity.
Qed.

Lemma abs_tail_shape xs : abs_path xs = "" \/ exists Y', abs_path xs = String "/" Y'.
Proof. destruct xs; [now left|right; eexists; reflexivity]. Qed.

Lemma app_assoc_s (a b c : string) : (a +:+ b) +:+ c = a +:+ (b +:+ c).
Proof. induction a; [reflexivity|]. rewrite !app_cons. now f_equal. Qed.

Lemma abs_prefix a b :
  Forall (fun x => has_char "/" x = false) a ->
  Forall (fun x => has_char "/" x = false) b ->
  String.prefix (abs_path a +:+ "/") (abs_path b) = true ->
  exists rest, rest <> [] /\ b = a ++ rest.
Proof.
  revert b. induction a as [|x a IH]; intros b Ha Hb Hp.
  - destruct b; [discriminate|]. eexists; split; [|reflexivity]. discriminate.
  - destruct b as [|y b]; [discriminate|].
    inversion Ha; inversion Hb; subst.
    change (abs_path (x :: a) +:+ "/") with (String "/" ((x +:+ abs_path a) +:+ "/")) in Hp.
    change (abs_path (y :: b)) with (String "/" (y +:+ abs_path b)) in Hp.
    apply prefix_cons in Hp as [_ Hp].
    rewrite app_assoc_s in Hp.
    assert (Hp' : exists X, abs_path a +:+ "/" = String "/" X)
      by (destruct a; eexists; reflexivity).
    destruct Hp' as [X HX]. rewrite HX in Hp.
    apply prefix_segment in Hp as [-> Hp]; [|assumption|assumption|apply abs_tail_shape].
    rewrite <- HX in Hp.
    destruct (IH b) as (rest & Hne & ->); [assumption|assumption|exact Hp|].
    exists rest. split; [assumption|reflexivity].
Qed.

Lemma prefix_app s t : String.prefix s (s +:+ t) = true.
Proof.
  induction s as [|c s IH]; [now destruct t|].
  rewrite app_cons. simpl. destruct (ascii_dec c c); [assumption|congruence].
Qed.

Lemma abs_app a b : abs_path (a ++ b) = abs_path a +:+ abs_path b.
Proof.
  induction a as [|x a IH]; [reflexivity|].
  simpl. rewrite IH, app_cons. f_equal. now rewrite app_assoc_s.
Qed.

Lemma abs_prefix_conv a rest :
  rest <> [] -> String.prefix (abs_path a +:+ "/") (abs_path (a ++ rest)) = true.
Proof.
  intros Hne. destruct rest as [|r rest]; [contradiction|].
  rewrite abs_app. simpl abs_path at 3.
  change (String "/" (r +:+ abs_path rest)) with ("/" +:+ (r +:+ abs_path rest)).
  rewrite <- app_assoc_s. apply prefix_app.
Qed.

Lemma uploads_segments_last cfg :
  exists front, uploads_segments cfg = front ++ ["uploads"].
Proof.
  unfold uploads_segments, Path.segments, Path.normalize_segments.
  change (dirname cfg +:+ "/" +:+ "uploads") with (dirname cfg +:+ String "/" "uploads").
  rewrite split_app, fold_left_app.
  change (Js.split "/" "uploads") with ["uploads"].
  set (st := fold_left Path.norm_step (Js.split "/" (dirname cfg)) []).
  exists (rev st). reflexivity.
Qed.

Lemma uploads_segments_nonempty cfg : uploads_segments cfg <> [].
Proof. destruct (uploads_segments_last cfg) as [f ->]. now destruct f. Qed.

Lemma uploadsDir_abs cfg : uploadsDir cfg = abs_path (uploads_segments cfg).
Proof. apply of_segments_abs, uploads_segments_nonempty. Qed.

Lemma uploadsRoot_eq cfg :
  Path.resolve1 (uploadsDir cfg) = uploadsDir cfg.
Proof.
  unfold Path.resolve1, uploadsDir, Path.join.
  now rewrite (proj2 (segments_of_segments _ (segments_proper _))).
Qed.

Lemma abs_not_prefix_root a :
  a <> [] -> Forall proper_segment a -> String.prefix (abs_path a +:+ "/") "/" = false.
Proof.
  destruct a as [|x a]; [contradiction|]. intros _ H.
  inversion H as [|? ? (Hx & _) _]; subst.
  destruct x as [|c x]; [contradiction|]. reflexivity.
Qed.

Lemma startsWith_root_inside cfg fsegs :
  Forall proper_segment fsegs ->
  Js.startsWith (Path.of_segments fsegs) (uploadsDir cfg +:+ "/") = true <->
  exists rest, rest <> [] /\ fsegs = uploads_segments cfg ++ rest.
Proof.
  intros Hf. unfold Js.startsWith. rewrite uploadsDir_abs.
  pose proof (uploads_segments_nonempty cfg) as Hne.
  pose proof (segments_proper (dirname cfg +:+ "/" +:+ "uploads")) as Hd.
  fold (uploads_segments cfg) in Hd.
  split.
  - intros Hp. destruct fsegs as [|f fs].
    + change (Path.of_segments []) with "/" in Hp.
      now rewrite abs_not_prefix_root in Hp.
    + rewrite of_segments_abs in Hp by discriminate.
      apply abs_prefix in Hp; try assumption; now apply proper_no_slash.
  - intros (rest & Hr & ->).
    rewrite of_segments_abs by (destruct (uploads_segments cfg); [contradiction|discriminate]).
    now apply abs_prefix_conv.
Qed.

(** C3. [resolveUploadsPath] is a function of the configuration and
    the URL alone: it reads, writes and deletes no file.  It throws
    "Invalid uploads URL" when the URL does not begin with [/uploads/],
    and "Invalid uploads path" when the canonical resolved path (where
    [.], [..] and empty segments are gone, so [../] and absolute-path
    escapes are resolved) is not strictly inside the uploads root;
    otherwise it returns that path.  A returned path is canonical, lies
    strictly below the root and starts with the root followed by the
    separator. *)
Theorem resolveUploadsPath_sandbox (cfg : Config) (url : string) :
  let target := Path.resolve (uploadsDir cfg) (Js.slice 9 url) in
  (Js.startsWith url "/uploads/" = false ->
     resolveUploadsPath cfg url = Throw (Error "Invalid uploads URL")) /\
  (Js.startsWith url "/uploads/" = true -> ~ inside_uploads cfg target ->
     resolveUploadsPath cfg url = Throw (Error "Invalid uploads path")) /\
  (Js.startsWith url "/uploads/" = true -> inside_uploads cfg target ->
     resolveUploadsPath cfg url = Ok target) /\
  (forall p, resolveUploadsPath cfg url = Ok p ->
     Js.startsWith url "/uploads/" = true /\ p = target /\
     inside_uploads cfg p /\
     Js.startsWith p (uploadsDir cfg +:+ "/") = true).
Proof.
  intros target. unfold resolveUploadsPath.
  change (String.length "/uploads/") with 9%nat. fold target.
  rewrite uploadsRoot_eq. change Path.sep with "/".
  assert (Ht : exists fsegs, Forall proper_segment fsegs /\ target = Path.of_segments fsegs).
  { unfold target, Path.resolve. eexists; split; [apply segments_proper|reflexivity]. }
  destruct Ht as (fsegs & Hf & Ht). clearbody target.
  pose proof (segments_proper (dirname cfg +:+ "/" +:+ "uploads")) as Hd.
  fold (uploads_segments cfg) in Hd.
  assert (Hin : Js.startsWith target (uploadsDir cfg +:+ "/") = true <->
                inside_uploads cfg target).
  { rewrite Ht, startsWith_root_inside by assumption. unfold inside_uploads. split.
    - intros (rest & Hr & ->). exists rest. split; [assumption|]. split; [|reflexivity].
      apply Forall_app in Hf. tauto.
    - intros (rest & Hr & Hp & He). exists rest. split; [assumption|].
      apply (f_equal Path.segments) in He.
      rewrite (proj1 (segments_of_segments fsegs Hf)) in He.
      rewrite (proj1 (segments_of_segments _ (proj2 (Forall_app _ _ _) (conj Hd Hp)))) in He.
      exact He. }
  repeat split.
  - intros ->. reflexivity.
  - intros -> Hout. simpl.
    destruct (Js.startsWith target _) eqn:E; [|reflexivity].
    exfalso. apply Hout, Hin. reflexivity.
  - intros -> Hi. apply Hin in Hi. now rewrite Hi.
  - destruct (Js.startsWith url "/uploads/"); [reflexivity|discriminate].
  - destruct (Js.startsWith url "/uploads/"); [|discriminate]. simpl in H.
    destruct (Js.startsWith target _); simpl in H; congruence.
  - destruct (Js.startsWith url "/uploads/"); [|discriminate]. simpl in H.
    destruct (Js.startsWith target _) eqn:E; simpl in H; [|discriminate].
    injection H as <-. now apply Hin.
  - destruct (Js.startsWith url "/uploads/"); [|discriminate]. simpl in H.
    destruct (Js.startsWith target _) eqn:E; simpl in H; [|discriminate].
    injection H as <-. exact E.
Qed.

Lemma resolveUploadsPath_sandbox_witness :
  resolveUploadsPath Demo.cfg_local "/etc/passwd" = Throw (Error "Invalid uploads URL") /\
  inside_uploads Demo.cfg_local "/srv/app/uploads/covers/a.png" /\
  Js.startsWith "/srv/app/uploads/covers/a.png" "/srv/app/uploads/" = true.
Proof.
  destruct (resolveUploadsPath_sandbox Demo.cfg_local "/etc/passwd") as (A & _).
  destruct (resolveUploadsPath_sandbox Demo.cfg_local "/uploads/covers/a.png")
    as (_ & _ & _ & D).
  split; [apply A; reflexivity|].
  assert (E : resolveUploadsPath Demo.cfg_local "/uploads/covers/a.png"
              = Ok "/srv/app/uploads/covers/a.png") by (vm_compute; reflexivity).
  destruct (D _ E) as (_ & _ & Hin & Hp). split; [exact Hin|exact Hp].
Defined.

(** * Buffers *)

Lemma b64_value_char url n : (n < 64)%N -> Buffer.b64_value (Buffer.b64_char url n) = Some n.
Proof.
  intros H.
  assert (Hall : forallb (fun k => match Buffer.b64_value (Buffer.b64_char url (N.of_nat k)) with
                                   | Some v => N.eqb v (N.of_nat k) | None => false end)
                         (seq 0 64) = true) by (destruct url; vm_compute; reflexivity).
  rewrite forallb_forall in Hall.
  specialize (Hall (N.to_nat n)). rewrite N2Nat.id in Hall.
  destruct (Buffer.b64_value _) as [v|].
  - f_equal. apply N.eqb_eq, Hall, in_seq. lia.
  - enough (false = true) by discriminate. apply Hall, in_seq. lia.
Qed.

Lemma b64_char_not_pad url n : (n < 64)%N -> Buffer.b64_char url n <> "="%char.
Proof.
  intros H E. pose proof (b64_value_char url n H) as Hv. rewrite E in Hv. discriminate.
Qed.

Lemma byte_of_to_N b : Buffer.byte_of (Byte.to_N b) = b.
Proof.
  unfold Buffer.byte_of. pose proof (Byte.to_N_bounded b).
  rewrite N.mod_small by lia. now rewrite Byte.of_to_N.
Qed.

Ltac n_arith := zify; Z.div_mod_to_equations; Z.quot_rem_to_equations; lia.

Lemma sextet_bounds a b c :
  (a <= 255 -> b <= 255 -> c <= 255 ->
   Buffer.s0 a < 64 /\ Buffer.s1 a b < 64 /\ Buffer.s2 b c < 64 /\ Buffer.s3 c < 64)%N.
Proof. unfold Buffer.s0, Buffer.s1, Buffer.s2, Buffer.s3. intros. repeat split; n_arith. Qed.

Lemma group_roundtrip a b c :
  (a <= 255 -> b <= 255 -> c <= 255 ->
   Buffer.s0 a * 4 + Buffer.s1 a b / 16 = a /\
   (Buffer.s1 a b mod 16) * 16 + Buffer.s2 b c / 4 = b /\
   (Buffer.s2 b c mod 4) * 64 + Buffer.s3 c = c)%N.
Proof. unfold Buffer.s0, Buffer.s1, Buffer.s2, Buffer.s3. intros. repeat split; n_arith. Qed.

Lemma sextets_cons url n rest :
  (n < 64)%N ->
  Buffer.sextets (String (Buffer.b64_char url n) rest) = n :: Buffer.sextets rest.
Proof.
  intros H. cbn [Buffer.sextets].
  rewrite (proj2 (Ascii.eqb_neq _ _) (b64_char_not_pad url n H)).
  now rewrite b64_value_char.
Qed.

Lemma list_ind3 {A} (P : list A -> Prop) :
  P [] -> (forall a, P [a]) -> (forall a b, P [a; b]) ->
  (forall a b c rest, P rest -> P (a :: b :: c :: rest)) ->
  forall l, P l.
Proof.
  intros H0 H1 H2 H3. fix IH 1. intros [|a [|b [|c rest]]].
  - exact H0.
  - apply H1.
  - apply H2.
  - apply H3, IH.
Qed.

Lemma sextets_encode url pad bs :
  Buffer.bytes_of_sextets (Buffer.sextets (Buffer.encode64 url pad bs)) = bs.
Proof.
  induction bs as [|a|a b|a b c rest IH] using list_ind3.
  - reflexivity.
  - pose proof (Byte.to_N_bounded a) as Ha.
    destruct (sextet_bounds (Byte.to_N a) 0 0) as (B0 & B1 & _); [lia..|].
    destruct (group_roundtrip (Byte.to_N a) 0 0) as (R0 & _); [lia..|].
    cbn [Buffer.encode64].
    rewrite !sextets_cons by assumption.
    replace (Buffer.sextets (if pad then "==" else "")) with (@nil N) by (now destruct pad).
    cbn [Buffer.bytes_of_sextets]. now rewrite R0, byte_of_to_N.
  - pose proof (Byte.to_N_bounded a) as Ha. pose proof (Byte.to_N_bounded b) as Hb.
    destruct (sextet_bounds (Byte.to_N a) (Byte.to_N b) 0) as (B0 & B1 & B2 & _); [lia..|].
    destruct (group_roundtrip (Byte.to_N a) (Byte.to_N b) 0) as (R0 & R1 & _); [lia..|].
    cbn [Buffer.encode64].
    rewrite !sextets_cons by assumption.
    replace (Buffer.sextets (if pad then "=" else "")) with (@nil N) by (now destruct pad).
    cbn [Buffer.bytes_of_sextets]. now rewrite R0, R1, !byte_of_to_N.
  - pose proof (Byte.to_N_bounded a) as Ha. pose proof (Byte.to_N_bounded b) as Hb.
    pose proof (Byte.to_N_bounded c) as Hc.
    destruct (sextet_bounds (Byte.to_N a) (Byte.to_N b) (Byte.to_N c)) as (B0 & B1 & B2 & B3); [lia..|].
    destruct (group_roundtrip (Byte.to_N a) (Byte.to_N b) (Byte.to_N c)) as (R0 & R1 & R2); [lia..|].
    cbn [Buffer.encode64].
    rewrite !sextets_cons by assumption.
    cbn [Buffer.bytes_of_sextets]. rewrite R0, R1, R2, !byte_of_to_N.
    do 3 f_equal. exact IH.
Qed.

Lemma fromBase64_toBase64 bs : Buffer.fromBase64 (Buffer.toBase64 bs) = bs.
Proof. apply sextets_encode. Qed.

(** * Credential engine *)

Lemma b64_char_other url n c :
  (n < 64)%N -> Buffer.b64_value c = None -> Ascii.eqb (Buffer.b64_char url n) c = false.
Proof.
  intros Hn Hc. apply Ascii.eqb_neq. intros E.
  pose proof (b64_value_char url n Hn) as Hv. rewrite E, Hc in Hv. discriminate.
Qed.

(** The text produced by the encoder only has alphabet characters and
    padding. *)
Lemma encode64_no_char url pad c bs :
  Buffer.b64_value c = None -> c <> "="%char ->
  has_char c (Buffer.encode64 url pad bs) = false.
Proof.
  intros Hc Hpad.
  assert (Hp : forall s, s = "==" \/ s = "=" \/ s = "" -> has_char c s = false).
  { assert (E : Ascii.eqb "=" c = false) by (apply Ascii.eqb_neq; congruence).
    intros s [-> | [-> | ->]]; cbn [has_char]; rewrite ?E; reflexivity. }
  induction bs as [|a|a b|a b d rest IH] using list_ind3.
  - reflexivity.
  - pose proof (Byte.to_N_bounded a).
    destruct (sextet_bounds (Byte.to_N a) 0 0) as (B0 & B1 & _); [lia..|].
    cbn [Buffer.encode64 has_char]. rewrite !b64_char_other by assumption.
    cbn [orb]. apply Hp. destruct pad; auto.
  - pose proof (Byte.to_N_bounded a). pose proof (Byte.to_N_bounded b).
    destruct (sextet_bounds (Byte.to_N a) (Byte.to_N b) 0) as (B0 & B1 & B2 & _); [lia..|].
    cbn [Buffer.encode64 has_char]. rewrite !b64_char_other by assumption.
    cbn [orb]. apply Hp. destruct pad; auto.
  - pose proof (Byte.to_N_bounded a). pose proof (Byte.to_N_bounded b).
    pose proof (Byte.to_N_bounded d).
    destruct (sextet_bounds (Byte.to_N a) (Byte.to_N b) (Byte.to_N d)) as (B0 & B1 & B2 & B3); [lia..|].
    cbn [Buffer.encode64 has_char]. rewrite !b64_char_other by assumption.
    cbn [orb]. exact IH.
Qed.

Lemma toBase64_no_dollar bs : has_char "$" (Buffer.toBase64 bs) = false.
Proof. apply encode64_no_char; [reflexivity|discriminate]. Qed.

Lemma split_record a b :
  has_char "$" a = false -> has_char "$" b = false ->
  Js.split "$" ("scrypt$" +:+ a +:+ "$" +:+ b) = ["scrypt"; a; b].
Proof.
  intros Ha Hb.
  change ("scrypt$" +:+ a +:+ "$" +:+ b) with ("scrypt" +:+ String "$" (a +:+ String "$" b)).
  rewrite !split_app, (split_no_char _ a Ha), (split_no_char _ b Hb). reflexivity.
Qed.

Lemma bytes_eqb_eq a b : bytes_eqb a b = true <-> a = b.
Proof.
  revert b. induction a as [|x a IH]; intros [|y b]; cbn; try (split; [discriminate|congruence]).
  - tauto.
  - rewrite andb_true_iff, IH. split.
    + intros [E ->]. apply Byte.byte_dec_bl in E. now subst.
    + intros E. injection E as -> ->. split; [now apply Byte.byte_dec_lb|reflexivity].
Qed.

Lemma bytes_eqb_refl a : bytes_eqb a a = true.
Proof. now apply bytes_eqb_eq. Qed.

Section Credentials.

Context `{PlatformLaws}.
Variable env : Env.

(** What [verifyPassword] does on a record written by [hashPassword]. *)
Lemma verify_hashed password other key :
  scrypt password (salt_bytes env) 64 = Ok key ->
  verifyPassword other
    ("scrypt$" +:+ Buffer.toBase64 (salt_bytes env) +:+ "$" +:+ Buffer.toBase64 key)
  = match scrypt other (salt_bytes env) 64 with
    | Ok actual => Ok (bytes_eqb key actual)
    | Throw e => Throw e
    end.
Proof.
  intros Hk. pose proof (scrypt_length _ _ _ _ Hk) as Hlen.
  unfold verifyPassword.
  rewrite split_record by apply toBase64_no_dollar.
  cbn [length Nat.eqb negb String.eqb].
  change (String.eqb "scrypt" "scrypt") with true. cbn [negb].
  rewrite !fromBase64_toBase64, Hlen.
  destruct (scrypt other (salt_bytes env) 64) as [actual|e] eqn:Ha; [|reflexivity].
  pose proof (scrypt_length _ _ _ _ Ha) as Hla.
  rewrite Hla, Nat.eqb_refl. cbn [negb].
  unfold timingSafeEqual. now rewrite Hlen, Hla, Nat.eqb_refl.
Qed.

(** C4. A password verifies against its own hash record; another
    password verifies against it exactly when the key derivation gives
    both the same key under the record's salt (a collision of the
    derivation function, the only event the "overwhelming probability"
    of the claim leaves out). *)
Theorem verify_hash_roundtrip (password record : string) :
  hashPassword env password = Ok record ->
  verifyPassword password record = Ok true /\
  (forall other,
      verifyPassword other record = Ok true <->
      scrypt other (salt_bytes env) 64 = scrypt password (salt_bytes env) 64) /\
  (forall other k1 k2,
      scrypt other (salt_bytes env) 64 = Ok k1 ->
      scrypt password (salt_bytes env) 64 = Ok k2 ->
      k1 <> k2 -> verifyPassword other record = Ok false).
Proof.
  unfold hashPassword.
  destruct (scrypt password (salt_bytes env) 64) as [key|e] eqn:Hk; [|discriminate].
  intros [= <-]. split; [|split].
  - rewrite (verify_hashed password password key Hk), Hk. now rewrite bytes_eqb_refl.
  - intros other. rewrite (verify_hashed password other key Hk). split.
    + destruct (scrypt other (salt_bytes env) 64) as [actual|e]; [|discriminate].
      intros [= E]. apply bytes_eqb_eq in E. now subst.
    + intros ->. now rewrite bytes_eqb_refl.
  - intros other k1 k2 Ho [= <-] Hne.
    rewrite (verify_hashed password other key Hk), Ho. f_equal.
    destruct (bytes_eqb key k1) eqn:E; [|reflexivity].
    apply bytes_eqb_eq in E. congruence.
Qed.

(** [hashPassword] returns a record whenever the derivation succeeds. *)
Lemma hashPassword_total password key :
  scrypt password (salt_bytes env) 64 = Ok key ->
  hashPassword env password
  = Ok ("scrypt$" +:+ Buffer.toBase64 (salt_bytes env) +:+ "$" +:+ Buffer.toBase64 key).
Proof. unfold hashPassword. now intros ->. Qed.

End Credentials.

#[export] Instance demo_laws : @PlatformLaws Demo.platform.
Proof.
  split.
  - intros p s n k [= <-]. unfold Demo.fit.
    rewrite length_firstn, length_app, repeat_length. lia.
  - intros s. cbn. unfold Demo.digest, Demo.fit.
    rewrite length_firstn, length_app, repeat_length. lia.
Qed.

Lemma verify_hash_roundtrip_witness :
  exists record,
    @hashPassword Demo.platform (Demo.env_at 0 Demo.no_fault) "secret1" = Ok record /\
    @verifyPassword Demo.platform "secret1" record = Ok true.
Proof.
  eexists. split; [reflexivity|].
  exact (proj1 (@verify_hash_roundtrip Demo.platform demo_laws
                  (Demo.env_at 0 Demo.no_fault) "secret1" _ eq_refl)).
Defined.

Section FailClosed.

Context `{Platform}.

(** C5 (amended). [verifyPassword] answers [false], without throwing,
    for a record that does not have exactly three [$]-separated
    segments or whose tag is not [scrypt]; base64 segments are decoded
    leniently and never raise; it has no handler of its own, so a
    rejected key derivation is thrown to the caller, and that is the
    only way it throws. *)
Theorem verifyPassword_outcomes (password storedHash : string) :
  (length (Js.split "$" storedHash) <> 3%nat ->
     verifyPassword password storedHash = Ok false) /\
  (forall algo saltB64 keyB64,
      Js.split "$" storedHash = [algo; saltB64; keyB64] -> algo <> "scrypt" ->
      verifyPassword password storedHash = Ok false) /\
  (forall saltB64 keyB64 e,
      Js.split "$" storedHash = ["scrypt"; saltB64; keyB64] ->
      scrypt password (Buffer.fromBase64 saltB64) (length (Buffer.fromBase64 keyB64))
        = Throw e ->
      verifyPassword password storedHash = Throw e) /\
  (forall saltB64 keyB64 actual,
      Js.split "$" storedHash = ["scrypt"; saltB64; keyB64] ->
      scrypt password (Buffer.fromBase64 saltB64) (length (Buffer.fromBase64 keyB64))
        = Ok actual ->
      verifyPassword password storedHash
      = Ok (bytes_eqb (Buffer.fromBase64 keyB64) actual)).
Proof.
  unfold verifyPassword. split; [|split; [|split]].
  - intros Hn. apply Nat.eqb_neq in Hn. now rewrite Hn.
  - intros algo s k -> Ha. cbn [length Nat.eqb negb].
    apply String.eqb_neq in Ha. now rewrite Ha.
  - intros s k e -> He. cbn [length Nat.eqb negb].
    change (String.eqb "scrypt" "scrypt") with true. cbn [negb]. now rewrite He.
  - intros s k actual -> Ha. cbn [length Nat.eqb negb].
    change (String.eqb "scrypt" "scrypt") with true. cbn [negb]. rewrite Ha.
    unfold timingSafeEqual.
    destruct (length (Buffer.fromBase64 k) =? length actual)%nat eqn:E; cbn [negb].
    + reflexivity.
    + f_equal. destruct (bytes_eqb _ _) eqn:B; [|reflexivity].
      apply bytes_eqb_eq in B. rewrite B, Nat.eqb_refl in E. discriminate.
Qed.

End FailClosed.

(** C5, as stated, fails: with a key derivation that rejects, the
    well-formed record below makes [verifyPassword] throw instead of
    returning [false]. *)
Lemma verifyPassword_derivation_error_escapes :
  @scrypt Demo.failing "secret1" (Buffer.fromBase64 "c2FsdA==")
     (length (Buffer.fromBase64 "a2V5a2V5")) = Throw KdfError /\
  @verifyPassword Demo.failing "secret1" "scrypt$c2FsdA==$a2V5a2V5" = Throw KdfError /\
  @verifyPassword Demo.failing "secret1" "scrypt$c2FsdA==$a2V5a2V5" <> Ok false.
Proof. repeat split. discriminate. Qed.

Lemma verifyPassword_outcomes_witness :
  @verifyPassword Demo.platform "secret1" "scrypt$c2FsdA==" = Ok false /\
  @verifyPassword Demo.platform "secret1" "bcrypt$c2FsdA==$a2V5a2V5" = Ok false /\
  @verifyPassword Demo.failing "secret1" "scrypt$c2FsdA==$a2V5a2V5" = Throw KdfError /\
  @verifyPassword Demo.platform "secret1" "scrypt$c2FsdA==$a2V5a2V5" = Ok false.
Proof.
  pose proof (@verifyPassword_outcomes Demo.platform "secret1" "scrypt$c2FsdA==") as (A & _).
  pose proof (@verifyPassword_outcomes Demo.platform "secret1" "bcrypt$c2FsdA==$a2V5a2V5")
    as (_ & B & _).
  pose proof (@verifyPassword_outcomes Demo.failing "secret1" "scrypt$c2FsdA==$a2V5a2V5")
    as (_ & _ & C & _).
  pose proof (@verifyPassword_outcomes Demo.platform "secret1" "scrypt$c2FsdA==$a2V5a2V5")
    as (_ & _ & _ & D).
  split; [apply A; cbn; lia|].
  split; [apply (B _ _ _ eq_refl); discriminate|].
  split; [apply (C _ _ _ eq_refl); reflexivity|].
  exact (D _ _ _ eq_refl eq_refl).
Defined.

(** A record whose key segment decodes to no bytes is accepted for every
    password: the derived key of length zero equals the empty expected
    key. *)
Remark verifyPassword_empty_key `{PlatformLaws} (password saltB64 : string) key :
  has_char "$" saltB64 = false ->
  scrypt password (Buffer.fromBase64 saltB64) 0 = Ok key ->
  verifyPassword password ("scrypt$" +:+ saltB64 +:+ "$") = Ok true.
Proof.
  intros Hs Hk. pose proof (scrypt_length _ _ _ _ Hk) as Hl.
  destruct key; [|discriminate].
  unfold verifyPassword.
  change ("scrypt$" +:+ saltB64 +:+ "$") with ("scrypt$" +:+ saltB64 +:+ "$" +:+ "").
  rewrite (split_record saltB64 "" Hs eq_refl). cbn [length Nat.eqb negb].
  rewrite String.eqb_refl. cbn [negb].
  change (Buffer.fromBase64 "") with (@nil Byte.byte). cbn [length].
  rewrite Hk. reflexivity.
Qed.

(** * Reasoning about runs *)

(** Case analysis on the next decision of a run. *)
Ltac break_match :=
  match goal with
  | |- context [match ?x with _ => _ end] =>
      lazymatch x with
      | context [match _ with _ => _ end] => fail
      | _ => destruct x eqn:?
      end
  | H : context [match ?x with _ => _ end] |- _ =>
      lazymatch x with
      | context [match _ with _ => _ end] => fail
      | _ => destruct x eqn:?
      end
  end.

(** Membership in a trace that has been computed. *)
Ltac in_trace H :=
  cbn in H; repeat (destruct H as [H|H]; [try discriminate H|]); try contradiction.

Ltac unfold_monad :=
  unfold query, with_id, attempt, try_catch, try_finally, bind, ret, lift, send,
    emit, console_error, throw, get_world, world_of, trace_of, outcome in *.

Lemma bind_run {A B} (m : M A) (f : A -> M B) w :
  bind m f w
  = match m w with
    | (Ok a, w1, t1) => match f a w1 with (r, w2, t2) => (r, w2, t1 ++ t2) end
    | (Throw e, w1, t1) => (Throw e, w1, t1)
    end.
Proof. reflexivity. Qed.

Lemma ret_run {A} (a : A) w : ret a w = (Ok a, w, []).
Proof. reflexivity. Qed.

Lemma set_db_id w : set_db w (db w) = w.
Proof. now destruct w. Qed.

Section Sound.

Context `{Platform}.
Variables (I : Db -> Prop) (P : Event -> Prop).
Hypothesis P_other : forall e, is_send e = false -> P e.

Lemma sound_ret {A} (a : A) : sound I P (ret a).
Proof. intros w Hw. split; [exact Hw|constructor]. Qed.

Lemma sound_throw {A} e : sound I P (@throw A e).
Proof. intros w Hw. split; [exact Hw|constructor]. Qed.

Lemma sound_lift {A} (r : result A) : sound I P (lift r).
Proof. intros w Hw. split; [exact Hw|constructor]. Qed.

Lemma sound_emit e : P e -> sound I P (emit e).
Proof. intros He w Hw. split; [exact Hw|repeat constructor; exact He]. Qed.

Lemma sound_log m : sound I P (console_error m).
Proof. apply sound_emit, P_other. reflexivity. Qed.

Lemma sound_send s b : P (EvSend s b) -> sound I P (send s b).
Proof. apply sound_emit. Qed.

Lemma sound_bind {A B} (m : M A) (f : A -> M B) :
  sound I P m -> (forall a, sound I P (f a)) -> sound I P (bind m f).
Proof.
  intros Hm Hf w Hw. specialize (Hm w Hw). unfold bind, world_of, trace_of in *.
  destruct (m w) as [[[a|e] w1] t1]; cbn in *; [|exact Hm].
  destruct Hm as [H1 T1]. specialize (Hf a w1 H1). unfold world_of, trace_of in Hf.
  destruct (f a w1) as [[r w2] t2]; cbn in *. destruct Hf as [H2 T2].
  split; [exact H2|]. apply Forall_app; split; assumption.
Qed.

Lemma sound_try_catch {A} (m : M A) (h : error -> M A) :
  sound I P m -> (forall e, sound I P (h e)) -> sound I P (try_catch m h).
Proof.
  intros Hm Hh w Hw. specialize (Hm w Hw). unfold try_catch, world_of, trace_of in *.
  destruct (m w) as [[[a|e] w1] t1]; cbn in *; [exact Hm|].
  destruct Hm as [H1 T1]. specialize (Hh e w1 H1). unfold world_of, trace_of in Hh.
  destruct (h e w1) as [[r w2] t2]; cbn in *. destruct Hh as [H2 T2].
  split; [exact H2|]. apply Forall_app; split; assumption.
Qed.

Lemma sound_try_finally {A} (m : M A) (f : M unit) :
  sound I P m -> sound I P f -> sound I P (try_finally m f).
Proof.
  intros Hm Hf w Hw. specialize (Hm w Hw). unfold try_finally, world_of, trace_of in *.
  destruct (m w) as [[r w1] t1]; cbn in *.
  destruct Hm as [H1 T1]. specialize (Hf w1 H1). unfold world_of, trace_of in Hf.
  destruct (f w1) as [[[u|e] w2] t2]; cbn in *; destruct Hf as [H2 T2];
    (split; [exact H2|apply Forall_app; split; assumption]).
Qed.

Lemma sound_attempt {A} (m : M A) : sound I P m -> sound I P (attempt m).
Proof.
  intros Hm w Hw. specialize (Hm w Hw). unfold attempt, world_of, trace_of in *.
  destruct (m w) as [[r w1] t1]; cbn in *. exact Hm.
Qed.

Variable env : Env.

Lemma sound_query {A} q (run : Db -> result (A * Db)) :
  (forall d a d', I d -> run d = Ok (a, d') -> I d') -> sound I P (query env q run).
Proof.
  intros Hrun w Hw. unfold query, world_of, trace_of.
  destruct (fails env (DbQuery q)); cbn.
  - split; [exact Hw|]. repeat constructor. now apply P_other.
  - destruct (run (db w)) as [[a d]|e] eqn:E; cbn.
    + split; [eapply Hrun; eassumption|]. repeat constructor. now apply P_other.
    + split; [exact Hw|]. repeat constructor. now apply P_other.
Qed.

Lemma sound_read {A} q (f : Db -> A) :
  sound I P (query env q (fun d => Ok (f d, d))).
Proof. apply sound_query. intros d a d' Hd [= _ <-]. exact Hd. Qed.

Lemma sound_read_id {A} q id (f : Z -> Db -> A) :
  sound I P (query env q (with_id id (fun i d => Ok (f i d, d)))).
Proof.
  apply sound_query. intros d a d' Hd. unfold with_id.
  destruct (int4_in id); [|discriminate]. intros [= _ <-]. exact Hd.
Qed.

Variable cfg : Config.

Lemma sound_putObjectToR2 k : sound I P (putObjectToR2 cfg env k).
Proof.
  unfold putObjectToR2. destruct (R2_ENABLED cfg); cbn; [|apply sound_throw].
  intros w Hw. unfold world_of, trace_of. destruct (fails env (R2Put k)); cbn;
    (split; [exact Hw|repeat constructor; now apply P_other]).
Qed.

Lemma sound_deleteObjectFromR2 k : sound I P (deleteObjectFromR2 cfg env k).
Proof.
  unfold deleteObjectFromR2. destruct (R2_ENABLED cfg); cbn; [|apply sound_ret].
  intros w Hw. unfold world_of, trace_of. destruct (fails env (R2Delete k)); cbn;
    (split; [exact Hw|repeat constructor; now apply P_other]).
Qed.

Lemma sound_existsSync p : sound I P (existsSync p).
Proof.
  intros w Hw. split; [exact Hw|]. repeat constructor. now apply P_other.
Qed.

Lemma sound_unlinkSync p : sound I P (unlinkSync env p).
Proof.
  intros w Hw. unfold unlinkSync, world_of, trace_of.
  destruct (fails env (FsUnlink p) || negb (bool_decide (p ∈ disk w))); cbn;
    (split; [exact Hw|repeat constructor; now apply P_other]).
Qed.

Lemma sound_writeFileSync p : sound I P (writeFileSync env p).
Proof.
  intros w Hw. unfold writeFileSync, world_of, trace_of.
  destruct (fails env (FsWrite p)); cbn;
    (split; [exact Hw|repeat constructor; now apply P_other]).
Qed.

End Sound.

(** One rule of the calculus, chosen by the shape of the computation. *)
Ltac sound_step :=
  lazymatch goal with
  | |- sound _ _ (bind _ _) => apply sound_bind; [|intros ?]
  | |- sound _ _ (try_catch _ _) => apply sound_try_catch; [|intros ?]
  | |- sound _ _ (try_finally _ _) => apply sound_try_finally
  | |- sound _ _ (attempt _) => apply sound_attempt
  | |- sound _ _ (ret _) => apply sound_ret
  | |- sound _ _ (throw _) => apply sound_throw
  | |- sound _ _ (lift _) => apply sound_lift
  | |- sound _ _ (console_error _) => apply sound_log; assumption
  | |- sound _ _ (putObjectToR2 _ _ _) => apply sound_putObjectToR2; assumption
  | |- sound _ _ (deleteObjectFromR2 _ _ _) => apply sound_deleteObjectFromR2; assumption
  | |- sound _ _ (existsSync _) => apply sound_existsSync; assumption
  | |- sound _ _ (unlinkSync _ _) => apply sound_unlinkSync; assumption
  | |- sound _ _ (writeFileSync _ _) => apply sound_writeFileSync; assumption
  | |- sound _ _ (query _ _ (fun d => Ok (_, d))) => apply sound_read; assumption
  | |- sound _ _ (query _ _ (with_id _ (fun i d => Ok (_, d)))) =>
      apply sound_read_id; assumption
  | |- sound _ _ (match ?x with _ => _ end) => destruct x
  | |- sound _ _ (let _ := _ in _) => cbv zeta
  end.

(** * Invariants of the routes *)

Section HandlerSound.

Context `{Platform}.
Variables (I : Db -> Prop) (P : Event -> Prop) (allowed : string -> Prop).
Variables (cfg : Config) (env : Env).

Hypothesis P_other : forall e, is_send e = false -> P e.
Hypothesis P_plain : forall s b, (forall tok u, b <> JsonAuth tok u) -> P (EvSend s b).
Hypothesis P_auth : forall u, P (EvSend 200 (JsonAuth (generateSessionToken env) u)).
Hypothesis I_projects : forall d ps seq, I d -> I (set_projects d ps seq).
Hypothesis I_insert_user :
  forall d u h t r d', I d -> Sql.insert_user u h t d = Ok (r, d') -> I d'.
Hypothesis I_issue :
  forall d uid u d',
    I d ->
    Sql.insert_session (hashSessionToken (generateSessionToken env)) uid
      (now env + session_ttl_ms cfg) (now env) d = Ok (u, d') ->
    I d'.
Hypothesis I_delete_session :
  forall d tok, allowed tok -> I d -> I (Sql.delete_session (hashSessionToken tok) d).

Ltac plain := apply sound_send, P_plain; discriminate.
Ltac step := first [ sound_step | plain ].

Lemma sound_issue_session uid : sound I P (issue_session cfg env uid).
Proof.
  unfold issue_session. cbv zeta. step; [|step].
  apply sound_query; [assumption|]. intros ? [] ? Hd Hi. eapply I_issue; eassumption.
Qed.

(** The token sent to the client is the one whose hash was stored. *)
Lemma sound_issue_and_send uid usr :
  sound I P (token <- issue_session cfg env uid ;; send 200 (JsonAuth token usr)).
Proof.
  intros w Hw. pose proof (sound_issue_session uid w Hw) as Hs.
  unfold issue_session, bind, ret, send, emit, world_of, trace_of in *. cbv zeta in *.
  destruct (query env _ _ w) as [[[u|e] w1] t1]; cbn in *; [|exact Hs].
  destruct Hs as [H1 T1]. split; [exact H1|].
  rewrite app_nil_r in *. apply Forall_app; split; [exact T1|].
  repeat constructor. apply P_auth.
Qed.

Lemma sound_register req : sound I P (register cfg env req).
Proof.
  unfold register. cbv zeta.
  repeat first [ apply sound_issue_and_send | step ].
  apply sound_query; [assumption|]. intros ? ? ? Hd Hi. eapply I_insert_user; eassumption.
Qed.

Lemma sound_login req : sound I P (login cfg env req).
Proof.
  unfold login. cbv zeta. repeat first [ apply sound_issue_and_send | step ].
Qed.

Lemma sound_logout req :
  (forall tok, sessionToken req = Some tok -> allowed tok) ->
  sound I P (logout env req).
Proof.
  intros Hall. unfold logout. destruct (sessionToken req) as [tok|] eqn:E; repeat step.
  apply sound_query; [assumption|]. intros ? ? ? Hd [= _ <-].
  apply I_delete_session; [now apply Hall|exact Hd].
Qed.

Lemma sound_me req : sound I P (me req).
Proof. unfold me. plain. Qed.

Lemma sound_requireProjectWriteAccess id usr :
  sound I P (requireProjectWriteAccess env id usr).
Proof. unfold requireProjectWriteAccess. repeat step. Qed.

Lemma sound_getProjectWithOwner id : sound I P (getProjectWithOwner env id).
Proof.
  unfold getProjectWithOwner. step; [|step].
  apply sound_query; [assumption|]. intros ? ? ? Hd.
  destruct id; [|discriminate]. intros [= _ <-]. exact Hd.
Qed.

Lemma sound_the_user req : sound I P (the_user req).
Proof. unfold the_user. repeat step. Qed.

Lemma sound_createProject req : sound I P (createProject cfg env req).
Proof.
  unfold createProject, createProject_try, createProject_finally, createProject_upload,
    createProject_catch. cbv zeta.
  repeat first [ step | apply sound_the_user | apply sound_getProjectWithOwner ].
  all: try (apply sound_query; [assumption|]; intros ? ? ? Hd;
            unfold Sql.insert_project; repeat break_match; try discriminate;
            intros [= _ <-]; now apply I_projects).
Qed.

Lemma sound_renameProject req : sound I P (renameProject env req).
Proof.
  unfold renameProject. cbv zeta.
  repeat first [ step | apply sound_the_user | apply sound_getProjectWithOwner
               | apply sound_requireProjectWriteAccess ].
  apply sound_query; [assumption|]. intros ? ? ? Hd. unfold with_id, Sql.update_project_name.
  repeat break_match; try discriminate. intros [= _ <-]. now apply I_projects.
Qed.

Lemma sound_deleteProject req : sound I P (deleteProject cfg env req).
Proof.
  unfold deleteProject, deleteProjectAssets. cbv zeta.
  repeat first [ step | apply sound_the_user | apply sound_requireProjectWriteAccess ].
  apply sound_query; [assumption|]. intros ? ? ? Hd. unfold with_id.
  repeat break_match; try discriminate. intros [= _ <-]. now apply I_projects.
Qed.

Lemma sound_downloadCoverToStorage src id :
  sound I P (downloadCoverToStorage cfg env src id).
Proof. unfold downloadCoverToStorage. cbv zeta. repeat step. Qed.

Lemma sound_generateCover req : sound I P (generateCover cfg env req).
Proof.
  unfold generateCover, commitCover, removePreviousCover. cbv zeta.
  repeat first [ step | apply sound_the_user | apply sound_requireProjectWriteAccess
               | apply sound_getProjectWithOwner | apply sound_downloadCoverToStorage ].
  all: apply sound_query; [assumption|]; intros ? ? ? Hd; unfold with_id;
    repeat break_match; try discriminate; intros [= _ <-]; now apply I_projects.
Qed.

(** The request a route hands to its handler carries the presented
    token or none. *)
Lemma sound_route protected hnd req :
  (forall req', sessionToken req' = None \/
                sessionToken req' = getAuthTokenFromRequest req ->
                sound I P (hnd req')) ->
  sound I P (route env protected hnd req).
Proof.
  intros Hh w Hw.
  assert (Hsend : forall s m w0, I (db w0) ->
            I (db (world_of (send s (JsonError m None) w0))) /\
            Forall P (trace_of (send s (JsonError m None) w0))).
  { intros s m w0 H0. split; [exact H0|]. repeat constructor. apply P_plain. discriminate. }
  assert (Hio : forall io ok, P (EvIo io ok)) by (intros; now apply P_other).
  unfold route, authMiddleware.
  destruct (getAuthTokenFromRequest req) as [token|] eqn:E.
  - unfold attempt, bind, query, ret, world_of, trace_of in *.
    destruct (fails env _); cbn.
    + split; [exact Hw|]. repeat constructor; [apply Hio|apply P_plain; discriminate].
    + rewrite set_db_id. destruct (Sql.select_session_user _ _ _) as [|row rows]; cbn.
      * destruct protected; cbn.
        -- split; [exact Hw|]. repeat constructor; [apply Hio|apply P_plain; discriminate].
        -- match goal with |- context [hnd ?r] => specialize (Hh r (or_introl eq_refl) _ Hw) end.
           cbn in Hh. destruct (hnd _ _) as [[r w1] t1]; cbn in *.
           destruct Hh as [H1 T1]. split; [exact H1|]. constructor; [apply Hio|exact T1].
      * rewrite andb_false_r.
        match goal with |- context [hnd ?r] => specialize (Hh r (or_intror eq_refl) _ Hw) end.
        cbn in Hh. destruct (hnd _ _) as [[r w1] t1]; cbn in *.
        destruct Hh as [H1 T1]. split; [exact H1|]. constructor; [apply Hio|exact T1].
  - unfold attempt, bind, ret, world_of, trace_of in *. cbn.
    destruct protected; cbn.
    + split; [exact Hw|]. repeat constructor. apply P_plain. discriminate.
    + match goal with |- context [hnd ?r] => specialize (Hh r (or_introl eq_refl) _ Hw) end.
      cbn in Hh. destruct (hnd _ _) as [[r w1] t1]; cbn in *. exact Hh.
Qed.

(** Every route keeps the invariant.  A logout needs its token to be
    one whose session may go. *)
Theorem sound_handler c req :
  (c = CLogout -> forall tok, getAuthTokenFromRequest req = Some tok -> allowed tok) ->
  sound I P (handler cfg env c req).
Proof.
  intros Hc. destruct c; cbn [handler]; apply sound_route; intros req' Hreq.
  - apply sound_register.
  - apply sound_login.
  - apply sound_logout. intros tok Htok.
    destruct Hreq as [Hr|Hr]; rewrite Hr in Htok; [discriminate|].
    now apply Hc.
  - apply sound_me.
  - apply sound_createProject.
  - apply sound_renameProject.
  - apply sound_deleteProject.
  - apply sound_generateCover.
Qed.

End HandlerSound.

(** * Histories *)

Section ServeSound.

Context `{Platform}.
Variables (I : Db -> Prop) (P : Event -> Prop) (allowed : string -> Prop).
Variable cfg : Config.

Hypothesis P_other : forall e, is_send e = false -> P e.
Hypothesis P_plain : forall s b, (forall tok u, b <> JsonAuth tok u) -> P (EvSend s b).
Hypothesis I_projects : forall d ps seq, I d -> I (set_projects d ps seq).
Hypothesis I_insert_user :
  forall d u h t r d', I d -> Sql.insert_user u h t d = Ok (r, d') -> I d'.
Hypothesis I_delete_session :
  forall d tok, allowed tok -> I d -> I (Sql.delete_session (hashSessionToken tok) d).

Lemma sound_serve history w :
  Forall (step_ok I P allowed cfg) history -> I (db w) ->
  I (db (fst (serve cfg history w))) /\ Forall P (snd (serve cfg history w)).
Proof.
  revert w. induction history as [|[[env c] req] rest IH]; intros w Hs Hw.
  - split; [exact Hw|constructor].
  - apply Forall_cons in Hs as [Hstep Hrest]. destruct Hstep as (Ha & Hi & Hl).
    pose proof (sound_handler I P allowed cfg env P_other P_plain Ha I_projects
                  I_insert_user Hi I_delete_session c req Hl w Hw) as [H1 T1].
    cbn [serve]. unfold world_of, trace_of in *.
    destruct (handler cfg env c req w) as [[r w1] t1]; cbn in *.
    destruct (IH w1 Hrest H1) as [H2 T2].
    destruct (serve cfg rest w1) as [w2 t2]; cbn in *.
    split; [exact H2|]. apply Forall_app; split; assumption.
Qed.

End ServeSound.

(** * Session store *)

Lemma filter_none {A} (f : A -> string) (l : list A) (k : string) :
  ~ In k (map f l) -> List.filter (fun y => String.eqb (f y) k) l = [].
Proof.
  induction l as [|z l IH]; intros Hk; [reflexivity|]. cbn [List.filter].
  destruct (String.eqb (f z) k) eqn:E.
  - apply String.eqb_eq in E. exfalso. apply Hk. left. exact E.
  - apply IH. intros Hc. apply Hk. right. exact Hc.
Qed.

Lemma filter_unique {A} (f : A -> string) (l : list A) (x : A) :
  NoDup (map f l) -> In x l ->
  List.filter (fun y => String.eqb (f y) (f x)) l = [x].
Proof.
  induction l as [|y l IH]; intros Hnd Hin; [contradiction|].
  cbn in Hnd. apply NoDup_cons in Hnd as [Hy Hnd]. rewrite list_elem_of_In in Hy.
  cbn [List.filter]. destruct Hin as [->|Hin].
  - rewrite String.eqb_refl. f_equal. now apply filter_none.
  - destruct (String.eqb (f y) (f x)) eqn:E.
    + apply String.eqb_eq in E. exfalso. apply Hy. rewrite E. now apply in_map.
    + now apply IH.
Qed.

Lemma filter_none_Z {A} (f : A -> Z) (l : list A) (k : Z) :
  ~ In k (map f l) -> List.filter (fun y => (f y =? k)%Z) l = [].
Proof.
  induction l as [|z l IH]; intros Hk; [reflexivity|]. cbn [List.filter].
  destruct (f z =? k)%Z eqn:E.
  - apply Z.eqb_eq in E. exfalso. apply Hk. left. exact E.
  - apply IH. intros Hc. apply Hk. right. exact Hc.
Qed.

Lemma filter_unique_Z {A} (f : A -> Z) (l : list A) (x : A) :
  NoDup (map f l) -> In x l ->
  List.filter (fun y => (f y =? f x)%Z) l = [x].
Proof.
  induction l as [|y l IH]; intros Hnd Hin; [contradiction|].
  cbn in Hnd. apply NoDup_cons in Hnd as [Hy Hnd]. rewrite list_elem_of_In in Hy.
  cbn [List.filter]. destruct Hin as [->|Hin].
  - rewrite Z.eqb_refl. f_equal. now apply filter_none_Z.
  - destruct (f y =? f x)%Z eqn:E.
    + apply Z.eqb_eq in E. exfalso. apply Hy. rewrite E. now apply in_map.
    + now apply IH.
Qed.

Section Sessions.

Context `{Platform}.

(** The lookup of [authMiddleware] on a database that holds the
    session of [token]. *)
Lemma select_session_of token u expiry d t :
  session_of token u expiry d ->
  Sql.select_session_user (hashSessionToken token) t d
  = if (t <? expiry)%Z then [u] else [].
Proof.
  intros ((Hids & _ & Hhashes) & (s & Hs & Hh & Hu & He) & (row & Hrow & Hau)).
  unfold Sql.select_session_user.
  assert (Hflat : forall l,
    flat_map (fun s0 =>
      if String.eqb (token_hash s0) (hashSessionToken token) && (t <? expires_at s0)
      then map Sql.auth_of (List.filter (fun u0 => u_id u0 =? s_user_id s0) (users d))
      else []) l
    = flat_map (fun s0 =>
        if (t <? expires_at s0)
        then map Sql.auth_of (List.filter (fun u0 => u_id u0 =? s_user_id s0) (users d))
        else [])
        (List.filter (fun s0 => String.eqb (token_hash s0) (hashSessionToken token)) l)).
  { induction l as [|x l IH]; [reflexivity|]. cbn [flat_map List.filter].
    destruct (String.eqb (token_hash x) (hashSessionToken token)); cbn [andb flat_map];
      now rewrite IH. }
  rewrite Hflat, <- Hh, (filter_unique token_hash _ s Hhashes Hs).
  cbn [flat_map]. rewrite app_nil_r, He.
  destruct (t <? expiry); [|reflexivity].
  assert (Hid : s_user_id s = u_id row) by (rewrite Hu, <- Hau; reflexivity).
  rewrite Hid, (filter_unique_Z u_id _ row Hids Hrow). cbn. now rewrite Hau.
Qed.

End Sessions.

(** * Tokens *)

Lemma encode64_nonempty url pad bs : bs <> [] -> Buffer.encode64 url pad bs <> "".
Proof. destruct bs as [|a [|b [|c rest]]]; [contradiction|discriminate..]. Qed.

Lemma truthy_nonempty s : s <> "" -> Js.truthy s = true.
Proof. intros Hs. unfold Js.truthy. apply String.eqb_neq in Hs. now rewrite Hs. Qed.

Lemma length_encode64_url_32 bs :
  length bs = 32%nat -> String.length (Buffer.toBase64Url bs) = 43%nat.
Proof.
  intros Hl. do 33 (destruct bs as [|? bs]; try discriminate Hl). reflexivity.
Qed.

Lemma length_toHex bs : String.length (Buffer.toHex bs) = (2 * length bs)%nat.
Proof. induction bs as [|b bs IH]; [reflexivity|]. cbn [Buffer.toHex String.length length]. lia. Qed.

Section Tokens.

Context `{PlatformLaws}.

Lemma length_hashSessionToken t : String.length (hashSessionToken t) = 64%nat.
Proof. unfold hashSessionToken. now rewrite length_toHex, sha256_length. Qed.

(** A digest is never a raw token: they differ in length. *)
Lemma digest_not_token env t :
  length (token_bytes env) = 32%nat -> hashSessionToken t <> generateSessionToken env.
Proof.
  intros Hl E. apply (f_equal String.length) in E.
  rewrite length_hashSessionToken in E. unfold generateSessionToken in E.
  rewrite length_encode64_url_32 in E by assumption. discriminate.
Qed.

End Tokens.

Section Bearer.

Context `{Platform}.

Lemma getAuthToken_truthy req t :
  getAuthTokenFromRequest req = Some t -> Js.truthy t = true.
Proof.
  unfold getAuthTokenFromRequest.
  destruct (authorization req) as [header|]; [|discriminate].
  destruct (negb (Js.truthy header)); [discriminate|].
  destruct (Js.split " " header) as [|scheme [|tok rest]]; try discriminate.
  destruct (negb (String.eqb scheme "Bearer")); cbn [orb]; [discriminate|].
  destruct (Js.truthy tok) eqn:E; cbn [negb]; [|discriminate].
  now intros [= <-].
Qed.

(** [getAuthTokenFromRequest] reads back a token without spaces. *)
Lemma bearer_token token :
  token <> "" -> has_char " " token = false ->
  getAuthTokenFromRequest (bearer token) = Some token.
Proof.
  intros Hne Hsp. unfold getAuthTokenFromRequest, bearer. cbn [authorization].
  change (Js.truthy ("Bearer " +:+ token)) with true. cbn [negb].
  change ("Bearer " +:+ token) with ("Bearer" +:+ String " " token).
  rewrite split_app, (split_no_char _ token Hsp).
  change (Js.split " " "Bearer") with ["Bearer"]. cbn [app].
  change (String.eqb "Bearer" "Bearer") with true.
  now rewrite (truthy_nonempty _ Hne).
Qed.

Lemma bearer_generated env :
  token_bytes env <> [] ->
  getAuthTokenFromRequest (bearer (generateSessionToken env))
  = Some (generateSessionToken env).
Proof.
  intros Hb. apply bearer_token.
  - now apply encode64_nonempty.
  - apply encode64_no_char; [reflexivity|discriminate].
Qed.

(** [resolve] in terms of the session lookup. *)
Lemma resolve_lookup env token w :
  getAuthTokenFromRequest (bearer token) = Some token ->
  fails env (DbQuery (SelectSessionUser (hashSessionToken token))) = false ->
  resolve env token w
  = head (Sql.select_session_user (hashSessionToken token) (now env) (db w)).
Proof.
  intros Hb Hf. unfold resolve, authMiddleware. rewrite Hb.
  unfold bind, query, ret. rewrite Hf. cbn.
  now destruct (Sql.select_session_user _ _ _).
Qed.

(** ** The session of a token is kept by every statement that does
    not delete it *)

Variables (token : string) (u : AuthUser) (expiry : Z).

Lemma session_of_projects d ps seq :
  session_of token u expiry d -> session_of token u expiry (set_projects d ps seq).
Proof. intros H0. exact H0. Qed.

Lemma session_of_insert_user d uname h t r d' :
  session_of token u expiry d -> Sql.insert_user uname h t d = Ok (r, d') ->
  session_of token u expiry d'.
Proof.
  intros ((Hids & Hseq & Hhashes) & Hs & (row & Hrow & Hau)).
  unfold Sql.insert_user. destruct (existsb _ _); [discriminate|]. intros [= _ <-].
  split; [|split].
  - unfold db_wf. cbn. split; [|split; [|exact Hhashes]].
    + rewrite map_app. cbn. apply NoDup_app. split; [exact Hids|]. split.
      * intros x Hx Hk. apply list_elem_of_In in Hk. destruct Hk as [<-|[]].
        apply list_elem_of_In, in_map_iff in Hx as (y & Hy & Hin).
        rewrite Forall_forall in Hseq. apply list_elem_of_In in Hin. specialize (Hseq y Hin). lia.
      * apply NoDup_singleton.
    + apply Forall_app. split.
      * eapply Forall_impl; [exact Hseq|]. cbn. intros; lia.
      * repeat constructor. cbn. lia.
  - exact Hs.
  - exists row. split; [|exact Hau]. cbn. apply in_or_app. now left.
Qed.

Lemma session_of_insert_session d h uid e t r d' :
  session_of token u expiry d -> Sql.insert_session h uid e t d = Ok (r, d') ->
  session_of token u expiry d'.
Proof.
  intros ((Hids & Hseq & Hhashes) & (s & Hs & Hrest) & Hu).
  unfold Sql.insert_session. destruct (existsb _ (sessions d)) eqn:Ex; [discriminate|].
  destruct (negb _); [discriminate|]. intros [= _ <-].
  split; [|split].
  - unfold db_wf. cbn. split; [exact Hids|split; [exact Hseq|]].
    rewrite map_app. cbn. apply NoDup_app. split; [exact Hhashes|]. split.
    + intros x Hx Hk. apply list_elem_of_In in Hk. destruct Hk as [<-|[]].
      apply list_elem_of_In, in_map_iff in Hx as (y & Hy & Hin).
      assert (existsb (fun s0 => String.eqb (token_hash s0) h) (sessions d) = true).
      { apply existsb_exists. exists y. split; [exact Hin|]. now apply String.eqb_eq. }
      congruence.
    + apply NoDup_singleton.
  - exists s. split; [|exact Hrest]. cbn. apply in_or_app. now left.
  - exact Hu.
Qed.

Lemma session_of_delete_session d presented :
  hashSessionToken presented <> hashSessionToken token ->
  session_of token u expiry d ->
  session_of token u expiry (Sql.delete_session (hashSessionToken presented) d).
Proof.
  intros Hne ((Hids & Hseq & Hhashes) & (s & Hs & Hh & Hrest) & Hu).
  split; [|split].
  - unfold db_wf, Sql.delete_session. cbn. split; [exact Hids|split; [exact Hseq|]].
    clear -Hhashes. induction (sessions d) as [|x l IH]; [constructor|].
    cbn in *. apply NoDup_cons in Hhashes as [Hx Hl].
    destruct (negb _); [|now apply IH]. cbn. apply NoDup_cons. split; [|now apply IH].
    intros Hc. apply Hx. apply list_elem_of_In, in_map_iff in Hc as (y & Hy & Hin).
    apply filter_In in Hin as [Hin _]. apply list_elem_of_In, in_map_iff. eauto.
  - exists s. split; [|split; assumption]. unfold Sql.delete_session. cbn. apply filter_In. split; [exact Hs|].
    rewrite Hh. apply negb_true_iff, String.eqb_neq. congruence.
  - exact Hu.
Qed.

End Bearer.

(** * Issuing a token *)

Section Issue.

Context `{Platform}.
Variables (cfg : Config) (env : Env).

Lemma insert_session_row d h uid e t r d' :
  db_wf d -> Sql.insert_session h uid e t d = Ok (r, d') ->
  db_wf d' /\ users d' = users d /\
  (exists s, In s (sessions d') /\ token_hash s = h /\ s_user_id s = uid /\
             expires_at s = e) /\
  sessions d' = sessions d ++ [{| s_id := sessions_seq d + 1; token_hash := h;
                                  s_user_id := uid; s_created_at := t;
                                  expires_at := e |}].
Proof.
  intros (Hids & Hseq & Hhashes). unfold Sql.insert_session.
  destruct (existsb _ (sessions d)) eqn:Ex; [discriminate|].
  destruct (negb _); [discriminate|]. intros [= _ <-].
  split; [|split; [reflexivity|split; [|reflexivity]]].
  - unfold db_wf. cbn. split; [exact Hids|split; [exact Hseq|]].
    rewrite map_app. cbn. apply NoDup_app. split; [exact Hhashes|]. split.
    + intros x Hx Hk. apply list_elem_of_In in Hk. destruct Hk as [<-|[]].
      apply list_elem_of_In, in_map_iff in Hx as (y & Hy & Hin).
      assert (existsb (fun s0 => String.eqb (token_hash s0) h) (sessions d) = true).
      { apply existsb_exists. exists y. split; [exact Hin|]. now apply String.eqb_eq. }
      congruence.
    + apply NoDup_singleton.
  - eexists. split; [cbn; apply in_or_app; right; left; reflexivity|]. cbn. auto.
Qed.

Lemma insert_user_row d uname h t r d' :
  db_wf d -> Sql.insert_user uname h t d = Ok (r, d') ->
  db_wf d' /\ exists row, In row (users d') /\ Sql.auth_of row = r.
Proof.
  intros (Hids & Hseq & Hhashes). unfold Sql.insert_user.
  destruct (existsb _ _); [discriminate|]. intros [= <- <-]. split.
  - unfold db_wf. cbn. split; [|split; [|exact Hhashes]].
    + rewrite map_app. cbn. apply NoDup_app. split; [exact Hids|]. split.
      * intros x Hx Hk. apply list_elem_of_In in Hk. destruct Hk as [<-|[]].
        apply list_elem_of_In, in_map_iff in Hx as (y & Hy & Hin).
        rewrite Forall_forall in Hseq. apply list_elem_of_In in Hin.
        specialize (Hseq y Hin). lia.
      * apply NoDup_singleton.
    + apply Forall_app. split.
      * eapply Forall_impl; [exact Hseq|]. cbn. intros; lia.
      * repeat constructor. cbn. lia.
  - eexists. split; [cbn; apply in_or_app; right; left; reflexivity|reflexivity].
Qed.

(** A login or a registration answered with a token has stored the
    session of that token: its hash, the user and the expiry. *)
Lemma issue_establishes c req w token u :
  c = CLogin \/ c = CRegister ->
  db_wf (db w) ->
  In (EvSend 200 (JsonAuth token u)) (trace_of (handler cfg env c req w)) ->
  token = generateSessionToken env /\
  session_of token u (now env + session_ttl_ms cfg)
    (db (world_of (handler cfg env c req w))).
Proof.
  intros Hc Hwf Hin.
  destruct Hc as [-> | ->]; cbn [handler] in *;
    unfold route, authMiddleware, login, register, issue_session in *; unfold_monad;
    cbn in *;
    repeat (break_match; cbn in *; subst; try discriminate; try (in_trace Hin)).
  all: try (injection Hin as <- <-).
  all: split; [reflexivity|].
  all: repeat match goal with
         | Hs : Sql.insert_user _ _ _ _ = Ok _ |- _ =>
             apply insert_user_row in Hs; [|assumption]; destruct Hs as (? & ? & ? & ?)
         | Hs : Sql.insert_session _ _ _ _ _ = Ok _ |- _ =>
             apply insert_session_row in Hs; [|assumption];
             destruct Hs as (? & Hus & ? & ?)
         end.
  all: split; [assumption|split; [assumption|]].
  all: rewrite Hus.
  all: try (eexists; split; [eassumption|assumption]).
  all: match goal with
       | Hl : Sql.select_user_by_name _ _ = ?r :: _ |- _ =>
           exists r; split; [|reflexivity];
           assert (Hr : In r (Sql.select_user_by_name _ (db w))) by (rewrite Hl; now left);
           unfold Sql.select_user_by_name in Hr; apply filter_In in Hr; tauto
       end.
Qed.

End Issue.

(** * Session store: resolve, revoke, what is stored *)

Section Resolve.

Context `{Platform}.
Variable cfg : Config.

(** C6 (amended). A token issued by login or registration resolves to
    the principal it was issued to at every time strictly before its
    expiry, whatever requests are served in between (short of a logout
    with that token), and to none at its expiry and after. *)
Theorem issued_token_resolves env0 c req w token u history :
  c = CLogin \/ c = CRegister ->
  db_wf (db w) ->
  length (token_bytes env0) = 32%nat ->
  In (EvSend 200 (JsonAuth token u)) (trace_of (handler cfg env0 c req w)) ->
  Forall (keeps_session token) history ->
  let issued := world_of (handler cfg env0 c req w) in
  let later := fst (serve cfg history issued) in
  let expiry := now env0 + session_ttl_ms cfg in
  forall env,
    fails env (DbQuery (SelectSessionUser (hashSessionToken token))) = false ->
    (now env < expiry -> resolve env token later = Some u) /\
    (expiry <= now env -> resolve env token later = None).
Proof.
  intros Hc Hwf Hlen Hin Hkeep issued later expiry env Hf.
  destruct (issue_establishes cfg env0 c req w token u Hc Hwf Hin) as [Htok Hses].
  fold issued expiry in Hses.
  assert (Hlater : session_of token u expiry (db later)).
  { refine (proj1 (sound_serve (session_of token u expiry) (fun _ => True)
                     (fun tok => hashSessionToken tok <> hashSessionToken token)
                     cfg _ _ _ _ _ history issued _ Hses)).
    - intros; exact Logic.I.
    - intros; exact Logic.I.
    - intros d ps seq Hd. exact Hd.
    - intros d un h t r d'. apply session_of_insert_user.
    - intros d tok Ht. now apply session_of_delete_session.
    - eapply Forall_impl; [exact Hkeep|]. intros [[e k] r] Hk.
      split; [intros; exact Logic.I|]. split.
      + intros d uid x d'. apply session_of_insert_session.
      + exact Hk. }
  assert (Hb : getAuthTokenFromRequest (bearer token) = Some token).
  { rewrite Htok. apply bearer_generated. destruct (token_bytes env0); [discriminate|discriminate]. }
  rewrite (resolve_lookup env token later Hb Hf),
    (select_session_of token u expiry (db later) (now env) Hlater).
  split; intros Ht.
  - apply Z.ltb_lt in Ht. now rewrite Ht.
  - apply Z.ltb_ge in Ht. now rewrite Ht.
Qed.

End Resolve.

Section Revoke.

Context `{Platform}.
Variable cfg : Config.

Lemma select_after_delete h t d :
  Sql.select_session_user h t (Sql.delete_session h d) = [].
Proof.
  unfold Sql.select_session_user, Sql.delete_session. cbn [sessions set_sessions users].
  induction (sessions d) as [|s l IH]; [reflexivity|]. cbn [List.filter].
  destruct (String.eqb (token_hash s) h) eqn:E; cbn [negb]; [exact IH|].
  cbn [flat_map]. rewrite E. cbn [andb app]. exact IH.
Qed.

(** C7 (amended). After a logout that was answered with success the
    token resolves to none, at every time.  A logout that presents a
    token that does not resolve (unknown, expired or already revoked)
    changes nothing, but it is refused by [requireAuth] with status
    401: it is a no-op, not a success. *)
Theorem logout_revokes env token w :
  let run := handler cfg env CLogout (bearer token) w in
  (In (EvSend 200 JsonOk) (trace_of run) ->
     forall env', resolve env' token (world_of run) = None) /\
  (resolve env token w = None ->
     fails env (DbQuery (SelectSessionUser
                 (hashSessionToken (default "" (getAuthTokenFromRequest (bearer token))))))
       = false ->
     world_of run = w /\
     In (EvSend 401 (JsonError "Authentication required" None)) (trace_of run) /\
     ~ In (EvSend 200 JsonOk) (trace_of run)).
Proof.
  cbv zeta. split.
  - intros Hin env'. unfold resolve.
    cbn [handler] in *. unfold route, authMiddleware, logout in *. unfold_monad.
    cbn in *.
    destruct (getAuthTokenFromRequest (bearer token)) as [t|] eqn:Ht; cbn in *.
    + repeat (break_match; cbn in *; subst; try discriminate; try (in_trace Hin)).
      all: try (rewrite select_after_delete in *; discriminate).
      all: try reflexivity.
      all: apply getAuthToken_truthy in Ht; congruence.
    + in_trace Hin.
  - intros Hres Hf. unfold resolve in Hres.
    cbn [handler] in *. unfold route, authMiddleware, logout in *. unfold_monad.
    destruct (getAuthTokenFromRequest (bearer token)) as [t|] eqn:Ht; cbn in *.
    + rewrite Hf in *. cbn in *.
      destruct (Sql.select_session_user _ _ _) as [|row rows]; cbn in *; [|discriminate].
      split; [now destruct w|]. split; [now right; left|].
      intros [Hc|[Hc|[]]]; discriminate.
    + split; [reflexivity|]. split; [now left|]. intros [Hc|[]]; discriminate.
Qed.

End Revoke.

(** C7, as stated, fails: a second logout with the same token is not a
    success, it is answered 401. *)
Lemma second_logout_is_refused :
  let env := Demo.env_at 10 Demo.no_fault in
  let w := Demo.world [] [] [] in
  let first := @handler Demo.platform Demo.cfg_local env CLogout (bearer Demo.token_a) w in
  let second :=
    @handler Demo.platform Demo.cfg_local env CLogout (bearer Demo.token_a) (world_of first) in
  In (EvSend 200 JsonOk) (trace_of first) /\
  List.filter is_send (trace_of second)
    = [EvSend 401 (JsonError "Authentication required" None)] /\
  ~ In (EvSend 200 JsonOk) (trace_of second).
Proof.
  cbv zeta. split; [vm_compute; tauto|]. split; [vm_compute; reflexivity|].
  vm_compute. intros [Hc|[Hc|[]]]; discriminate.
Qed.

Lemma logout_revokes_witness :
  let env := Demo.env_at 10 Demo.no_fault in
  let w := Demo.world [] [] [] in
  let first := @handler Demo.platform Demo.cfg_local env CLogout (bearer Demo.token_a) w in
  @resolve Demo.platform env Demo.token_a w = Some (Sql.auth_of Demo.alice) /\
  @resolve Demo.platform env Demo.token_a (world_of first) = None /\
  world_of (@handler Demo.platform Demo.cfg_local env CLogout (bearer Demo.token_a)
              (world_of first))
    = world_of first.
Proof.
  cbv zeta. split; [reflexivity|].
  pose proof (@logout_revokes Demo.platform Demo.cfg_local (Demo.env_at 10 Demo.no_fault)
                Demo.token_a (Demo.world [] [] [])) as [A _].
  pose proof (@logout_revokes Demo.platform Demo.cfg_local (Demo.env_at 10 Demo.no_fault)
                Demo.token_a
                (world_of (@handler Demo.platform Demo.cfg_local
                             (Demo.env_at 10 Demo.no_fault) CLogout
                             (bearer Demo.token_a) (Demo.world [] [] [])))) as [_ B].
  split.
  - apply A. vm_compute. tauto.
  - apply B; [|reflexivity]. apply A. vm_compute. tauto.
Defined.

Lemma demo_world_wf ps keys files : db_wf (db (Demo.world ps keys files)).
Proof.
  unfold db_wf. cbn. split; [|split].
  - apply NoDup_cons. split; [|apply NoDup_singleton].
    intros Hc. apply list_elem_of_In in Hc. destruct Hc as [Hc|[]]. discriminate.
  - repeat constructor; cbn; lia.
  - apply NoDup_singleton.
Qed.

(** C6, as stated, fails at one instant: at [expires_at] itself the
    token no longer resolves, although no time "strictly after" it has
    been reached.  One millisecond earlier it does. *)
Lemma token_expired_at_expiry :
  let env0 := Demo.env_at 1000 Demo.no_fault in
  let run := @handler Demo.platform Demo.cfg_local env0 CRegister
               (DemoAuth.signup "carol" "secret1") (Demo.world [] [] []) in
  let expiry := 1000 + DemoAuth.ttl in
  In (EvSend 200 (JsonAuth DemoAuth.token DemoAuth.carol)) (trace_of run) /\
  Forall (fun s => token_hash s = @hashSessionToken Demo.platform DemoAuth.token ->
                   expires_at s = expiry) (sessions (db (world_of run))) /\
  @resolve Demo.platform (Demo.env_at (expiry - 1) Demo.no_fault) DemoAuth.token (world_of run)
    = Some DemoAuth.carol /\
  @resolve Demo.platform (Demo.env_at expiry Demo.no_fault) DemoAuth.token (world_of run)
    = None.
Proof.
  cbv zeta. split; [vm_compute; tauto|]. split; [|split; vm_compute; reflexivity].
  vm_compute. repeat constructor. intros Hc. discriminate Hc.
Qed.

Lemma issued_token_resolves_witness :
  let env0 := Demo.env_at 1000 Demo.no_fault in
  let run := @handler Demo.platform Demo.cfg_local env0 CRegister
               (DemoAuth.signup "carol" "secret1") (Demo.world [] [] []) in
  let later :=
    fst (@serve Demo.platform Demo.cfg_local
           [(Demo.env_at 2000 Demo.no_fault, CLogout, bearer Demo.token_a)]
           (world_of run)) in
  @resolve Demo.platform (Demo.env_at 5000 Demo.no_fault) DemoAuth.token later
    = Some DemoAuth.carol /\
  @resolve Demo.platform (Demo.env_at (1000 + DemoAuth.ttl) Demo.no_fault) DemoAuth.token later
    = None.
Proof.
  cbv zeta.
  assert (Hkeep : Forall (@keeps_session Demo.platform DemoAuth.token)
                    [(Demo.env_at 2000 Demo.no_fault, CLogout, bearer Demo.token_a)]).
  { repeat constructor. intros _ presented Hp. vm_compute in Hp.
    injection Hp as <-. vm_compute. discriminate. }
  pose proof (@issued_token_resolves Demo.platform Demo.cfg_local
                (Demo.env_at 1000 Demo.no_fault) CRegister
                (DemoAuth.signup "carol" "secret1") (Demo.world [] [] [])
                DemoAuth.token DemoAuth.carol _ (or_intror eq_refl)
                (demo_world_wf [] [] []) eq_refl
                ltac:(vm_compute; tauto) Hkeep) as Hres.
  cbv zeta in Hres. split.
  - apply (Hres (Demo.env_at 5000 Demo.no_fault) eq_refl). vm_compute. reflexivity.
  - apply (Hres (Demo.env_at (1000 + DemoAuth.ttl) Demo.no_fault) eq_refl).
    vm_compute. discriminate.
Defined.

(** * What the sessions table stores *)

Section Stored.

Context `{PlatformLaws}.
Variable cfg : Config.

Lemma digests_insert_session d t uid e now0 r d' :
  digests d -> Sql.insert_session (hashSessionToken t) uid e now0 d = Ok (r, d') ->
  digests d'.
Proof.
  unfold digests, Sql.insert_session. intros Hd.
  destruct (existsb _ (sessions d)); [discriminate|].
  destruct (negb _); [discriminate|]. intros [= _ <-]. cbn.
  apply Forall_app. split; [exact Hd|]. repeat constructor. cbn. eauto.
Qed.

(** The token a login or a registration sends is the one whose hash
    it has just stored. *)
Lemma issue_stores_hash env c req w status token u :
  c = CLogin \/ c = CRegister ->
  In (EvSend status (JsonAuth token u)) (trace_of (handler cfg env c req w)) ->
  token = generateSessionToken env /\
  exists row,
    sessions (db (world_of (handler cfg env c req w))) = sessions (db w) ++ [row] /\
    token_hash row = hashSessionToken token /\
    expires_at row = now env + session_ttl_ms cfg.
Proof.
  intros Hc Hin.
  destruct Hc as [-> | ->]; cbn [handler] in *;
    unfold route, authMiddleware, login, register, issue_session in *; unfold_monad;
    cbn in *;
    repeat (break_match; cbn in *; subst; try discriminate; try (in_trace Hin)).
  all: try (injection Hin as <- <- <-).
  all: split; [reflexivity|].
  all: repeat match goal with
         | Hs : Sql.insert_user _ _ _ _ = Ok _ |- _ =>
             unfold Sql.insert_user in Hs; destruct (existsb _ _) in Hs;
             [discriminate Hs|]; injection Hs; intros; subst
         | Hs : Sql.insert_session _ _ _ _ _ = Ok _ |- _ =>
             unfold Sql.insert_session in Hs; destruct (existsb _ _) in Hs;
             [discriminate Hs|]; destruct (negb _) in Hs; [discriminate Hs|];
             injection Hs; intros; subst
         end.
  all: cbn; eexists; split; [reflexivity|split; reflexivity].
Qed.

(** C8. Whatever requests are served, every [token_hash] in the
    sessions table is the SHA-256 digest (in hex) of a token, and none
    equals a raw token handed to a client: a digest has 64 characters,
    a token 43.  The row a login or registration stores for the token
    it sends holds exactly the digest of that token. *)
Theorem raw_token_never_stored history w :
  digests (db w) ->
  Forall (fun step => length (token_bytes (fst (fst step))) = 32%nat) history ->
  let final := fst (serve cfg history w) in
  let trace := snd (serve cfg history w) in
  (forall s, In s (sessions (db final)) ->
     (exists t, token_hash s = hashSessionToken t) /\
     (forall status token u,
         In (EvSend status (JsonAuth token u)) trace -> token_hash s <> token)) /\
  (forall env c req w0 status token u,
      c = CLogin \/ c = CRegister ->
      In (EvSend status (JsonAuth token u)) (trace_of (handler cfg env c req w0)) ->
      exists row,
        sessions (db (world_of (handler cfg env c req w0))) = sessions (db w0) ++ [row] /\
        token_hash row = hashSessionToken token).
Proof.
  intros Hd Hlen final trace. split.
  - assert (Hs : digests (db final) /\ Forall token_sized trace).
    { apply (sound_serve digests token_sized (fun _ => True) cfg).
      - intros e He st tok u ->. discriminate.
      - intros st b Hb st' tok u [= _ ->]. now destruct (Hb tok u).
      - intros d ps seq Hx. exact Hx.
      - intros d un h t r d' Hx. unfold Sql.insert_user.
        destruct (existsb _ _); [discriminate|]. intros [= _ <-]. exact Hx.
      - intros d tok _ Hx. unfold digests, Sql.delete_session in *. cbn.
        rewrite Forall_forall in *. intros x Hin. apply Hx.
        apply list_elem_of_In in Hin. apply filter_In in Hin as [Hin _].
        now apply list_elem_of_In.
      - eapply Forall_impl; [exact Hlen|]. intros [[env c] req] Hl. cbn in Hl.
        split; [|split].
        + intros u st tok u' [= _ <- _]. unfold generateSessionToken.
          now apply length_encode64_url_32.
        + intros d uid x d'. apply digests_insert_session.
        + intros; exact Logic.I.
      - exact Hd. }
    destruct Hs as [Hdig Hsized]. intros s Hin.
    unfold digests in Hdig. rewrite Forall_forall in Hdig.
    destruct (Hdig s (proj2 (list_elem_of_In _ _) Hin)) as [t Ht].
    split; [now exists t|]. intros status token u Htr E.
    rewrite Forall_forall in Hsized.
    specialize (Hsized _ (proj2 (list_elem_of_In _ _) Htr) status token u eq_refl).
    rewrite <- E, Ht, length_hashSessionToken in Hsized. discriminate.
  - intros env c req w0 status token u Hc Hin.
    destruct (issue_stores_hash env c req w0 status token u Hc Hin)
      as (_ & row & Hrow & Hh & _).
    now exists row.
Qed.

End Stored.

Lemma raw_token_never_stored_witness :
  let history :=
    [(Demo.env_at 1000 Demo.no_fault, CRegister, DemoAuth.signup "carol" "secret1")] in
  let final := fst (@serve Demo.platform Demo.cfg_local history (Demo.world [] [] [])) in
  Forall (fun s => token_hash s <> DemoAuth.token) (sessions (db final)) /\
  length (sessions (db final)) = 2%nat.
Proof.
  cbv zeta.
  pose proof (@raw_token_never_stored Demo.platform demo_laws Demo.cfg_local
                [(Demo.env_at 1000 Demo.no_fault, CRegister,
                  DemoAuth.signup "carol" "secret1")]
                (Demo.world [] [] [])) as Hthm.
  cbv zeta in Hthm. destruct Hthm as [Hall _].
  - repeat constructor. exists Demo.token_a. reflexivity.
  - repeat constructor.
  - split; [|reflexivity]. apply Forall_forall. intros s Hs.
    apply list_elem_of_In in Hs.
    apply (proj2 (Hall s Hs) 200 DemoAuth.token DemoAuth.carol).
    vm_compute. tauto.
Defined.

(** * Rename *)

Lemma renamed_same_except_name i nm p :
  same_except_name p (renamed i nm p) /\ (p_id p <> i -> renamed i nm p = p).
Proof.
  unfold renamed. destruct (p_id p =? i) eqn:E.
  - split; [repeat split|]. intros Hne. apply Z.eqb_eq in E. contradiction.
  - split; [repeat split|reflexivity].
Qed.

Lemma renamed_frame i nm ps :
  Forall2 (fun p p' => same_except_name p p' /\
                       name p' = (if p_id p =? i then nm else name p) /\
                       (p_id p <> i -> p' = p))
    ps (map (renamed i nm) ps).
Proof.
  induction ps as [|p ps IH]; [constructor|]. cbn [map]. constructor; [|exact IH].
  pose proof (renamed_same_except_name i nm p) as [A B].
  split; [exact A|]. split; [|exact B].
  unfold renamed. now destruct (p_id p =? i).
Qed.

Section Rename.

Context `{Platform}.
Variables (cfg : Config) (env : Env).

(** C10. A rename that is answered with success has set the name of
    the rows with the requested identifier to the trimmed name and has
    changed nothing else: every row keeps all its other fields, rows
    with another identifier are untouched, and so are the other
    tables, the bucket and the disk. *)
Theorem rename_updates_only_name req w body :
  let run := handler cfg env CRenameProject req w in
  In (EvSend 200 body) (trace_of run) ->
  exists i raw,
    body_name req = Some raw /\ Js.trim raw <> "" /\
    int4_in (params_id req) = Some i /\
    projects (db (world_of run)) = map (renamed i (Js.trim raw)) (projects (db w)) /\
    Forall2 (fun p p' => same_except_name p p' /\ name p' = (if p_id p =? i then Js.trim raw else name p)
                         /\ (p_id p <> i -> p' = p))
      (projects (db w)) (projects (db (world_of run))) /\
    users (db (world_of run)) = users (db w) /\
    sessions (db (world_of run)) = sessions (db w) /\
    bucket (world_of run) = bucket w /\ disk (world_of run) = disk w.
Proof.
  cbv zeta. intros Hin.
  cbn [handler] in *.
  unfold route, authMiddleware, renameProject, requireProjectWriteAccess,
    getProjectWithOwner, the_user, body_name_trimmed in *. unfold_monad.
  cbn in *.
  repeat (break_match; cbn in *; subst; try discriminate; try (in_trace Hin)).
  all: match goal with
       | Hu : Sql.update_project_name _ _ _ = Ok _ |- _ =>
           unfold Sql.update_project_name in Hu;
           destruct (_ <? _)%nat in Hu; [discriminate Hu|];
           injection Hu; intros; subst
       end.
  all: eexists _, _; split; [reflexivity|].
  all: split; [intros Hc;
               match goal with Ht : negb (Js.truthy _) = false |- _ =>
                 rewrite Hc in Ht; discriminate Ht end|].
  all: split; [reflexivity|]; split; [reflexivity|].
  all: split; [apply renamed_frame|repeat split].
Qed.

End Rename.

Lemma rename_updates_only_name_witness :
  let w := Demo.world [Demo.project 7 "old" "/uploads/a.wav" None None None;
                       Demo.project 8 "other" "/uploads/b.wav" None None None] [] [] in
  let run := @handler Demo.platform Demo.cfg_local (Demo.env_at 10 Demo.no_fault)
               CRenameProject (Demo.request "7" (Some "  New name ") None) w in
  projects (db (world_of run))
  = [Demo.project 7 "New name" "/uploads/a.wav" None None None;
     Demo.project 8 "other" "/uploads/b.wav" None None None].
Proof.
  cbv zeta.
  destruct (@rename_updates_only_name Demo.platform Demo.cfg_local
              (Demo.env_at 10 Demo.no_fault)
              (Demo.request "7" (Some "  New name ") None)
              (Demo.world [Demo.project 7 "old" "/uploads/a.wav" None None None;
                           Demo.project 8 "other" "/uploads/b.wav" None None None] [] [])
              (JsonProject (Some (Demo.project 7 "New name" "/uploads/a.wav" None None None,
                                  Some "alice"))))
    as (i & raw & Hraw & _ & Hi & Hp & _).
  - vm_compute. tauto.
  - injection Hraw as <-. injection Hi as <-. rewrite Hp. reflexivity.
Defined.

(** * Best-effort cleanup blocks *)

Lemma set_bucket_id w : set_bucket w (bucket w) = w.
Proof. now destruct w. Qed.

Lemma set_disk_id w : set_disk w (disk w) = w.
Proof. now destruct w. Qed.

Section Blocks.

Context `{Platform}.
Variables (cfg : Config) (env : Env).

(** [try { await deleteObjectFromR2(k) } catch { console.error(msg) }] *)
Lemma r2_block_run k msg w :
  try_catch (deleteObjectFromR2 cfg env k) (fun _ => console_error msg) w
  = (Ok tt, set_bucket w (r2_cleanup_bucket cfg env k (bucket w)),
     r2_cleanup_trace cfg env k msg).
Proof.
  unfold try_catch, deleteObjectFromR2, console_error, emit, ret,
    r2_cleanup_bucket, r2_cleanup_trace.
  destruct (R2_ENABLED cfg); cbn; [|now rewrite set_bucket_id].
  destruct (fails env (R2Delete k)); cbn; [now rewrite set_bucket_id|reflexivity].
Qed.

(** [try { p = resolveUploadsPath(url); if (existsSync(p)) unlinkSync(p) }
    catch { }] *)
Lemma unlink_block_run uploadsUrl w :
  try_catch
    (p <- lift (resolveUploadsPath cfg uploadsUrl) ;;
     present <- existsSync p ;;
     if present then unlinkSync env p else ret tt)
    (fun _ => ret tt) w
  = (Ok tt, set_disk w (unlink_cleanup_disk cfg env uploadsUrl (disk w)),
     unlink_cleanup_trace cfg env uploadsUrl (disk w)).
Proof.
  unfold try_catch, bind, lift, existsSync, unlinkSync, ret,
    unlink_cleanup_disk, unlink_cleanup_trace.
  destruct (resolveUploadsPath cfg uploadsUrl) as [p|e]; [|now rewrite set_disk_id].
  destruct (bool_decide (p ∈ disk w)) eqn:E; cbn; [|now rewrite set_disk_id].
  rewrite E. cbn. destruct (fails env (FsUnlink p)); cbn; [now rewrite set_disk_id|].
  reflexivity.
Qed.

Lemma resolve_requires_prefix uploadsUrl p :
  resolveUploadsPath cfg uploadsUrl = Ok p -> Js.startsWith uploadsUrl "/uploads/" = true.
Proof.
  unfold resolveUploadsPath. destruct (Js.startsWith uploadsUrl "/uploads/"); [reflexivity|].
  discriminate.
Qed.

(** The guarded form used for the audio file: the guard repeats the
    first check of [resolveUploadsPath]. *)
Lemma guarded_unlink_block_run uploadsUrl w :
  try_catch
    (if Js.startsWith uploadsUrl "/uploads/" then
       p <- lift (resolveUploadsPath cfg uploadsUrl) ;;
       present <- existsSync p ;;
       if present then unlinkSync env p else ret tt
     else ret tt)
    (fun _ => ret tt) w
  = (Ok tt, set_disk w (unlink_cleanup_disk cfg env uploadsUrl (disk w)),
     unlink_cleanup_trace cfg env uploadsUrl (disk w)).
Proof.
  destruct (Js.startsWith uploadsUrl "/uploads/") eqn:E; [apply unlink_block_run|].
  unfold unlink_cleanup_disk, unlink_cleanup_trace.
  destruct (resolveUploadsPath cfg uploadsUrl) eqn:R.
  - apply resolve_requires_prefix in R. congruence.
  - cbn. now rewrite set_disk_id.
Qed.

End Blocks.

(** * Routes *)

Section Route.

Context `{Platform}.
Variable env : Env.

(** A protected route in closed form: the handler runs only for a
    token that resolves. *)
Lemma route_protected_run hnd req w :
  route env true hnd req w
  = match getAuthTokenFromRequest req with
    | None => (Ok tt, w, [EvSend 401 (JsonError "Authentication required" None)])
    | Some token =>
        let lookup := DbQuery (SelectSessionUser (hashSessionToken token)) in
        if fails env lookup then
          (Ok tt, w, [EvIo lookup false; EvSend 500 (JsonError "Internal Server Error" None)])
        else
          match Sql.select_session_user (hashSessionToken token) (now env) (db w) with
          | [] =>
              (Ok tt, w,
               [EvIo lookup true; EvSend 401 (JsonError "Authentication required" None)])
          | row :: _ =>
              match hnd {| incoming := req; user := Some row;
                           sessionToken := Some token |} w with
              | (r, w', t) => (r, w', EvIo lookup true :: t)
              end
          end
    end.
Proof.
  unfold route, authMiddleware. rewrite bind_run. unfold attempt.
  destruct (getAuthTokenFromRequest req) as [token|]; [|reflexivity].
  rewrite bind_run. unfold query. cbv zeta.
  destruct (fails env _); [reflexivity|]. rewrite set_db_id.
  destruct (Sql.select_session_user _ _ _) as [|row rows]; [reflexivity|].
  rewrite ret_run. cbn [user andb negb app].
  destruct (hnd _ w) as [[r w'] t]. reflexivity.
Qed.

End Route.

(** Run a sequence of cleanup blocks. *)
Ltac run_blocks :=
  repeat first
    [ rewrite bind_run | rewrite r2_block_run | rewrite guarded_unlink_block_run
    | rewrite unlink_block_run | rewrite ret_run | progress cbv beta iota ].

(** * Delete project *)

Section DeleteAssets.

Context `{Platform}.
Variables (cfg : Config) (env : Env).

(** The run of [deleteProjectAssets] in closed form. *)
Lemma assets_run project w :
  deleteProjectAssets cfg env project w
  = (Ok tt,
     {| db := db w;
        bucket :=
          key_cleanup_bucket cfg env (cover_object_key project)
            (key_cleanup_bucket cfg env (audio_object_key project) (bucket w));
        disk :=
          cover_unlink_disk cfg env (cover_url project)
            (unlink_cleanup_disk cfg env (audio_url project) (disk w)) |},
     key_cleanup_trace cfg env (audio_object_key project)
       "Failed to delete R2 audio object:"
     ++ key_cleanup_trace cfg env (cover_object_key project)
          "Failed to delete R2 cover object:"
     ++ unlink_cleanup_trace cfg env (audio_url project) (disk w)
     ++ cover_unlink_trace cfg env (cover_url project)
          (unlink_cleanup_disk cfg env (audio_url project) (disk w))).
Proof.
  unfold deleteProjectAssets, key_cleanup_trace, key_cleanup_bucket,
    cover_unlink_trace, cover_unlink_disk.
  destruct (Js.truthy_opt (audio_object_key project));
    destruct (Js.truthy_opt (cover_object_key project));
    (destruct (cover_url project) as [u|];
     [destruct (Js.startsWith u "/uploads/covers/")|]);
    run_blocks; cbn; rewrite ?app_nil_r; reflexivity.
Qed.

End DeleteAssets.

(** * Counting in traces *)

Lemma count_events_app f a b :
  count_events f (a ++ b) = (count_events f a + count_events f b)%nat.
Proof. unfold count_events. now rewrite List.filter_app, length_app. Qed.

Lemma count_events_cons f e l :
  count_events f (e :: l) = ((if f e then 1 else 0) + count_events f l)%nat.
Proof. unfold count_events. cbn [List.filter]. now destruct (f e). Qed.

Lemma count_events_nil f : count_events f [] = 0%nat.
Proof. reflexivity. Qed.

Section CleanupTraces.

Variables (cfg : Config) (env : Env).

Lemma key_cleanup_logs key msg :
  count_events is_log (key_cleanup_trace cfg env key msg)
  = count_events is_failed_r2_delete (key_cleanup_trace cfg env key msg).
Proof.
  unfold key_cleanup_trace, r2_cleanup_trace.
  destruct (Js.truthy_opt key), (R2_ENABLED cfg); try reflexivity.
  destruct (fails env _); reflexivity.
Qed.

Lemma unlink_cleanup_logs u files :
  count_events is_log (unlink_cleanup_trace cfg env u files) = 0%nat /\
  count_events is_failed_r2_delete (unlink_cleanup_trace cfg env u files) = 0%nat.
Proof.
  unfold unlink_cleanup_trace.
  destruct (resolveUploadsPath cfg u); [|split; reflexivity].
  destruct (bool_decide _); split; reflexivity.
Qed.

Lemma cover_unlink_logs u files :
  count_events is_log (cover_unlink_trace cfg env u files) = 0%nat /\
  count_events is_failed_r2_delete (cover_unlink_trace cfg env u files) = 0%nat.
Proof.
  unfold cover_unlink_trace. destruct u as [u|]; [|split; reflexivity].
  destruct (Js.startsWith u _); [apply unlink_cleanup_logs|split; reflexivity].
Qed.

Lemma key_cleanup_no_send key msg :
  List.filter is_send (key_cleanup_trace cfg env key msg) = [].
Proof.
  unfold key_cleanup_trace, r2_cleanup_trace.
  destruct (Js.truthy_opt key), (R2_ENABLED cfg); try reflexivity.
  destruct (fails env _); reflexivity.
Qed.

Lemma unlink_cleanup_no_send u files :
  List.filter is_send (unlink_cleanup_trace cfg env u files) = [].
Proof.
  unfold unlink_cleanup_trace. destruct (resolveUploadsPath cfg u); [|reflexivity].
  destruct (bool_decide _); reflexivity.
Qed.

Lemma cover_unlink_no_send u files :
  List.filter is_send (cover_unlink_trace cfg env u files) = [].
Proof.
  unfold cover_unlink_trace. destruct u as [u|]; [|reflexivity].
  destruct (Js.startsWith u _); [apply unlink_cleanup_no_send|reflexivity].
Qed.

(** The request for a key that is set is issued when the bucket is
    configured. *)
Lemma key_cleanup_issued k msg :
  R2_ENABLED cfg = true -> k <> "" ->
  In (EvIo (R2Delete k) (negb (fails env (R2Delete k))))
     (key_cleanup_trace cfg env (Some k) msg).
Proof.
  intros HR Hk. unfold key_cleanup_trace, r2_cleanup_trace. cbn.
  rewrite (truthy_nonempty k Hk), HR. destruct (fails env (R2Delete k)); cbn; now left.
Qed.

Lemma unlink_cleanup_issued u p files :
  resolveUploadsPath cfg u = Ok p -> p ∈ files ->
  In (EvIo (FsUnlink p) (negb (fails env (FsUnlink p))))
     (unlink_cleanup_trace cfg env u files).
Proof.
  intros Hp Hin. unfold unlink_cleanup_trace. rewrite Hp.
  rewrite bool_decide_eq_true_2 by assumption. right. now left.
Qed.

Lemma unlink_cleanup_keeps u p files :
  p ∈ files -> resolveUploadsPath cfg u <> Ok p ->
  p ∈ unlink_cleanup_disk cfg env u files.
Proof.
  intros Hin Hne. unfold unlink_cleanup_disk.
  destruct (resolveUploadsPath cfg u) as [q|]; [|exact Hin].
  destruct (_ && _); [|exact Hin]. apply elem_of_difference. split; [exact Hin|].
  intros Hq. apply elem_of_singleton in Hq. subst. now apply Hne.
Qed.

End CleanupTraces.

(** * Delete project *)

Section DeleteProject.

Context `{Platform}.
Variables (cfg : Config) (env : Env).

(** The run of an authorised deletion whose [DELETE] statement
    succeeded. *)
Lemma delete_run req w :
  let run := handler cfg env CDeleteProject req w in
  In (EvIo (DbQuery (DeleteProject (params_id req))) true) (trace_of run) ->
  exists i project rest token,
    int4_in (params_id req) = Some i /\
    Sql.select_project i (db w) = project :: rest /\
    run = (Ok tt,
           {| db := Sql.delete_project i (db w);
              bucket :=
                key_cleanup_bucket cfg env (cover_object_key project)
                  (key_cleanup_bucket cfg env (audio_object_key project) (bucket w));
              disk :=
                cover_unlink_disk cfg env (cover_url project)
                  (unlink_cleanup_disk cfg env (audio_url project) (disk w)) |},
           [EvIo (DbQuery (SelectSessionUser (hashSessionToken token))) true;
            EvIo (DbQuery (SelectProject (params_id req))) true;
            EvIo (DbQuery (DeleteProject (params_id req))) true]
           ++ trace_of (deleteProjectAssets cfg env project
                          (set_db w (Sql.delete_project i (db w))))
           ++ [EvSend 200 JsonOk]).
Proof.
  cbv zeta. intros Hin. cbn [handler] in *.
  unfold route, authMiddleware, deleteProject, requireProjectWriteAccess, the_user in *.
  unfold_monad. cbn in *.
  repeat (break_match; cbn in *; subst; try discriminate; try (in_trace Hin)).
  all: repeat match goal with
         | Ha : deleteProjectAssets _ _ _ _ = _ |- _ =>
             rewrite assets_run in Ha; injection Ha; intros; subst; clear Ha
         end.
  all: try discriminate.
  all: eexists _, _, _, _; split; [reflexivity|]; split; [eassumption|].
  all: rewrite assets_run; cbn; reflexivity.
Qed.

(** C9 (amended). Once the [DELETE] of an authorised deletion has
    succeeded, the row is gone and stays gone, success is reported, and
    no removal of stored bytes was requested before the row went.  Each
    removal the row points to is requested whatever happens to the
    others: the audio and cover objects when the bucket is configured,
    the audio and cover files when they resolve inside the uploads
    root and exist.  A failed removal is swallowed; it is logged when
    it is a bucket request and silently ignored when it is a local
    file. *)
Theorem delete_project_best_effort req w :
  let run := handler cfg env CDeleteProject req w in
  let id := params_id req in
  In (EvIo (DbQuery (DeleteProject id)) true) (trace_of run) ->
  exists i project rest,
    int4_in id = Some i /\
    Sql.select_project i (db w) = project :: rest /\
    projects (db (world_of run))
      = List.filter (fun p => negb (p_id p =? i)) (projects (db w)) /\
    List.filter is_send (trace_of run) = [EvSend 200 JsonOk] /\
    (exists pre post,
        trace_of run = pre ++ EvIo (DbQuery (DeleteProject id)) true :: post /\
        Forall (fun e => is_removal e = false) pre) /\
    (R2_ENABLED cfg = true -> forall k,
        audio_object_key project = Some k -> k <> "" ->
        In (EvIo (R2Delete k) (negb (fails env (R2Delete k)))) (trace_of run)) /\
    (R2_ENABLED cfg = true -> forall k,
        cover_object_key project = Some k -> k <> "" ->
        In (EvIo (R2Delete k) (negb (fails env (R2Delete k)))) (trace_of run)) /\
    (forall p,
        resolveUploadsPath cfg (audio_url project) = Ok p -> p ∈ disk w ->
        In (EvIo (FsUnlink p) (negb (fails env (FsUnlink p)))) (trace_of run)) /\
    (forall u p,
        cover_url project = Some u -> Js.startsWith u "/uploads/covers/" = true ->
        resolveUploadsPath cfg u = Ok p -> p ∈ disk w ->
        resolveUploadsPath cfg (audio_url project) <> Ok p ->
        In (EvIo (FsUnlink p) (negb (fails env (FsUnlink p)))) (trace_of run)) /\
    count_events is_log (trace_of run)
      = count_events is_failed_r2_delete (trace_of run).
Proof.
  cbv zeta. intros Hin.
  destruct (delete_run req w Hin) as (i & project & rest & token & Hi & Hsel & Hrun).
  exists i, project, rest. rewrite Hrun. unfold world_of, trace_of. cbn [fst snd].
  rewrite assets_run. cbn [snd db set_db disk].
  split; [exact Hi|]. split; [exact Hsel|]. split; [reflexivity|].
  split; [|split; [|split; [|split; [|split; [|split]]]]].
  - cbn [app List.filter is_send]. rewrite !List.filter_app.
    rewrite !key_cleanup_no_send, unlink_cleanup_no_send, cover_unlink_no_send.
    reflexivity.
  - eexists [_; _], _. split; [reflexivity|]. repeat constructor.
  - intros HR k Hk Hne. rewrite Hk.
    pose proof (key_cleanup_issued cfg env k "Failed to delete R2 audio object:" HR Hne).
    rewrite !in_app_iff. cbn [In]. tauto.
  - intros HR k Hk Hne. rewrite Hk.
    pose proof (key_cleanup_issued cfg env k "Failed to delete R2 cover object:" HR Hne).
    rewrite !in_app_iff. cbn [In]. tauto.
  - intros p Hp Hd.
    pose proof (unlink_cleanup_issued cfg env _ p _ Hp Hd).
    rewrite !in_app_iff. cbn [In]. tauto.
  - intros u p Hu Hs Hp Hd Hne. unfold cover_unlink_trace. rewrite Hu, Hs.
    pose proof (unlink_cleanup_issued cfg env u p _ Hp
                  (unlink_cleanup_keeps cfg env _ p _ Hd Hne)).
    rewrite !in_app_iff. cbn [In]. tauto.
  - cbn [app]. rewrite !count_events_cons, !count_events_app, !count_events_cons,
      !count_events_nil, !key_cleanup_logs.
    rewrite (proj1 (unlink_cleanup_logs _ _ _ _)), (proj2 (unlink_cleanup_logs _ _ _ _)).
    rewrite (proj1 (cover_unlink_logs _ _ _ _)), (proj2 (cover_unlink_logs _ _ _ _)).
    reflexivity.
Qed.

End DeleteProject.

(** C9, as stated, fails on "logged": the removal of a local file that
    fails is swallowed without a log line; the deletion still succeeds. *)
Lemma local_unlink_failure_not_logged :
  let w := Demo.world [Demo.project 7 "song" "/uploads/a.wav" None None None] []
             ["/srv/app/uploads/a.wav"] in
  let run := @handler Demo.platform Demo.cfg_local (Demo.env_at 10 fail_unlinks)
               CDeleteProject (Demo.request "7" None None) w in
  In (EvIo (FsUnlink "/srv/app/uploads/a.wav") false) (trace_of run) /\
  count_events is_failed_unlink (trace_of run) = 1%nat /\
  count_events is_log (trace_of run) = 0%nat /\
  In (EvSend 200 JsonOk) (trace_of run) /\
  projects (db (world_of run)) = [].
Proof.
  cbv zeta. split; [vm_compute; tauto|]. split; [vm_compute; reflexivity|].
  split; [vm_compute; reflexivity|]. split; [vm_compute; tauto|]. vm_compute. reflexivity.
Qed.

Lemma delete_project_best_effort_witness :
  let w := Demo.world
             [Demo.project 7 "song" "https://cdn.example/prod/audio/a.wav"
                (Some "prod/audio/a.wav") (Some "https://cdn.example/prod/covers/c.png")
                (Some "prod/covers/c.png")]
             ["prod/audio/a.wav"; "prod/covers/c.png"] [] in
  let run := @handler Demo.platform Demo.cfg_r2 (Demo.env_at 10 fail_r2_deletes)
               CDeleteProject (Demo.request "7" None None) w in
  In (EvIo (R2Delete "prod/audio/a.wav") false) (trace_of run) /\
  In (EvIo (R2Delete "prod/covers/c.png") false) (trace_of run) /\
  List.filter is_send (trace_of run) = [EvSend 200 JsonOk] /\
  projects (db (world_of run)) = [].
Proof.
  cbv zeta.
  destruct (@delete_project_best_effort Demo.platform Demo.cfg_r2
              (Demo.env_at 10 fail_r2_deletes) (Demo.request "7" None None)
              (Demo.world
                 [Demo.project 7 "song" "https://cdn.example/prod/audio/a.wav"
                    (Some "prod/audio/a.wav") (Some "https://cdn.example/prod/covers/c.png")
                    (Some "prod/covers/c.png")]
                 ["prod/audio/a.wav"; "prod/covers/c.png"] []))
    as (i & project & rest & Hi & Hsel & Hrows & Hsend & _ & Ha & Hc & _).
  - vm_compute. tauto.
  - injection Hi as <-. vm_compute in Hsel. injection Hsel as <- <-.
    split; [apply (Ha eq_refl "prod/audio/a.wav" eq_refl); discriminate|].
    split; [apply (Hc eq_refl "prod/covers/c.png" eq_refl); discriminate|].
    split; [exact Hsend|]. rewrite Hrows. reflexivity.
Defined.

(** * Create audio *)

Lemma append_nonempty_r a b : b <> "" -> a +:+ b <> "".
Proof. intros Hb. destruct a; [exact Hb|discriminate]. Qed.

(** An object key built from a path that starts with a letter is not
    empty. *)
Lemma buildR2ObjectKey_nonempty cfg c rest :
  Ascii.eqb c "/" = false -> buildR2ObjectKey cfg (String c rest) <> "".
Proof.
  intros Hc. unfold buildR2ObjectKey. cbn [strip_leading_slashes]. rewrite Hc.
  destruct (R2_PREFIX cfg) as [prefix|]; [|discriminate].
  destruct (Js.truthy prefix); [|discriminate].
  apply append_nonempty_r. discriminate.
Qed.

Section CreateProject.

Context `{Platform}.
Variables (cfg : Config) (env : Env).

(** The [finally] block only removes the transferred file. *)
Lemma create_finally_run req w :
  exists w' t,
    createProject_finally cfg env req w = (Ok tt, w', t) /\
    db w' = db w /\ bucket w' = bucket w /\
    Forall (fun e => exists p ok, e = EvIo (FsUnlink p) ok) t.
Proof.
  unfold createProject_finally.
  destruct (file (incoming req)) as [f|]; [|exists w, []; repeat split; constructor].
  destruct (R2_ENABLED cfg && Js.truthy (path f));
    [|exists w, []; repeat split; constructor].
  unfold try_catch, unlinkSync, ret.
  destruct (fails env (FsUnlink (path f)) || negb (bool_decide (path f ∈ disk w))).
  - exists w, [EvIo (FsUnlink (path f)) false]. repeat split. repeat constructor. eauto.
  - eexists _, [EvIo (FsUnlink (path f)) true]. repeat split. repeat constructor. eauto.
Qed.

(** The [try] and [catch] blocks when the upload succeeded and the
    [INSERT] failed: the compensating request follows, then the
    response. *)
Lemma create_try_run req w key audioUrl :
  let run := createProject_try cfg env req w in
  In (EvIo (R2Put key) true) (trace_of run) ->
  In (EvIo (DbQuery (InsertProject audioUrl)) false) (trace_of run) ->
  exists f err,
    run = (Ok tt,
           set_bucket w (r2_cleanup_bucket cfg env key ({[ key ]} ∪ bucket w)),
           [EvIo (R2Put key) true;
            EvIo (DbQuery (InsertProject audioUrl)) false;
            EvLog "Failed to create project:"]
           ++ r2_cleanup_trace cfg env key "Failed to cleanup R2 audio object:"
           ++ [EvSend 500 (JsonError "Failed to create project" err)]) /\
    file (incoming req) = Some f /\
    key = buildR2ObjectKey cfg
            ("audio/" +:+ Js.of_Z (now env) +:+ "-" +:+ Buffer.toHex (name_bytes env)
             +:+ getSafeFileExtension (originalname f)) /\
    audioUrl = buildR2PublicUrl cfg key /\
    R2_ENABLED cfg = true.
Proof.
  cbv zeta. intros Hput Hins.
  unfold createProject_try, createProject_upload, createProject_catch,
    getProjectWithOwner, the_user, putObjectToR2, deleteObjectFromR2 in *.
  destruct (file (incoming req)) as [f|]; [|in_trace Hput].
  pose proof (buildR2ObjectKey_nonempty cfg "a"
                ("udio/" +:+ Js.of_Z (now env) +:+ "-" +:+ Buffer.toHex (name_bytes env)
                 +:+ getSafeFileExtension (originalname f)) eq_refl) as Hkey.
  change (String "a" ("udio/" +:+ ?x)) with ("audio/" +:+ x) in Hkey.
  apply truthy_nonempty in Hkey.
  set (k := buildR2ObjectKey cfg _) in *.
  unfold_monad. cbn in *.
  repeat (break_match; cbn in *; subst; try discriminate;
          try (in_trace Hput); try (in_trace Hins)).
  all: injection Hput as <-; injection Hins as <-.
  all: unfold r2_cleanup_trace, r2_cleanup_bucket.
  all: repeat match goal with
         | Hx : ?b = _ |- context [?b] => rewrite Hx
         end.
  all: eexists _, _; split; [cbn; reflexivity|]; repeat split.
Qed.

(** The whole route for such a request. *)
Lemma create_compensation_run req w key audioUrl :
  let run := handler cfg env CCreateProject req w in
  In (EvIo (R2Put key) true) (trace_of run) ->
  In (EvIo (DbQuery (InsertProject audioUrl)) false) (trace_of run) ->
  exists lookup err unlinks w',
    run = (Ok tt, w',
           lookup
           :: [EvIo (R2Put key) true;
               EvIo (DbQuery (InsertProject audioUrl)) false;
               EvLog "Failed to create project:"]
           ++ r2_cleanup_trace cfg env key "Failed to cleanup R2 audio object:"
           ++ [EvSend 500 (JsonError "Failed to create project" err)]
           ++ unlinks) /\
    (exists q, lookup = EvIo (DbQuery (SelectSessionUser q)) true) /\
    Forall (fun e => exists p ok, e = EvIo (FsUnlink p) ok) unlinks /\
    db w' = db w /\
    bucket w' = r2_cleanup_bucket cfg env key ({[ key ]} ∪ bucket w) /\
    R2_ENABLED cfg = true.
Proof.
  cbv zeta. cbn [handler]. rewrite route_protected_run.
  destruct (getAuthTokenFromRequest req) as [token|]; [|intros Hput; in_trace Hput].
  cbv zeta. destruct (fails env _); [intros Hput; in_trace Hput|].
  destruct (Sql.select_session_user _ _ _) as [|row rows]; [intros Hput; in_trace Hput|].
  set (r := {| incoming := req; user := Some row; sessionToken := Some token |}).
  unfold createProject, try_finally.
  pose proof (create_try_run r w key audioUrl) as Htry. cbv zeta in Htry.
  destruct (createProject_try cfg env r w) as [[res w1] t1].
  destruct (create_finally_run r w1) as (w2 & t2 & Hfin & Hdb & Hb & Hun).
  rewrite Hfin. unfold trace_of in *. cbn [snd] in *.
  assert (Hnot : forall e, In e t2 -> exists p ok, e = EvIo (FsUnlink p) ok).
  { intros e He. rewrite Forall_forall in Hun. apply Hun, list_elem_of_In, He. }
  intros Hput Hins.
  assert (Hput1 : In (EvIo (R2Put key) true) t1).
  { destruct Hput as [Hc|Hput]; [discriminate|]. apply in_app_or in Hput as [Hp|Hp]; [exact Hp|].
    apply Hnot in Hp as (? & ? & ?). discriminate. }
  assert (Hins1 : In (EvIo (DbQuery (InsertProject audioUrl)) false) t1).
  { destruct Hins as [Hc|Hins]; [discriminate|]. apply in_app_or in Hins as [Hp|Hp]; [exact Hp|].
    apply Hnot in Hp as (? & ? & ?). discriminate. }
  destruct (Htry Hput1 Hins1) as (f & err & Hrun & _ & _ & _ & HR).
  injection Hrun as -> -> ->.
  eexists _, err, t2, w2. split; [|split; [eauto|split; [exact Hun|split; [|split]]]].
  - cbn [app]. rewrite <- !app_assoc. reflexivity.
  - rewrite Hdb. reflexivity.
  - rewrite Hb. reflexivity.
  - exact HR.
Qed.

Lemma r2_cleanup_count key msg k :
  R2_ENABLED cfg = true ->
  count_events (is_r2_delete k) (r2_cleanup_trace cfg env key msg)
  = if String.eqb key k then 1%nat else 0%nat.
Proof.
  intros HR. unfold r2_cleanup_trace. rewrite HR.
  destruct (fails env (R2Delete key)); unfold count_events; cbn;
    destruct (String.eqb key k); reflexivity.
Qed.

Lemma unlinks_count (f : Event -> bool) t :
  (forall p ok, f (EvIo (FsUnlink p) ok) = false) ->
  Forall (fun e => exists p ok, e = EvIo (FsUnlink p) ok) t ->
  List.filter f t = [].
Proof.
  intros Hf. induction 1 as [|e t (p & ok & ->) _ IH]; [reflexivity|].
  cbn [List.filter]. now rewrite Hf.
Qed.

(** C2 (amended). With the remote store active, when the [INSERT] of
    the row fails after the upload succeeded, exactly one delete is
    requested, for exactly the uploaded key, before the error response
    is sent, and no row is inserted.  When that delete goes through no
    object is left under the key; when it fails, the failure is logged
    and swallowed and the object remains. *)
Theorem create_audio_compensates req w key audioUrl :
  let run := handler cfg env CCreateProject req w in
  In (EvIo (R2Put key) true) (trace_of run) ->
  In (EvIo (DbQuery (InsertProject audioUrl)) false) (trace_of run) ->
  (forall k, count_events (is_r2_delete k) (trace_of run)
             = if String.eqb key k then 1%nat else 0%nat) /\
  (exists err a b c,
      trace_of run
      = a ++ EvIo (R2Delete key) (negb (fails env (R2Delete key)))
          :: b ++ EvSend 500 (JsonError "Failed to create project" err) :: c /\
      List.filter is_send (trace_of run)
      = [EvSend 500 (JsonError "Failed to create project" err)]) /\
  projects (db (world_of run)) = projects (db w) /\
  (fails env (R2Delete key) = false -> key ∉ bucket (world_of run)) /\
  (fails env (R2Delete key) = true ->
     key ∈ bucket (world_of run) /\
     In (EvLog "Failed to cleanup R2 audio object:") (trace_of run)).
Proof.
  cbv zeta. intros Hput Hins.
  destruct (create_compensation_run req w key audioUrl Hput Hins)
    as (lookup & err & unlinks & w' & Hrun & (q & ->) & Hun & Hdb & Hb & HR).
  rewrite Hrun. unfold world_of, trace_of. cbn [fst snd].
  split; [|split; [|split; [|split]]].
  - intros k. cbn [app]. rewrite !count_events_cons, !count_events_app, !count_events_cons.
    rewrite (r2_cleanup_count key _ k HR). unfold count_events at 1.
    rewrite (unlinks_count (is_r2_delete k) unlinks) by (assumption || reflexivity).
    cbn. lia.
  - exists err. unfold r2_cleanup_trace. rewrite HR.
    destruct (fails env (R2Delete key)).
    + eexists [_; _; _; _], [_], unlinks. split; [reflexivity|].
      cbn. now rewrite (unlinks_count is_send unlinks).
    + eexists [_; _; _; _], [], unlinks. split; [reflexivity|].
      cbn. now rewrite (unlinks_count is_send unlinks).
  - now rewrite Hdb.
  - intros Hf. rewrite Hb. unfold r2_cleanup_bucket. rewrite HR, Hf. cbn.
    rewrite elem_of_difference, elem_of_singleton. tauto.
  - intros Hf. rewrite Hb. unfold r2_cleanup_bucket, r2_cleanup_trace. rewrite HR, Hf. cbn.
    split; [apply elem_of_union; left; now apply elem_of_singleton|]. auto 10.
Qed.

End CreateProject.

(** C2, as stated, fails on "leaving no orphaned remote object": when
    the compensating delete fails as well, the uploaded object stays in
    the bucket, with no row that points to it. *)
Lemma failed_compensation_leaves_orphan :
  let w := Demo.world [] [] ["/srv/app/uploads/17-take.wav"] in
  let f := {| originalname := "take.wav"; filename := "17-take.wav";
              path := "/srv/app/uploads/17-take.wav"; mimetype := "audio/wav";
              size := 4 |} in
  let run := @handler Demo.platform Demo.cfg_r2
               (Demo.env_at 17 fail_inserts_and_r2_deletes) CCreateProject
               (Demo.request "" (Some "Take") (Some f)) w in
  let key := "prod/audio/17-c3c3c3c3c3c3c3c3.wav" in
  In (EvIo (R2Put key) true) (trace_of run) /\
  In (EvIo (DbQuery (InsertProject ("https://cdn.example/" +:+ key))) false) (trace_of run) /\
  In (EvIo (R2Delete key) false) (trace_of run) /\
  key ∈ bucket (world_of run) /\
  projects (db (world_of run)) = [].
Proof.
  cbv zeta. split; [vm_compute; tauto|]. split; [vm_compute; tauto|].
  split; [vm_compute; tauto|]. split; [|vm_compute; reflexivity].
  refine (bool_decide_unpack _ _). vm_compute. exact Logic.I.
Qed.

Lemma create_audio_compensates_witness :
  let w := Demo.world [] [] ["/srv/app/uploads/17-take.wav"] in
  let f := {| originalname := "take.wav"; filename := "17-take.wav";
              path := "/srv/app/uploads/17-take.wav"; mimetype := "audio/wav";
              size := 4 |} in
  let run := @handler Demo.platform Demo.cfg_r2 (Demo.env_at 17 fail_inserts)
               CCreateProject (Demo.request "" (Some "Take") (Some f)) w in
  let key := "prod/audio/17-c3c3c3c3c3c3c3c3.wav" in
  count_events (is_r2_delete key) (trace_of run) = 1%nat /\
  (key ∉ bucket (world_of run)) /\
  projects (db (world_of run)) = [].
Proof.
  cbv zeta.
  destruct (@create_audio_compensates Demo.platform Demo.cfg_r2 (Demo.env_at 17 fail_inserts)
              (Demo.request "" (Some "Take")
                 (Some {| originalname := "take.wav"; filename := "17-take.wav";
                          path := "/srv/app/uploads/17-take.wav"; mimetype := "audio/wav";
                          size := 4 |}))
              (Demo.world [] [] ["/srv/app/uploads/17-take.wav"])
              "prod/audio/17-c3c3c3c3c3c3c3c3.wav"
              "https://cdn.example/prod/audio/17-c3c3c3c3c3c3c3c3.wav")
    as (Hcount & _ & Hrows & Hgone & _).
  - vm_compute. tauto.
  - vm_compute. tauto.
  - split; [|split].
    + rewrite (Hcount "prod/audio/17-c3c3c3c3c3c3c3c3.wav"). reflexivity.
    + apply Hgone. reflexivity.
    + rewrite Hrows. reflexivity.
Defined.

(** * Replace cover *)

Section ReplaceCover.

Context `{Platform}.
Variables (cfg : Config) (env : Env).

(** The removal of the previous cover in closed form. *)
Lemma remove_previous_run previousUrl previousKey newUrl newKey w :
  removePreviousCover cfg env previousUrl previousKey newUrl newKey w
  = (Ok tt,
     {| db := db w;
        bucket := previous_key_bucket cfg env previousKey newKey (bucket w);
        disk := previous_file_disk cfg env previousUrl newUrl (disk w) |},
     previous_key_trace cfg env previousKey newKey
     ++ previous_file_trace cfg env previousUrl newUrl (disk w)).
Proof.
  unfold removePreviousCover, previous_key_trace, previous_key_bucket,
    previous_file_trace, previous_file_disk, previous_key_due, previous_file_due.
  destruct w as [d b f].
  destruct (_ && _ && negb (String.eqb (default "" previousKey) _));
    destruct (_ && _ && negb (String.eqb (default "" previousUrl) _));
    run_blocks; cbn; rewrite ?app_nil_r; reflexivity.
Qed.

(** The commit of a stored cover in closed form: nothing but the
    failed statement when the [UPDATE] fails; otherwise the new
    pointer, then the removal of the previous cover, then the
    answer. *)
Lemma commit_run id project src stored w :
  let newUrl := stored_url src stored in
  let newKey := stored_key stored in
  let update := DbQuery (UpdateProjectCover id) in
  commitCover cfg env id project src stored w
  = match (if fails env update then None else int4_in id) with
    | None => (Throw DbError, w, [EvIo update false])
    | Some i =>
        let w' :=
          {| db := Sql.update_project_cover newUrl newKey i (db w);
             bucket := previous_key_bucket cfg env (cover_object_key project) newKey
                         (bucket w);
             disk := previous_file_disk cfg env (cover_url project) newUrl (disk w) |} in
        let removal :=
          previous_key_trace cfg env (cover_object_key project) newKey
          ++ previous_file_trace cfg env (cover_url project) newUrl (disk w) in
        let reread := DbQuery (SelectProjectWithOwner (Some i)) in
        if fails env reread then
          (Throw DbError, w', EvIo update true :: removal ++ [EvIo reread false])
        else
          (Ok tt, w',
           EvIo update true :: removal
           ++ [EvIo reread true;
               EvSend 200 (JsonProject
                             (head (Sql.select_project_with_owner i (db w'))))])
    end.
Proof.
  cbv zeta. unfold commitCover. fold (stored_url src stored) (stored_key stored).
  rewrite bind_run. unfold query at 1, with_id.
  destruct (fails env (DbQuery (UpdateProjectCover id))); [reflexivity|].
  destruct (int4_in id) as [i|]; [|reflexivity].
  cbv beta iota. rewrite bind_run, remove_previous_run. cbv beta iota.
  rewrite bind_run. unfold getProjectWithOwner. rewrite bind_run. unfold query.
  cbn [db set_db bucket disk].
  destruct (fails env (DbQuery (SelectProjectWithOwner (Some i)))).
  - cbn. rewrite <- app_assoc. reflexivity.
  - cbn. rewrite <- !app_assoc. reflexivity.
Qed.

Lemma quiet_intro id e :
  is_removal e = false -> (forall ok, is_cover_update id ok e = false) -> quiet id e.
Proof. intros; split; assumption. Qed.

Ltac quiet_list :=
  repeat (apply List.Forall_cons;
          [apply quiet_intro; [reflexivity|intros ?; reflexivity]|]);
  try apply List.Forall_nil.

(** Storing the cover adds bytes, removes none, and leaves the
    database alone. *)
Lemma download_run id src projectId w :
  exists stored w0 t,
    downloadCoverToStorage cfg env src projectId w = (Ok stored, w0, t) /\
    db w0 = db w /\ bucket w ⊆ bucket w0 /\ disk w ⊆ disk w0 /\
    Forall (quiet id) t /\
    (stored_key stored <> None -> R2_ENABLED cfg = true).
Proof.
  unfold downloadCoverToStorage, putObjectToR2, writeFileSync. unfold_monad. cbn.
  repeat (break_match; cbn in *; subst; try discriminate).
  all: eexists _, _, _; split; [reflexivity|]; cbn.
  all: split; [reflexivity|]; split; [set_solver|]; split; [set_solver|].
  all: split; [quiet_list|]; try congruence; auto.
Qed.

(** A run of the handler either never reaches the commit, and then
    it removes nothing and leaves the database as it was, or it is a
    quiet prefix, the commit, and a quiet suffix. *)
Lemma cover_body_decompose r row w :
  user r = Some row ->
  let run := generateCover cfg env r w in
  let id := params_id (incoming r) in
  (db (world_of run) = db w /\ bucket w ⊆ bucket (world_of run) /\
   disk w ⊆ disk (world_of run) /\ Forall (quiet id) (trace_of run))
  \/
  (exists pre project rest i stored w0 tail,
      trace_of run
      = pre ++ trace_of (commitCover cfg env id project (cover_source env) stored w0)
            ++ tail /\
      world_of run
      = world_of (commitCover cfg env id project (cover_source env) stored w0) /\
      Forall (quiet id) pre /\ Forall (quiet id) tail /\
      db w0 = db w /\ bucket w ⊆ bucket w0 /\ disk w ⊆ disk w0 /\
      int4_in id = Some i /\ Sql.select_project i (db w) = project :: rest /\
      (stored_key stored <> None -> R2_ENABLED cfg = true)).
Proof.
  intros Hu. cbv zeta.
  destruct (generateCover cfg env r w) as [[res w'] t] eqn:Hrun.
  unfold world_of, trace_of. cbn [fst snd].
  unfold generateCover in Hrun. cbv zeta in Hrun.
  unfold try_catch, the_user in Hrun. rewrite Hu in Hrun.
  rewrite bind_run, ret_run in Hrun. cbv beta iota in Hrun.
  rewrite bind_run in Hrun. unfold requireProjectWriteAccess in Hrun.
  rewrite bind_run in Hrun. unfold query at 1, with_id in Hrun.
  set (id := params_id (incoming r)) in *.
  assert (Hexit : forall evs : list Event,
             (Ok tt, w, evs) = (res, w', t) -> Forall (quiet id) evs ->
             db w' = db w /\ bucket w ⊆ bucket w' /\ disk w ⊆ disk w' /\
             Forall (quiet id) t).
  { intros evs [= <- <- <-] Hq. repeat split; [reflexivity..|exact Hq]. }
  destruct (fails env (DbQuery (SelectProject id)));
    [left; cbn in Hrun; apply (Hexit _ Hrun); quiet_list|].
  destruct (int4_in id) as [i|] eqn:Hi;
    [|left; cbn in Hrun; apply (Hexit _ Hrun); quiet_list].
  cbv beta iota in Hrun. rewrite set_db_id in Hrun.
  destruct (Sql.select_project i (db w)) as [|project rest] eqn:Hsel;
    [left; cbn in Hrun; apply (Hexit _ Hrun); quiet_list|].
  destruct (negb (role_eqb (au_role row) RoleAdmin) && _);
    [left; cbn in Hrun; apply (Hexit _ Hrun); quiet_list|].
  rewrite ret_run in Hrun. cbv beta iota in Hrun.
  destruct (negb (Js.truthy_opt _));
    [left; cbn in Hrun; apply (Hexit _ Hrun); quiet_list|].
  rewrite bind_run in Hrun.
  destruct (download_run id (cover_source env) id w)
    as (stored & w0 & tdl & Hdl & Hdb & Hb & Hd & Ht & HR).
  rewrite Hdl in Hrun. cbv beta iota in Hrun.
  destruct (R2_ENABLED cfg && negb _).
  { left. cbn in Hrun. injection Hrun as <- <- <-.
    rewrite Hdb. repeat split; try assumption.
    constructor; [apply quiet_intro; [reflexivity|intros ?; reflexivity]|].
    apply Forall_app. split; [exact Ht|quiet_list]. }
  right.
  destruct (commitCover cfg env id project (cover_source env) stored w0)
    as [[[u|e] w1] t1] eqn:Hc.
  - exists (EvIo (DbQuery (SelectProject id)) true :: tdl),
      project, rest, i, stored, w0, [].
    cbn in Hrun. injection Hrun as <- <- <-. rewrite Hc. cbn. rewrite !app_nil_r.
    split; [reflexivity|]. split; [reflexivity|].
    split; [constructor; [apply quiet_intro; [reflexivity|intros ?; reflexivity]|];
            exact Ht|].
    split; [constructor|]. repeat split; assumption.
  - exists (EvIo (DbQuery (SelectProject id)) true :: tdl),
      project, rest, i, stored, w0,
      [EvLog "Cover Gen Error:"; EvSend 500 (JsonError "Failed to generate cover" None)].
    cbn in Hrun. injection Hrun as <- <- <-. rewrite Hc. cbn. rewrite ?app_nil_r.
    split; [now rewrite <- !app_assoc|]. split; [reflexivity|].
    split; [constructor; [apply quiet_intro; [reflexivity|intros ?; reflexivity]|];
            exact Ht|].
    split; [quiet_list|]. repeat split; assumption.
Qed.

(** The same for the route. *)
Lemma cover_decompose req w :
  let run := handler cfg env CGenerateCover req w in
  let id := params_id req in
  (db (world_of run) = db w /\ bucket w ⊆ bucket (world_of run) /\
   disk w ⊆ disk (world_of run) /\ Forall (quiet id) (trace_of run))
  \/
  (exists pre project rest i stored w0 tail,
      trace_of run
      = pre ++ trace_of (commitCover cfg env id project (cover_source env) stored w0)
            ++ tail /\
      world_of run
      = world_of (commitCover cfg env id project (cover_source env) stored w0) /\
      Forall (quiet id) pre /\ Forall (quiet id) tail /\
      db w0 = db w /\ bucket w ⊆ bucket w0 /\ disk w ⊆ disk w0 /\
      int4_in id = Some i /\ Sql.select_project i (db w) = project :: rest /\
      (stored_key stored <> None -> R2_ENABLED cfg = true)).
Proof.
  cbv zeta. cbn [handler]. rewrite route_protected_run.
  destruct (getAuthTokenFromRequest req) as [token|];
    [|left; repeat split; try reflexivity; quiet_list].
  cbv zeta. destruct (fails env (DbQuery (SelectSessionUser (hashSessionToken token))));
    [left; repeat split; try reflexivity; quiet_list|].
  destruct (Sql.select_session_user _ _ _) as [|row rows];
    [left; repeat split; try reflexivity; quiet_list|].
  set (r := {| incoming := req; user := Some row; sessionToken := Some token |}).
  destruct (cover_body_decompose r row w eq_refl) as [Hl|Hr]; cbv zeta in *;
    change (incoming r) with req in *;
    destruct (generateCover cfg env r w) as [[res w'] t]; unfold world_of, trace_of in *;
    cbn [fst snd] in *.
  - left. destruct Hl as (A & B & C & D). repeat split; try assumption.
    constructor; [apply quiet_intro; [reflexivity|intros ?; reflexivity]|exact D].
  - right. destruct Hr as (pre & project & rest & i & stored & w0 & tail & Ht & Hw & Hrest).
    exists (EvIo (DbQuery (SelectSessionUser (hashSessionToken token))) true :: pre),
      project, rest, i, stored, w0, tail.
    split; [rewrite Ht; reflexivity|]. split; [exact Hw|].
    destruct Hrest as (A & Hrest). split; [|exact Hrest].
    constructor; [apply quiet_intro; [reflexivity|intros ?; reflexivity]|exact A].
Qed.

(** ** Counting in the trace of the route *)

Lemma quiet_count id f l :
  (forall e, f e = true -> is_removal e = true) ->
  Forall (quiet id) l -> count_events f l = 0%nat.
Proof.
  intros Hf. induction 1 as [|e l [Hq _] _ IH]; [reflexivity|].
  rewrite count_events_cons, IH. destruct (f e) eqn:E; [|reflexivity].
  apply Hf in E. congruence.
Qed.

Lemma quiet_no_update id ok l :
  Forall (quiet id) l -> existsb (is_cover_update id ok) l = false.
Proof.
  induction 1 as [|e l [_ Hq] _ IH]; [reflexivity|]. cbn. now rewrite Hq, IH.
Qed.

Lemma quiet_no_removal id l :
  Forall (quiet id) l -> Forall (fun e => is_removal e = false) l.
Proof. intros Hq. eapply Forall_impl; [exact Hq|]. now intros e [? _]. Qed.

Lemma r2_delete_is_removal k e : is_r2_delete k e = true -> is_removal e = true.
Proof. destruct e as [[]| | |]; cbn; congruence. Qed.

Lemma unlink_is_removal p e : is_unlink p e = true -> is_removal e = true.
Proof. destruct e as [[]| | |]; cbn; congruence. Qed.

(** A removal that follows a prefix without removals and an event [u]
    that is none comes after [u]. *)
Lemma removal_after pre u rest a e b :
  pre ++ u :: rest = a ++ e :: b ->
  is_removal e = true -> is_removal u = false ->
  Forall (fun x => is_removal x = false) pre -> In u a.
Proof.
  intros Heq He Hu Hpre. revert a Heq.
  induction Hpre as [|x pre Hx _ IH]; intros [|y a] Heq; cbn in Heq;
    injection Heq as -> Heq.
  - congruence.
  - now left.
  - congruence.
  - right. now apply IH.
Qed.

Lemma previous_key_no_update id ok previousKey newKey :
  existsb (is_cover_update id ok) (previous_key_trace cfg env previousKey newKey) = false.
Proof.
  unfold previous_key_trace, r2_cleanup_trace.
  repeat match goal with |- context [if ?b then _ else _] => destruct b end; reflexivity.
Qed.

Lemma previous_file_no_update id ok previousUrl newUrl files :
  existsb (is_cover_update id ok) (previous_file_trace cfg env previousUrl newUrl files)
  = false.
Proof.
  unfold previous_file_trace, unlink_cleanup_trace.
  destruct (previous_file_due _ _); [|reflexivity].
  destruct (resolveUploadsPath _ _); [|reflexivity].
  destruct (bool_decide _); reflexivity.
Qed.

Lemma previous_key_removals previousKey newKey :
  R2_ENABLED cfg = true ->
  forall k, count_events (is_r2_delete k) (previous_key_trace cfg env previousKey newKey)
            = if previous_key_due previousKey newKey
                 && String.eqb (default "" previousKey) k
              then 1%nat else 0%nat.
Proof.
  intros HR k. unfold previous_key_trace.
  destruct (previous_key_due _ _); [|reflexivity].
  now rewrite r2_cleanup_count.
Qed.

Lemma previous_key_unlinks previousKey newKey p :
  count_events (is_unlink p) (previous_key_trace cfg env previousKey newKey) = 0%nat.
Proof.
  unfold previous_key_trace, r2_cleanup_trace.
  repeat match goal with |- context [if ?b then _ else _] => destruct b end; reflexivity.
Qed.

Lemma previous_file_deletes previousUrl newUrl files k :
  count_events (is_r2_delete k) (previous_file_trace cfg env previousUrl newUrl files)
  = 0%nat.
Proof.
  unfold previous_file_trace, unlink_cleanup_trace.
  destruct (previous_file_due _ _); [|reflexivity].
  destruct (resolveUploadsPath _ _); [|reflexivity].
  destruct (bool_decide _); reflexivity.
Qed.

Lemma previous_file_unlinks previousUrl newUrl files p :
  count_events (is_unlink p) (previous_file_trace cfg env previousUrl newUrl files)
  = if previous_file_due previousUrl newUrl then
      match resolveUploadsPath cfg (default "" previousUrl) with
      | Ok p' => if bool_decide (p' ∈ files) && String.eqb p' p then 1%nat else 0%nat
      | Throw _ => 0%nat
      end
    else 0%nat.
Proof.
  unfold previous_file_trace, unlink_cleanup_trace.
  destruct (previous_file_due _ _); [|reflexivity].
  destruct (resolveUploadsPath _ _) as [p'|]; [|reflexivity].
  destruct (bool_decide _); [|reflexivity].
  unfold count_events. cbn. now destruct (String.eqb p' p).
Qed.

Lemma previous_key_due_new previousKey newKey :
  previous_key_due previousKey newKey = true -> newKey <> None.
Proof.
  unfold previous_key_due. destruct newKey; [discriminate|].
  cbn. rewrite andb_false_r. discriminate.
Qed.

(** The three shapes of a run of the route: the [UPDATE] is never
    reached; it is reached and fails; it is reached and succeeds. *)
Lemma cover_cases req w :
  let run := handler cfg env CGenerateCover req w in
  let id := params_id req in
  let update := DbQuery (UpdateProjectCover id) in
  (db (world_of run) = db w /\ bucket w ⊆ bucket (world_of run) /\
   disk w ⊆ disk (world_of run) /\ Forall (quiet id) (trace_of run))
  \/
  (exists pre tail,
      trace_of run = pre ++ EvIo update false :: tail /\
      Forall (quiet id) pre /\ Forall (quiet id) tail /\
      db (world_of run) = db w /\ bucket w ⊆ bucket (world_of run) /\
      disk w ⊆ disk (world_of run))
  \/
  (exists pre project rest i stored w0 tail,
      let newUrl := stored_url (cover_source env) stored in
      let newKey := stored_key stored in
      trace_of run
      = pre ++ EvIo update true
            :: (previous_key_trace cfg env (cover_object_key project) newKey
                ++ previous_file_trace cfg env (cover_url project) newUrl (disk w0))
            ++ tail /\
      Forall (quiet id) pre /\ Forall (quiet id) tail /\
      world_of run
      = {| db := Sql.update_project_cover newUrl newKey i (db w);
           bucket := previous_key_bucket cfg env (cover_object_key project) newKey
                       (bucket w0);
           disk := previous_file_disk cfg env (cover_url project) newUrl (disk w0) |} /\
      bucket w ⊆ bucket w0 /\ disk w ⊆ disk w0 /\
      int4_in id = Some i /\ Sql.select_project i (db w) = project :: rest /\
      (newKey <> None -> R2_ENABLED cfg = true)).
Proof.
  cbv zeta.
  destruct (cover_decompose req w)
    as [Hq|(pre & project & rest & i & stored & w0 & tail & Ht & Hw & Hpre & Htail
            & Hdb & Hb & Hd & Hi & Hsel & HR)]; [now left|].
  right. cbv zeta in Ht, Hw. rewrite Ht, Hw, commit_run. cbv zeta. rewrite Hi.
  destruct (fails env (DbQuery (UpdateProjectCover (params_id req)))).
  - left. exists pre, tail. unfold world_of, trace_of. cbn [fst snd app].
    repeat split; assumption.
  - right.
    destruct (fails env (DbQuery (SelectProjectWithOwner (Some i)))).
    + exists pre, project, rest, i, stored, w0,
        (EvIo (DbQuery (SelectProjectWithOwner (Some i))) false :: tail).
      unfold world_of, trace_of. cbn [fst snd]. rewrite Hdb.
      split; [cbn [app]; now rewrite <- !app_assoc|].
      split; [assumption|].
      split; [constructor;
              [apply quiet_intro; [reflexivity|intros ?; reflexivity]|assumption]|].
      repeat split; assumption.
    + exists pre, project, rest, i, stored, w0,
        (EvIo (DbQuery (SelectProjectWithOwner (Some i))) true
         :: EvSend 200
              (JsonProject
                 (head (Sql.select_project_with_owner i
                          (Sql.update_project_cover
                             (stored_url (cover_source env) stored)
                             (stored_key stored) i (db w0)))))
         :: tail).
      unfold world_of, trace_of. cbn [fst snd db]. rewrite Hdb.
      split; [cbn [app]; now rewrite <- !app_assoc|].
      split; [assumption|].
      split; [do 2 (constructor;
              [apply quiet_intro; [reflexivity|intros ?; reflexivity]|]); assumption|].
      repeat split; assumption.
Qed.

(** C1 (amended). In a run of the replace-cover route:
    - every removal request (a remote delete or a local unlink) is
      issued after the successful [UPDATE] of the cover pointer;
    - when the [UPDATE] fails, the database is as before (so the
      pointer is unchanged), no removal is requested, and nothing
      stored before is lost;
    - when the [UPDATE] succeeds, the row carries the new pointer; a
      delete of the previous object is requested exactly once when the
      previous and the new object key are both set and differ, and not
      at all otherwise; the object is gone when that request goes
      through, and stays, with a log line, when it fails; an unlink of
      the previous local file is requested at most once, only for a
      previous URL under [/uploads/covers/] that differs from the new
      one, and exactly once when that file exists. *)
Theorem replace_cover_ordering req w :
  let run := handler cfg env CGenerateCover req w in
  let id := params_id req in
  let t := trace_of run in
  (forall a e b, t = a ++ e :: b -> is_removal e = true ->
                 existsb (is_cover_update id true) a = true) /\
  (existsb (is_cover_update id false) t = true ->
   db (world_of run) = db w /\ count_events is_removal t = 0%nat /\
   bucket w ⊆ bucket (world_of run) /\ disk w ⊆ disk (world_of run)) /\
  (existsb (is_cover_update id true) t = true ->
   exists i project rest stored,
     let newUrl := stored_url (cover_source env) stored in
     let newKey := stored_key stored in
     let previousKey := default "" (cover_object_key project) in
     let previousUrl := default "" (cover_url project) in
     int4_in id = Some i /\ Sql.select_project i (db w) = project :: rest /\
     db (world_of run) = Sql.update_project_cover newUrl newKey i (db w) /\
     (forall k, count_events (is_r2_delete k) t
                = if previous_key_due (cover_object_key project) newKey
                     && String.eqb previousKey k
                  then 1%nat else 0%nat) /\
     (previous_key_due (cover_object_key project) newKey = true ->
      if fails env (R2Delete previousKey) then
        In (EvLog "Failed to delete previous R2 cover:") t /\
        (previousKey ∈ bucket w -> previousKey ∈ bucket (world_of run))
      else previousKey ∉ bucket (world_of run)) /\
     (forall p, (count_events (is_unlink p) t <= 1)%nat /\
                (count_events (is_unlink p) t = 1%nat ->
                 previous_file_due (cover_url project) newUrl = true /\
                 resolveUploadsPath cfg previousUrl = Ok p)) /\
     (forall p, previous_file_due (cover_url project) newUrl = true ->
                resolveUploadsPath cfg previousUrl = Ok p -> p ∈ disk w ->
                count_events (is_unlink p) t = 1%nat /\
                (fails env (FsUnlink p) = false -> p ∉ disk (world_of run)))).
Proof.
  cbv zeta.
  destruct (cover_cases req w)
    as [(Hdb & Hb & Hd & Hq)
       |[(pre & tail & Ht & Hpre & Htail & Hdb & Hb & Hd)
        |(pre & project & rest & i & stored & w0 & tail & Ht & Hpre & Htail & Hw
          & Hb & Hd & Hi & Hsel & HR)]].
  - (* the update is never reached *)
    split; [|split].
    + intros a e b Heq He. rewrite Heq in Hq.
      apply quiet_no_removal in Hq. apply Forall_app in Hq as [_ Hq].
      apply Forall_cons in Hq as [Hq _]. congruence.
    + rewrite (quiet_no_update (params_id req) _ _ Hq). discriminate.
    + rewrite (quiet_no_update (params_id req) _ _ Hq). discriminate.
  - (* the update fails *)
    split; [|split].
    + intros a e b Heq He. rewrite Ht in Heq.
      assert (Hall : Forall (fun x => is_removal x = false)
                       (pre ++ EvIo (DbQuery (UpdateProjectCover (params_id req))) false
                            :: tail)).
      { apply Forall_app. split; [now apply quiet_no_removal with (id := params_id req)|].
        constructor; [reflexivity|now apply quiet_no_removal with (id := params_id req)]. }
      rewrite Heq in Hall. apply Forall_app in Hall as [_ Hall].
      apply Forall_cons in Hall as [Hall _]. congruence.
    + intros _. split; [exact Hdb|]. split; [|split; assumption].
      rewrite Ht, count_events_app, count_events_cons.
      rewrite (quiet_count (params_id req) is_removal pre),
        (quiet_count (params_id req) is_removal tail); auto.
    + rewrite Ht, existsb_app. cbn [existsb].
      rewrite (quiet_no_update (params_id req) true pre Hpre),
        (quiet_no_update (params_id req) true tail Htail). cbn [is_cover_update].
      rewrite String.eqb_refl. cbn. discriminate.
  - (* the update succeeds *)
    cbv zeta in Ht, Hw.
    set (newUrl := stored_url (cover_source env) stored) in *.
    set (newKey := stored_key stored) in *.
    set (update := EvIo (DbQuery (UpdateProjectCover (params_id req))) true) in *.
    split; [|split].
    + intros a e b Heq He. rewrite Ht in Heq.
      apply existsb_exists. exists update. split.
      * eapply removal_after; [exact Heq|exact He|reflexivity|].
        now apply quiet_no_removal with (id := params_id req).
      * subst update. cbn. now rewrite String.eqb_refl.
    + rewrite Ht, existsb_app. cbn [existsb]. rewrite !existsb_app.
      rewrite (quiet_no_update (params_id req) false pre Hpre),
        (quiet_no_update (params_id req) false tail Htail).
      rewrite previous_key_no_update, previous_file_no_update.
      subst update. cbn [is_cover_update]. rewrite String.eqb_refl. cbn. discriminate.
    + intros _. exists i, project, rest, stored. cbv zeta.
      fold newUrl newKey.
      split; [exact Hi|]. split; [exact Hsel|].
      split; [now rewrite Hw|].
      assert (Hcount : forall f,
                 (forall e, f e = true -> is_removal e = true) ->
                 count_events f (trace_of (handler cfg env CGenerateCover req w))
                 = (count_events f
                      (previous_key_trace cfg env (cover_object_key project) newKey)
                    + count_events f
                        (previous_file_trace cfg env (cover_url project) newUrl
                           (disk w0)))%nat).
      { intros f Hf. rewrite Ht, count_events_app, count_events_cons, !count_events_app.
        rewrite (quiet_count (params_id req) f pre), (quiet_count (params_id req) f tail)
          by assumption.
        destruct (f update) eqn:E; [apply Hf in E; discriminate|]. lia. }
      split; [|split; [|split]].
      * intros k. rewrite (Hcount _ (r2_delete_is_removal k)).
        rewrite previous_file_deletes, Nat.add_0_r.
        destruct (previous_key_due (cover_object_key project) newKey) eqn:Hdue.
        -- rewrite previous_key_removals, Hdue; [reflexivity|].
           apply HR. now apply previous_key_due_new in Hdue.
        -- unfold previous_key_trace. now rewrite Hdue.
      * intros Hdue. pose proof (HR (previous_key_due_new _ _ Hdue)) as HR'.
        rewrite Hw, Ht. cbn [bucket].
        unfold previous_key_bucket, previous_key_trace, r2_cleanup_bucket,
          r2_cleanup_trace.
        rewrite Hdue, HR'.
        destruct (fails env (R2Delete (default "" (cover_object_key project)))).
        -- cbn [negb andb]. split; [|intros Hin; now apply Hb].
           rewrite in_app_iff. right. right. cbn. auto.
        -- cbn [negb andb]. rewrite elem_of_difference, elem_of_singleton. tauto.
      * intros p. rewrite (Hcount _ (unlink_is_removal p)).
        rewrite previous_key_unlinks, previous_file_unlinks. cbn [Nat.add].
        destruct (previous_file_due (cover_url project) newUrl);
          [|split; [lia|discriminate]].
        destruct (resolveUploadsPath cfg (default "" (cover_url project))) as [p'|];
          [|split; [lia|discriminate]].
        destruct (bool_decide (p' ∈ disk w0)); cbn [andb];
          [|split; [lia|discriminate]].
        destruct (String.eqb p' p) eqn:E; [|split; [lia|discriminate]].
        apply String.eqb_eq in E. subst p'. split; [lia|]. now intros _.
      * intros p Hdue Hres Hin. rewrite (Hcount _ (unlink_is_removal p)).
        rewrite previous_key_unlinks, previous_file_unlinks, Hdue, Hres. cbn [Nat.add].
        assert (Hin0 : p ∈ disk w0) by now apply Hd.
        rewrite (bool_decide_eq_true_2 _ Hin0), String.eqb_refl. cbn [andb].
        split; [reflexivity|]. intros Hf. rewrite Hw. cbn [disk].
        unfold previous_file_disk, unlink_cleanup_disk. rewrite Hdue, Hres.
        rewrite (bool_decide_eq_true_2 _ Hin0), Hf. cbn [negb andb].
        rewrite elem_of_difference, elem_of_singleton. tauto.
Qed.

End ReplaceCover.

(** C1, as stated, fails on "the previous object is deleted exactly
    once".  With local storage the new cover has no object key, so the
    delete of a previous object is not requested at all although the
    previous cover had one; and with the remote store a delete that
    fails is logged and swallowed.  In both runs the [UPDATE] succeeds,
    the row points at a new cover, the answer is 200 and the previous
    object is still in the bucket. *)
Lemma previous_cover_object_survives :
  let previous :=
    Demo.project 7 "song" "/uploads/a.wav" None
      (Some "https://cdn.example/prod/covers/7-1.png") (Some "prod/covers/7-1.png") in
  let w := Demo.world [previous] ["prod/covers/7-1.png"] [] in
  let req := Demo.request "7" None None in
  let local := @handler Demo.platform Demo.cfg_local (Demo.env_at 10 Demo.no_fault)
                 CGenerateCover req w in
  let remote := @handler Demo.platform Demo.cfg_r2 (Demo.env_at 10 fail_r2_deletes)
                  CGenerateCover req w in
  (In (EvIo (DbQuery (UpdateProjectCover "7")) true) (trace_of local) /\
   map cover_url (projects (db (world_of local)))
   = [Some "/uploads/covers/10-project-7-c3c3c3c3c3c3c3c3.png"] /\
   map cover_object_key (projects (db (world_of local))) = [None] /\
   count_events is_removal (trace_of local) = 0%nat /\
   "prod/covers/7-1.png" ∈ bucket (world_of local)) /\
  (In (EvIo (DbQuery (UpdateProjectCover "7")) true) (trace_of remote) /\
   map cover_object_key (projects (db (world_of remote)))
   = [Some "prod/covers/project-7/10-project-7-c3c3c3c3c3c3c3c3.png"] /\
   List.filter is_removal (trace_of remote)
   = [EvIo (R2Delete "prod/covers/7-1.png") false] /\
   "prod/covers/7-1.png" ∈ bucket (world_of remote)).
Proof.
  cbv zeta. split.
  - split; [vm_compute; tauto|]. split; [vm_compute; reflexivity|].
    split; [vm_compute; reflexivity|]. split; [vm_compute; reflexivity|].
    refine (bool_decide_unpack _ _). vm_compute. exact Logic.I.
  - split; [vm_compute; tauto|]. split; [vm_compute; reflexivity|].
    split; [vm_compute; reflexivity|].
    refine (bool_decide_unpack _ _). vm_compute. exact Logic.I.
Qed.

Lemma replace_cover_ordering_witness :
  let previous :=
    Demo.project 7 "song" "/uploads/a.wav" None
      (Some "https://cdn.example/prod/covers/7-1.png") (Some "prod/covers/7-1.png") in
  let w := Demo.world [previous] ["prod/covers/7-1.png"] [] in
  let run := @handler Demo.platform Demo.cfg_r2 (Demo.env_at 10 Demo.no_fault)
               CGenerateCover (Demo.request "7" None None) w in
  existsb (is_cover_update "7" true) (firstn 4 (trace_of run)) = true /\
  count_events (is_r2_delete "prod/covers/7-1.png") (trace_of run) = 1%nat /\
  "prod/covers/7-1.png" ∉ bucket (world_of run).
Proof.
  cbv zeta.
  destruct (@replace_cover_ordering Demo.platform Demo.cfg_r2
              (Demo.env_at 10 Demo.no_fault) (Demo.request "7" None None)
              (Demo.world
                 [Demo.project 7 "song" "/uploads/a.wav" None
                    (Some "https://cdn.example/prod/covers/7-1.png")
                    (Some "prod/covers/7-1.png")]
                 ["prod/covers/7-1.png"] []))
    as (Hord & _ & Hok).
  split.
  - eapply Hord with (e := EvIo (R2Delete "prod/covers/7-1.png") true);
      [vm_compute; reflexivity|reflexivity].
  - destruct Hok as (i & project & rest & stored & Hi & Hsel & Hdb & Hkey & Hgone & _).
    + vm_compute. reflexivity.
    + injection Hi as <-. vm_compute in Hsel. injection Hsel as <- <-.
      assert (Hnew : stored_key stored
                     = Some "prod/covers/project-7/10-project-7-c3c3c3c3c3c3c3c3.png").
      { apply (f_equal (fun d => map cover_object_key (projects d))) in Hdb.
        vm_compute in Hdb. injection Hdb as Hdb. symmetry. exact Hdb. }
      rewrite Hnew in Hkey. rewrite Hnew in Hgone.
      split; [exact (Hkey "prod/covers/7-1.png")|].
      exact (Hgone eq_refl).
Defined.

(** * URLs and object keys *)

Lemma length_append_s (a b : string) :
  String.length (a +:+ b) = (String.length a + String.length b)%nat.
Proof.
  induction a as [|c a IH]; [reflexivity|].
  rewrite app_cons. cbn [String.length]. now rewrite IH.
Qed.

Lemma strip_leading_decompose s :
  exists m, s = slashes m +:+ strip_leading_slashes s.
Proof.
  induction s as [|c s (m & IH)]; [now exists 0%nat|].
  cbn [strip_leading_slashes]. destruct (Ascii.eqb c "/") eqn:E.
  - apply Ascii.eqb_eq in E. subst c. exists (S m). cbn [slashes].
    rewrite app_cons. now f_equal.
  - now exists 0%nat.
Qed.

Lemma strip_leading_no_slash s : Js.startsWith (strip_leading_slashes s) "/" = false.
Proof.
  unfold Js.startsWith. induction s as [|c s IH]; [reflexivity|].
  cbn [strip_leading_slashes]. destruct (Ascii.eqb c "/") eqn:E; [exact IH|].
  destruct (String.prefix "/" (String c s)) eqn:Hp; [|reflexivity].
  apply prefix_cons in Hp as [<- _]. now rewrite Ascii.eqb_refl in E.
Qed.

Lemma strip_leading_id s :
  Js.startsWith s "/" = false -> strip_leading_slashes s = s.
Proof.
  unfold Js.startsWith. destruct s as [|c s]; [reflexivity|]. intros Hp.
  cbn [strip_leading_slashes]. destruct (Ascii.eqb c "/") eqn:E; [|reflexivity].
  apply Ascii.eqb_eq in E. subst c.
  assert (String.prefix "/" (String "/" s) = true) as Ht
    by (apply prefix_cons; split; [reflexivity|now destruct s]).
  congruence.
Qed.

Lemma strip_trailing_decompose s :
  exists n, s = strip_trailing_slashes s +:+ slashes n.
Proof.
  induction s as [|c s (n & IH)]; [now exists 0%nat|].
  cbn [strip_trailing_slashes].
  destruct (strip_trailing_slashes s) as [|d t] eqn:Hs.
  - destruct (Ascii.eqb c "/") eqn:E.
    + apply Ascii.eqb_eq in E. subst c. exists (S n). cbn [slashes].
      rewrite app_nil_l in *. now f_equal.
    + exists n. rewrite app_cons. now f_equal.
  - exists n. rewrite app_cons. now f_equal.
Qed.

Lemma strip_trailing_last s : last_char (strip_trailing_slashes s) <> Some "/"%char.
Proof.
  induction s as [|c s IH]; [discriminate|].
  cbn [strip_trailing_slashes].
  destruct (strip_trailing_slashes s) as [|d t] eqn:Hs.
  - destruct (Ascii.eqb c "/") eqn:E; [discriminate|].
    cbn. intros [= ->]. now rewrite Ascii.eqb_refl in E.
  - exact IH.
Qed.

(** X1. [joinUrl] joins its arguments with exactly one separator,
    whatever separators they carry at the joint: the base loses all its
    trailing slashes, the path all its leading ones, nothing else is
    changed. *)
Theorem joinUrl_single_separator (base pathPart : string) :
  exists b p n m,
    base = b +:+ slashes n /\ pathPart = slashes m +:+ p /\
    last_char b <> Some "/"%char /\ Js.startsWith p "/" = false /\
    joinUrl base pathPart = b +:+ "/" +:+ p.
Proof.
  destruct (strip_trailing_decompose base) as (n & Hb).
  destruct (strip_leading_decompose pathPart) as (m & Hp).
  exists (strip_trailing_slashes base), (strip_leading_slashes pathPart), n, m.
  split; [exact Hb|]. split; [exact Hp|].
  split; [apply strip_trailing_last|]. split; [apply strip_leading_no_slash|].
  reflexivity.
Qed.

Lemma strip_trailing_head c s :
  Ascii.eqb c "/" = false ->
  exists t, strip_trailing_slashes (String c s) = String c t.
Proof.
  intros E. cbn [strip_trailing_slashes].
  destruct (strip_trailing_slashes s); rewrite ?E; eauto.
Qed.

Lemma startsWith_slash c s :
  Js.startsWith (String c s) "/" = Ascii.eqb c "/".
Proof.
  unfold Js.startsWith. destruct (Ascii.eqb c "/") eqn:E.
  - apply Ascii.eqb_eq in E. subst c. apply prefix_cons. split; [reflexivity|now destruct s].
  - destruct (String.prefix "/" (String c s)) eqn:Hp; [|reflexivity].
    apply prefix_cons in Hp as [<- _]. now rewrite Ascii.eqb_refl in E.
Qed.

(** X2. The public URL of an object key built by [buildR2ObjectKey] is
    the base URL (without trailing slashes), one slash, and the key
    itself, so the URL names the object, provided the configured prefix
    does not begin with a slash.  With a prefix that begins with a
    slash the key begins with one too, and the URL drops it: it no
    longer names the key. *)
Theorem public_url_names_key (cfg : Config) (key : string) :
  let objectKey := buildR2ObjectKey cfg key in
  let base := strip_trailing_slashes (default "" (R2_PUBLIC_BASE_URL cfg)) in
  (Js.startsWith (default "" (R2_PREFIX cfg)) "/" = false ->
   Js.startsWith objectKey "/" = false /\
   buildR2PublicUrl cfg objectKey = base +:+ "/" +:+ objectKey) /\
  (Js.startsWith (default "" (R2_PREFIX cfg)) "/" = true ->
   Js.startsWith objectKey "/" = true /\
   buildR2PublicUrl cfg objectKey <> base +:+ "/" +:+ objectKey).
Proof.
  cbv zeta. unfold buildR2PublicUrl, joinUrl, buildR2ObjectKey.
  destruct (R2_PREFIX cfg) as [[|c prefix]|]; cbn [default from_option id Js.truthy String.eqb negb].
  - split; [|discriminate]. intros _. split; [apply strip_leading_no_slash|].
    now rewrite (strip_leading_id _ (strip_leading_no_slash key)).
  - rewrite startsWith_slash. split; intros E.
    + destruct (strip_trailing_head c prefix E) as (t & ->).
      rewrite app_cons, startsWith_slash. split; [exact E|].
      cbn [strip_leading_slashes]. now rewrite E.
    + apply Ascii.eqb_eq in E. subst c.
      assert (Hk : exists rest,
                 strip_trailing_slashes (String "/" prefix) +:+ "/"
                 +:+ strip_leading_slashes key = String "/" rest).
      { cbn [strip_trailing_slashes]. destruct (strip_trailing_slashes prefix).
        - cbn. eauto.
        - rewrite app_cons. eauto. }
      destruct Hk as (rest & ->). rewrite startsWith_slash.
      split; [reflexivity|]. intros Heq.
      apply (f_equal (fun s => String.length s)) in Heq.
      rewrite !length_append_s in Heq.
      destruct (strip_leading_decompose (String "/" rest)) as (m & Hm).
      destruct m as [|m].
      * cbn [slashes] in Hm. rewrite app_nil_l in Hm.
        pose proof (strip_leading_no_slash (String "/" rest)) as Hn.
        rewrite <- Hm, startsWith_slash in Hn. discriminate.
      * apply (f_equal (fun s => String.length s)) in Hm.
        rewrite length_append_s in Hm. cbn [slashes String.length] in Hm.
        cbn [String.length] in Heq. lia.
  - split; [|discriminate]. intros _. split; [apply strip_leading_no_slash|].
    now rewrite (strip_leading_id _ (strip_leading_no_slash key)).
Qed.

Lemma public_url_names_key_witness :
  Js.startsWith (buildR2ObjectKey Demo.cfg_r2 "/audio/10-ab.wav") "/" = false /\
  buildR2PublicUrl Demo.cfg_r2 (buildR2ObjectKey Demo.cfg_r2 "/audio/10-ab.wav")
  = "https://cdn.example/prod/audio/10-ab.wav".
Proof.
  destruct (public_url_names_key Demo.cfg_r2 "/audio/10-ab.wav") as [H _].
  destruct (H eq_refl) as [H1 H2]. split; [exact H1|]. rewrite H2. reflexivity.
Defined.

(** * File extensions *)

Lemma getSafeFileExtension_eq fname :
  getSafeFileExtension fname
  = match Js.toLowerCase (extname fname) with
    | String c rest =>
        if Ascii.eqb c "." && (1 <=? String.length rest)%nat
           && (String.length rest <=? 10)%nat && all_chars is_lower_alnum rest
        then String c rest else ""
    | EmptyString => ""
    end.
Proof.
  unfold getSafeFileExtension.
  destruct (Js.toLowerCase (extname fname)) as [|c rest]; [reflexivity|].
  change (negb (Js.truthy (String c rest))) with false. cbv iota.
  destruct c as [[] [] [] [] [] [] [] []]; try reflexivity.
Qed.

Lemma lower_alnum_char c :
  is_lower_alnum c = true ->
  Ascii.eqb c "/" = false /\ Ascii.eqb c "." = false /\ Js.lower_char c = c.
Proof.
  destruct c as [[] [] [] [] [] [] [] []]; vm_compute; intros; repeat split; congruence.
Qed.

Lemma lower_alnum_string s :
  all_chars is_lower_alnum s = true ->
  has_char "/" s = false /\ has_char "." s = false /\ Js.toLowerCase s = s.
Proof.
  induction s as [|c s IH]; [now repeat split|].
  cbn [all_chars has_char Js.toLowerCase]. intros H.
  apply andb_prop in H as [Hc Hs]. destruct (IH Hs) as (A & B & C).
  destruct (lower_alnum_char c Hc) as (A' & B' & C').
  rewrite A, B, C, A', B', C'. now repeat split.
Qed.

Lemma last_dot_none s : has_char "." s = false -> last_dot_suffix s = None.
Proof.
  induction s as [|c s IH]; [reflexivity|]. cbn [has_char last_dot_suffix].
  intros H. apply orb_false_iff in H as [Hc Hs]. now rewrite (IH Hs), Hc.
Qed.

Lemma last_dot_found s rest :
  has_char "." rest = false ->
  last_dot_suffix (s +:+ String "." rest) = Some (String "." rest).
Proof.
  intros Hr. induction s as [|c s IH].
  - rewrite app_nil_l. cbn [last_dot_suffix]. now rewrite (last_dot_none _ Hr).
  - rewrite app_cons. cbn [last_dot_suffix]. now rewrite IH.
Qed.

Lemma has_char_app c a b : has_char c (a +:+ b) = has_char c a || has_char c b.
Proof.
  induction a as [|d a IH]; [reflexivity|].
  rewrite app_cons. cbn [has_char]. rewrite IH. now rewrite orb_assoc.
Qed.

Lemma eqb_length a b : (a =? b)%string = true -> String.length a = String.length b.
Proof. intros H. apply String.eqb_eq in H. now subst. Qed.

(** The extension of a last component [name.rest]. *)
Lemma extname_last dirs name rest :
  name <> "" -> has_char "/" name = false -> rest <> "" ->
  has_char "/" rest = false -> has_char "." rest = false ->
  List.last (List.filter Js.truthy (dirs ++ [name +:+ String "." rest])) ""
  = name +:+ String "." rest ->
  match name +:+ String "." rest with
  | String _ tl =>
      if ((name +:+ String "." rest) =? "..")%string then ""
      else default "" (last_dot_suffix tl)
  | EmptyString => ""
  end = String "." rest.
Proof.
  intros Hn _ Hr _ Hd _. destruct name as [|c name]; [contradiction|].
  rewrite app_cons.
  destruct (String c (name +:+ String "." rest) =? "..")%string eqn:E.
  - apply eqb_length in E. cbn [String.length] in E.
    rewrite length_append_s in E. cbn [String.length] in E.
    destruct rest; [contradiction|]. cbn [String.length] in E. lia.
  - now rewrite last_dot_found.
Qed.

Lemma last_component dirs x :
  x <> "" -> List.last (List.filter Js.truthy (dirs ++ [x])) "" = x.
Proof.
  intros Hx. rewrite List.filter_app. cbn [List.filter].
  rewrite (truthy_nonempty _ Hx). apply List.last_last.
Qed.

Lemma extname_of dirs name rest :
  name <> "" -> has_char "/" name = false -> rest <> "" ->
  has_char "/" rest = false -> has_char "." rest = false ->
  forall p, Js.split "/" p = dirs ++ [name +:+ String "." rest] ->
            extname p = String "." rest.
Proof.
  intros Hn Hns Hr Hrs Hd p Hp. unfold extname. rewrite Hp.
  assert (Hx : name +:+ String "." rest <> "").
  { destruct name; [contradiction|discriminate]. }
  rewrite (last_component dirs _ Hx).
  apply (extname_last dirs); try assumption. now apply last_component.
Qed.

(** X3. [getSafeFileExtension] returns either nothing or a dot followed
    by one to ten characters of [a-z0-9], so its result never holds a
    path separator; and it is stable: a name that ends with a non-empty
    result, alone or after a directory, has that result as its safe
    extension. *)
Theorem getSafeFileExtension_safe (fname : string) :
  let ext := getSafeFileExtension fname in
  (ext = "" \/
   exists rest, ext = String "." rest /\
                (1 <= String.length rest <= 10)%nat /\
                all_chars is_lower_alnum rest = true) /\
  has_char "/" ext = false /\
  (ext <> "" -> forall dir name,
      name <> "" -> has_char "/" name = false ->
      getSafeFileExtension (name +:+ ext) = ext /\
      getSafeFileExtension (dir +:+ "/" +:+ name +:+ ext) = ext).
Proof.
  cbv zeta.
  assert (Hshape : getSafeFileExtension fname = "" \/
            exists rest, getSafeFileExtension fname = String "." rest /\
                (1 <= String.length rest <= 10)%nat /\
                all_chars is_lower_alnum rest = true).
  { rewrite getSafeFileExtension_eq.
    destruct (Js.toLowerCase (extname fname)) as [|c rest]; [now left|].
    destruct (Ascii.eqb c ".") eqn:Ec; [|now left].
    destruct (1 <=? String.length rest)%nat eqn:E1; [|now left].
    destruct (String.length rest <=? 10)%nat eqn:E2; [|now left].
    destruct (all_chars is_lower_alnum rest) eqn:E3; [|now left].
    right. apply Ascii.eqb_eq in Ec. subst c. exists rest.
    apply Nat.leb_le in E1, E2. cbn. repeat split; assumption. }
  split; [exact Hshape|].
  destruct Hshape as [->|(rest & -> & Hlen & Hall)].
  - split; [reflexivity|]. intros Hne. now contradiction Hne.
  - destruct (lower_alnum_string rest Hall) as (Hs & Hd & Hl).
    split; [cbn [has_char]; now rewrite Hs|].
    intros _ dir name Hn Hns.
    assert (Hr : rest <> "") by (destruct rest; [cbn in Hlen; lia|discriminate]).
    assert (Hext : forall p dirs,
               Js.split "/" p = dirs ++ [name +:+ String "." rest] ->
               getSafeFileExtension p = String "." rest).
    { intros p dirs Hp. rewrite getSafeFileExtension_eq.
      rewrite (extname_of dirs name rest Hn Hns Hr Hs Hd p Hp).
      cbn [Js.toLowerCase]. change (Js.lower_char ".") with "."%char.
      rewrite Hl, Hall. change (Ascii.eqb "." ".") with true.
      destruct Hlen as [H1 H2]. apply Nat.leb_le in H1, H2. now rewrite H1, H2. }
    assert (Hnone : has_char "/" (name +:+ String "." rest) = false).
    { rewrite has_char_app, Hns. cbn [has_char]. now rewrite Hs. }
    split.
    + apply (Hext _ []). now apply split_no_char.
    + apply (Hext _ (Js.split "/" dir)).
      change (dir +:+ "/" +:+ name +:+ String "." rest)
        with (dir +:+ String "/" (name +:+ String "." rest)).
      rewrite split_app. f_equal. now apply split_no_char.
Qed.

Lemma getSafeFileExtension_safe_witness :
  getSafeFileExtension "My Take.WAV" = ".wav" /\
  getSafeFileExtension ("audio/17-c3c3" +:+ getSafeFileExtension "My Take.WAV") = ".wav".
Proof.
  destruct (getSafeFileExtension_safe "My Take.WAV") as (_ & _ & H).
  assert (E : getSafeFileExtension "My Take.WAV" = ".wav") by (vm_compute; reflexivity).
  split; [exact E|].
  assert (Hne : getSafeFileExtension "My Take.WAV" <> "") by (rewrite E; discriminate).
  destruct (H Hne "audio" "17-c3c3" ltac:(discriminate) eq_refl) as [_ H2].
  rewrite E in H2 |- *. exact H2.
Defined.

(** * Trimming and lower case *)




Lemma length_toLowerCase s : String.length (Js.toLowerCase s) = String.length s.
Proof. induction s as [|c s IH]; [reflexivity|]. cbn [Js.toLowerCase String.length]. now rewrite IH. Qed.












(** * The Authorization header *)

Lemma join_split sep s : Js.join (String sep "") (Js.split sep s) = s.
Proof.
  induction s as [|c s IH]; [reflexivity|].
  cbn [Js.split]. pose proof (split_nonempty sep s) as Hne.
  destruct (Ascii.eqb c sep) eqn:E.
  - apply Ascii.eqb_eq in E. subst c.
    destruct (Js.split sep s) as [|x xs]; [contradiction|].
    change (Js.join (String sep "") ("" :: x :: xs))
      with ("" +:+ String sep "" +:+ Js.join (String sep "") (x :: xs)).
    now rewrite IH.
  - destruct (Js.split sep s) as [|x [|y ys]]; [contradiction| |].
    + cbn [Js.join] in *. now subst.
    + change (Js.join (String sep "") (String c x :: y :: ys))
        with (String c (x +:+ String sep "" +:+ Js.join (String sep "") (y :: ys))).
      f_equal. exact IH.
Qed.

(** X5. [getAuthTokenFromRequest] returns a token exactly for a header
    that reads [Bearer], one space, a non-empty token without a space,
    and then either nothing or a space and anything; the token is what
    it returns.  Every other header, and no header, gives none: another
    scheme (or another letter case of it), no token, or a second space
    right after the first. *)
Theorem getAuthToken_parses (req : Incoming) (token : string) :
  getAuthTokenFromRequest req = Some token <->
  token <> "" /\ has_char " " token = false /\
  (authorization req = Some ("Bearer " +:+ token) \/
   exists rest, authorization req = Some ("Bearer " +:+ token +:+ " " +:+ rest)).
Proof.
  unfold getAuthTokenFromRequest. split.
  - destruct (authorization req) as [header|]; [|discriminate].
    destruct (negb (Js.truthy header)); [discriminate|].
    pose proof (join_split " " header) as Hj.
    pose proof (split_no_sep " " header) as Hs.
    destruct (Js.split " " header) as [|scheme [|tok rest]]; try discriminate.
    destruct (String.eqb scheme "Bearer") eqn:Es; cbn [negb orb]; [|discriminate].
    destruct (Js.truthy tok) eqn:Et; cbn [negb]; [|discriminate].
    intros [= <-]. apply String.eqb_eq in Es. subst scheme.
    split; [intros ->; discriminate|].
    apply Forall_cons in Hs as [_ Hs]. apply Forall_cons in Hs as [Hs _].
    split; [exact Hs|]. rewrite <- Hj. destruct rest as [|r rest].
    + left. reflexivity.
    + right. exists (Js.join " " (r :: rest)). reflexivity.
  - intros (Hne & Hsp & [->| (rest & ->)]).
    + change (Js.truthy ("Bearer " +:+ token)) with true. cbn [negb].
      change ("Bearer " +:+ token) with ("Bearer" +:+ String " " token).
      rewrite split_app, (split_no_char _ token Hsp).
      change (Js.split " " "Bearer") with ["Bearer"]. cbn [app].
      change (String.eqb "Bearer" "Bearer") with true.
      now rewrite (truthy_nonempty _ Hne).
    + change (Js.truthy ("Bearer " +:+ token +:+ " " +:+ rest)) with true. cbn [negb].
      change ("Bearer " +:+ token +:+ " " +:+ rest)
        with ("Bearer" +:+ String " " (token +:+ String " " rest)).
      rewrite !split_app, (split_no_char _ token Hsp).
      change (Js.split " " "Bearer") with ["Bearer"]. cbn [app].
      change (String.eqb "Bearer" "Bearer") with true.
      now rewrite (truthy_nonempty _ Hne).
Qed.

(** * Access control *)

Section Access.

Context `{Platform}.
Variables (cfg : Config) (env : Env).

(** X6. A request to a route behind [requireAuth] whose token is
    absent, unreadable, unknown, expired or revoked is answered 401
    and nothing else happens: no handler runs, the world is as it
    was, and the only outside request is the session lookup (none at
    all without a readable token). *)
Theorem unauthenticated_is_refused c req w :
  requires_auth c = true ->
  (forall token,
      getAuthTokenFromRequest req = Some token ->
      fails env (DbQuery (SelectSessionUser (hashSessionToken token))) = false /\
      Sql.select_session_user (hashSessionToken token) (now env) (db w) = []) ->
  let run := handler cfg env c req w in
  world_of run = w /\ outcome run = Ok tt /\
  trace_of run
  = match getAuthTokenFromRequest req with
    | Some token => [EvIo (DbQuery (SelectSessionUser (hashSessionToken token))) true]
    | None => []
    end ++ [EvSend 401 (JsonError "Authentication required" None)].
Proof.
  intros Hc Hno. cbv zeta.
  assert (Hrun : forall hnd,
             route env true hnd req w
             = (Ok tt, w,
                match getAuthTokenFromRequest req with
                | Some token =>
                    [EvIo (DbQuery (SelectSessionUser (hashSessionToken token))) true]
                | None => []
                end ++ [EvSend 401 (JsonError "Authentication required" None)])).
  { intros hnd. rewrite route_protected_run.
    destruct (getAuthTokenFromRequest req) as [token|]; [|reflexivity].
    destruct (Hno token eq_refl) as [Hf Hs]. cbv zeta. now rewrite Hf, Hs. }
  destruct c; try discriminate Hc; cbn [handler]; rewrite Hrun; repeat split.
Qed.

(** X7. On the routes that change a project (rename, delete,
    generate cover) an authenticated caller is answered 404 when no
    project has the identifier, and 403 when the first such project
    is owned by somebody else (or by nobody) and the caller is not an
    administrator.  In both cases the world is as it was and the only
    outside requests are the two look-ups. *)
Theorem foreign_project_is_refused c req w token principal others i :
  writes_project c = true ->
  (c = CRenameProject -> exists raw, body_name req = Some raw /\ Js.trim raw <> "") ->
  getAuthTokenFromRequest req = Some token ->
  fails env (DbQuery (SelectSessionUser (hashSessionToken token))) = false ->
  Sql.select_session_user (hashSessionToken token) (now env) (db w) = principal :: others ->
  fails env (DbQuery (SelectProject (params_id req))) = false ->
  int4_in (params_id req) = Some i ->
  let run := handler cfg env c req w in
  let lookups := [EvIo (DbQuery (SelectSessionUser (hashSessionToken token))) true;
                  EvIo (DbQuery (SelectProject (params_id req))) true] in
  match Sql.select_project i (db w) with
  | [] =>
      world_of run = w /\
      trace_of run = lookups ++ [EvSend 404 (JsonError "Project not found" None)]
  | project :: _ =>
      au_role principal <> RoleAdmin ->
      user_id project <> Some (au_id principal) ->
      world_of run = w /\
      trace_of run = lookups ++ [EvSend 403 (JsonError "Forbidden" None)]
  end.
Proof.
  intros Hc Hname Htok Hf Hs Hfp Hi. cbv zeta.
  set (r := {| incoming := req; user := Some principal; sessionToken := Some token |}).
  assert (Hacc : requireProjectWriteAccess env (params_id req) principal w
                 = (Ok match Sql.select_project i (db w) with
                       | [] => Denied 404 "Project not found"
                       | project :: _ =>
                           if negb (role_eqb (au_role principal) RoleAdmin)
                              && negb (match user_id project with
                                       | Some uid => uid =? au_id principal
                                       | None => false
                                       end)
                           then Denied 403 "Forbidden" else Granted project
                       end, w, [EvIo (DbQuery (SelectProject (params_id req))) true])).
  { unfold requireProjectWriteAccess. rewrite bind_run. unfold query, with_id.
    rewrite Hfp, Hi. cbv beta iota. rewrite set_db_id.
    destruct (Sql.select_project i (db w)) as [|project rest]; [reflexivity|].
    destruct (negb _ && negb _); reflexivity. }
  assert (Hden : forall project,
             au_role principal <> RoleAdmin ->
             user_id project <> Some (au_id principal) ->
             negb (role_eqb (au_role principal) RoleAdmin)
             && negb (match user_id project with
                      | Some uid => uid =? au_id principal
                      | None => false
                      end) = true).
  { intros project Hr Hu. apply andb_true_intro. split.
    - destruct (au_role principal); [reflexivity|contradiction].
    - destruct (user_id project) as [uid|]; [|reflexivity].
      apply negb_true_iff, Z.eqb_neq. congruence. }
  assert (Hrun : forall hnd : Request -> M unit,
             (forall status message,
                 match Sql.select_project i (db w) with
                 | [] => status = 404 /\ message = "Project not found"
                 | project :: _ =>
                     au_role principal <> RoleAdmin /\
                     user_id project <> Some (au_id principal) /\
                     status = 403 /\ message = "Forbidden"
                 end ->
                 hnd r w = (Ok tt, w,
                            [EvIo (DbQuery (SelectProject (params_id req))) true;
                             EvSend status (JsonError message None)])) ->
             match Sql.select_project i (db w) with
             | [] =>
                 world_of (route env true hnd req w) = w /\
                 trace_of (route env true hnd req w)
                 = [EvIo (DbQuery (SelectSessionUser (hashSessionToken token))) true;
                    EvIo (DbQuery (SelectProject (params_id req))) true]
                   ++ [EvSend 404 (JsonError "Project not found" None)]
             | project :: _ =>
                 au_role principal <> RoleAdmin ->
                 user_id project <> Some (au_id principal) ->
                 world_of (route env true hnd req w) = w /\
                 trace_of (route env true hnd req w)
                 = [EvIo (DbQuery (SelectSessionUser (hashSessionToken token))) true;
                    EvIo (DbQuery (SelectProject (params_id req))) true]
                   ++ [EvSend 403 (JsonError "Forbidden" None)]
             end).
  { intros hnd Hh. rewrite route_protected_run, Htok. cbv zeta. rewrite Hf, Hs.
    fold r. destruct (Sql.select_project i (db w)) as [|project rest].
    - rewrite (Hh 404 "Project not found") by (split; reflexivity). split; reflexivity.
    - intros Hr Hu. rewrite (Hh 403 "Forbidden") by (repeat split; assumption).
      split; reflexivity. }
  assert (Hbody : forall (k : ProjectRow -> M unit) status message,
             match Sql.select_project i (db w) with
             | [] => status = 404 /\ message = "Project not found"
             | project :: _ =>
                 au_role principal <> RoleAdmin /\
                 user_id project <> Some (au_id principal) /\
                 status = 403 /\ message = "Forbidden"
             end ->
             (usr <- the_user r ;;
              access <- requireProjectWriteAccess env (params_id req) usr ;;
              match access with
              | Denied status message => send status (JsonError message None)
              | Granted project => k project
              end) w
             = (Ok tt, w, [EvIo (DbQuery (SelectProject (params_id req))) true;
                           EvSend status (JsonError message None)])).
  { intros k status message Hcase. rewrite bind_run. unfold the_user. cbn [r user].
    rewrite ret_run. cbv beta iota. rewrite bind_run, Hacc. cbv beta iota.
    destruct (Sql.select_project i (db w)) as [|project rest].
    - destruct Hcase as [-> ->]. reflexivity.
    - destruct Hcase as (Hr & Hu & -> & ->). rewrite (Hden project Hr Hu). reflexivity. }
  destruct c; try discriminate Hc; cbn [handler]; apply Hrun; intros status message Hcase.
  - destruct (Hname eq_refl) as (raw & Hraw & Hne).
    unfold renameProject, try_catch. cbv zeta.
    unfold body_name_trimmed. cbn [r incoming]. rewrite Hraw.
    rewrite (truthy_nonempty _ Hne). cbn [negb].
    rewrite (Hbody _ status message Hcase). reflexivity.
  - unfold deleteProject, try_catch. cbv zeta. cbn [r incoming].
    rewrite (Hbody _ status message Hcase). reflexivity.
  - unfold generateCover, try_catch. cbv zeta. cbn [r incoming].
    rewrite (Hbody _ status message Hcase). reflexivity.
Qed.

End Access.

Lemma unauthenticated_is_refused_witness :
  let req := {| authorization := Some "Bearer stale"; params_id := "12";
                body_username := None; body_password := None; body_name := None;
                file := None |} in
  let w := Demo.world [Demo.project 12 "a" "/uploads/a.wav" None None None] []
             ["/srv/app/uploads/a.wav"] in
  let run := @handler Demo.platform Demo.cfg_local (Demo.env_at 17 Demo.no_fault)
               CDeleteProject req w in
  world_of run = w /\ outcome run = Ok tt /\
  trace_of run
  = [EvIo (DbQuery (SelectSessionUser (@hashSessionToken Demo.platform "stale"))) true;
     EvSend 401 (JsonError "Authentication required" None)].
Proof.
  cbv zeta.
  apply (@unauthenticated_is_refused Demo.platform Demo.cfg_local
           (Demo.env_at 17 Demo.no_fault) CDeleteProject
           {| authorization := Some "Bearer stale"; params_id := "12";
              body_username := None; body_password := None; body_name := None;
              file := None |}
           (Demo.world [Demo.project 12 "a" "/uploads/a.wav" None None None] []
              ["/srv/app/uploads/a.wav"])).
  - reflexivity.
  - intros token Htok. vm_compute in Htok. injection Htok as <-.
    split; vm_compute; reflexivity.
Defined.

Lemma foreign_project_is_refused_witness :
  let theirs := {| p_id := 12; name := "theirs"; audio_url := "/uploads/b.wav";
                   audio_object_key := None; transcription := None;
                   emotional_analysis := None; cover_url := None;
                   cover_object_key := None; created_at := 0; user_id := Some 2 |} in
  let w := Demo.world [theirs] [] ["/srv/app/uploads/b.wav"] in
  let run := @handler Demo.platform Demo.cfg_local (Demo.env_at 17 Demo.no_fault)
               CDeleteProject (Demo.request "12" None None) w in
  world_of run = w /\
  trace_of run
  = [EvIo (DbQuery (SelectSessionUser (@hashSessionToken Demo.platform Demo.token_a))) true;
     EvIo (DbQuery (SelectProject "12")) true;
     EvSend 403 (JsonError "Forbidden" None)].
Proof.
  cbv zeta.
  apply (@foreign_project_is_refused Demo.platform Demo.cfg_local
           (Demo.env_at 17 Demo.no_fault) CDeleteProject (Demo.request "12" None None)
           (Demo.world
              [{| p_id := 12; name := "theirs"; audio_url := "/uploads/b.wav";
                  audio_object_key := None; transcription := None;
                  emotional_analysis := None; cover_url := None;
                  cover_object_key := None; created_at := 0; user_id := Some 2 |}]
              [] ["/srv/app/uploads/b.wav"])
           Demo.token_a (Sql.auth_of Demo.alice) [] 12).
  - reflexivity.
  - discriminate.
  - vm_compute. reflexivity.
  - reflexivity.
  - vm_compute. reflexivity.
  - reflexivity.
  - vm_compute. reflexivity.
  - vm_compute. discriminate.
  - vm_compute. discriminate.
Defined.

(** * The users table *)

Section Users.

Context `{Platform}.
Variable cfg : Config.

(** X8. Whatever requests are served, the users table only grows: the
    rows that were there stay as they were (name, password hash and
    role), every row added has the role [user], and user names stay
    unique.  No route creates an administrator, promotes, alters or
    deletes a user. *)
Theorem users_only_grow history w :
  let final := fst (serve cfg history w) in
  exists added,
    users (db final) = users (db w) ++ added /\
    Forall (fun row => role row = RoleUser) added /\
    (NoDup (map username (users (db w))) ->
     NoDup (map username (users (db final)))).
Proof.
  cbv zeta.
  set (I := fun d : Db =>
              exists added,
                users d = users (db w) ++ added /\
                Forall (fun row => role row = RoleUser) added /\
                (NoDup (map username (users (db w))) -> NoDup (map username (users d)))).
  assert (Hs : I (db (fst (serve cfg history w)))
               /\ Forall (fun _ => True) (snd (serve cfg history w))).
  { apply (sound_serve I (fun _ => True) (fun _ => True) cfg).
    - intros; exact Logic.I.
    - intros; exact Logic.I.
    - intros d ps seq Hd. exact Hd.
    - intros d un h t r d' (added & Hu & Hr & Hn). unfold Sql.insert_user.
      destruct (existsb _ (users d)) eqn:Ex; [discriminate|]. intros [= _ <-].
      eexists (added ++ [_]). cbn [users set_users]. split; [|split].
      + rewrite Hu, <- app_assoc. reflexivity.
      + apply Forall_app. split; [exact Hr|]. repeat constructor.
      + intros Hnd. specialize (Hn Hnd). rewrite map_app. cbn [map username].
        apply NoDup_app. split; [exact Hn|]. split; [|apply NoDup_singleton].
        intros x Hx Hk. apply list_elem_of_In in Hk. destruct Hk as [<-|[]].
        apply list_elem_of_In, in_map_iff in Hx as (y & Hy & Hin).
        assert (existsb (fun u => String.eqb (username u) un) (users d) = true).
        { apply existsb_exists. exists y. split; [exact Hin|]. now apply String.eqb_eq. }
        congruence.
    - intros d tok _ Hd. exact Hd.
    - apply Forall_forall. intros [[env c] req] _. split; [|split].
      + intros; exact Logic.I.
      + intros d uid x d' Hd. unfold Sql.insert_session.
        destruct (existsb _ _); [discriminate|].
        destruct (negb _); [discriminate|]. intros [= _ <-]. exact Hd.
      + intros; exact Logic.I.
    - exists []. rewrite app_nil_r. repeat split; [constructor|tauto]. }
  exact (proj1 Hs).
Qed.

End Users.

(** * Removing sessions *)

Lemma flat_map_filter {A B} (g : A -> list B) (f : A -> bool) (l : list A) :
  (forall x, In x l -> f x = false -> g x = []) ->
  flat_map g (List.filter f l) = flat_map g l.
Proof.
  induction l as [|x l IH]; [reflexivity|]. intros Hg.
  cbn [List.filter flat_map]. destruct (f x) eqn:E.
  - cbn [flat_map]. rewrite IH; [reflexivity|]. intros y Hy. apply Hg. now right.
  - rewrite (Hg x (or_introl eq_refl) E), IH; [reflexivity|].
    intros y Hy. apply Hg. now right.
Qed.

(** The session lookup after some sessions were removed. *)
Lemma select_after_removal (f : SessionRow -> bool) h t d seq :
  (forall s, In s (sessions d) -> f s = false ->
             String.eqb (token_hash s) h && (t <? expires_at s) = false) ->
  Sql.select_session_user h t (set_sessions d (List.filter f (sessions d)) seq)
  = Sql.select_session_user h t d.
Proof.
  intros Hf. unfold Sql.select_session_user. cbn [sessions users set_sessions].
  apply flat_map_filter. intros s Hin Hs. now rewrite (Hf s Hin Hs).
Qed.

Section Logout.

Context `{Platform}.
Variables (cfg : Config) (env : Env).

Lemma logout_world req w :
  let run := handler cfg env CLogout req w in
  world_of run = w \/
  exists presented,
    getAuthTokenFromRequest req = Some presented /\
    world_of run = set_db w (Sql.delete_session (hashSessionToken presented) (db w)).
Proof.
  cbv zeta. cbn [handler]. rewrite route_protected_run.
  destruct (getAuthTokenFromRequest req) as [token|]; [|now left].
  cbv zeta. destruct (fails env _); [now left|].
  destruct (Sql.select_session_user _ _ _) as [|row rows]; [now left|].
  unfold logout, try_catch. cbn [sessionToken]. rewrite bind_run.
  destruct (Js.truthy token).
  - unfold query. destruct (fails env _); [now left|].
    right. exists token. split; reflexivity.
  - left. reflexivity.
Qed.

(** X9. A logout touches nothing but the session of the token it
    presents: users, projects, bucket and disk are as before, no
    session is added, every session with another token hash stays,
    and every other token resolves as it did. *)
Theorem logout_leaves_other_sessions req w :
  let run := handler cfg env CLogout req w in
  users (db (world_of run)) = users (db w) /\
  projects (db (world_of run)) = projects (db w) /\
  bucket (world_of run) = bucket w /\ disk (world_of run) = disk w /\
  (forall s, In s (sessions (db (world_of run))) -> In s (sessions (db w))) /\
  (getAuthTokenFromRequest req = None -> world_of run = w) /\
  (forall presented,
      getAuthTokenFromRequest req = Some presented ->
      (forall s, In s (sessions (db w)) ->
                 token_hash s <> hashSessionToken presented ->
                 In s (sessions (db (world_of run)))) /\
      (forall h t, h <> hashSessionToken presented ->
                   Sql.select_session_user h t (db (world_of run))
                   = Sql.select_session_user h t (db w)) /\
      (forall other env',
          other <> "" -> has_char " " other = false ->
          hashSessionToken other <> hashSessionToken presented ->
          resolve env' other (world_of run) = resolve env' other w)).
Proof.
  cbv zeta. destruct (logout_world req w) as [->|(presented & Htok & ->)].
  - repeat split; try tauto; intros; reflexivity.
  - cbn [db set_db bucket disk]. unfold Sql.delete_session at 1 2.
    cbn [users projects set_sessions].
    split; [reflexivity|]. split; [reflexivity|].
    split; [reflexivity|]. split; [reflexivity|]. split; [|split].
    + intros s Hs. unfold Sql.delete_session in Hs. cbn [sessions set_sessions] in Hs.
      now apply filter_In in Hs.
    + intros Hn. congruence.
    + intros p Hp. rewrite Htok in Hp. injection Hp as <-.
      assert (Hlook : forall h t, h <> hashSessionToken presented ->
                 Sql.select_session_user h t
                   (Sql.delete_session (hashSessionToken presented) (db w))
                 = Sql.select_session_user h t (db w)).
      { intros h t Hh. unfold Sql.delete_session. apply select_after_removal.
        intros s _ Hs. apply negb_false_iff, String.eqb_eq in Hs.
        assert (E : String.eqb (token_hash s) h = false).
        { apply String.eqb_neq. congruence. }
        now rewrite E. }
      split; [|split].
      * intros s Hin Hne. unfold Sql.delete_session. cbn [sessions set_sessions].
        apply filter_In. split; [exact Hin|].
        apply negb_true_iff, String.eqb_neq, Hne.
      * exact Hlook.
      * intros other env' Hne Hsp Hh. unfold resolve, authMiddleware.
        rewrite (bearer_token other Hne Hsp). rewrite !bind_run. unfold query.
        destruct (fails env' _); [reflexivity|].
        cbn [db set_db]. rewrite (Hlook _ _ Hh). rewrite !set_db_id.
        cbn [set_db db].
        destruct (Sql.select_session_user _ _ _); reflexivity.
Qed.

End Logout.

(** X10. The purge of expired sessions that [initDb] runs is invisible
    to the session lookup: at the time of the purge and at any later
    time every token hash finds exactly the principals it found
    without the purge.  It removes exactly the sessions whose expiry
    has been reached and touches nothing else. *)
Theorem purge_is_invisible (t : Z) (d : Db) :
  let purged := delete_expired_sessions t d in
  (forall h t', t <= t' ->
                Sql.select_session_user h t' purged = Sql.select_session_user h t' d) /\
  (forall s, In s (sessions purged) <-> In s (sessions d) /\ t < expires_at s) /\
  users purged = users d /\ projects purged = projects d.
Proof.
  cbv zeta. unfold delete_expired_sessions. split; [|split; [|split; reflexivity]].
  - intros h t' Ht. apply select_after_removal. intros s _ Hs.
    apply negb_false_iff, Z.leb_le in Hs.
    assert (E : (t' <? expires_at s) = false) by (apply Z.ltb_ge; lia).
    rewrite E. apply andb_false_r.
  - intros s. cbn [sessions set_sessions]. rewrite filter_In.
    rewrite negb_true_iff, Z.leb_gt. reflexivity.
Qed.

(** * Register and login *)

Section Accounts.

Context `{Platform}.
Variables (cfg : Config) (env : Env).

(** A route that is not behind [requireAuth], in closed form. *)
Lemma route_open_run hnd req w :
  route env false hnd req w
  = match getAuthTokenFromRequest req with
    | None => hnd {| incoming := req; user := None; sessionToken := None |} w
    | Some token =>
        let lookup := DbQuery (SelectSessionUser (hashSessionToken token)) in
        if fails env lookup then
          (Ok tt, w, [EvIo lookup false; EvSend 500 (JsonError "Internal Server Error" None)])
        else
          match hnd match Sql.select_session_user (hashSessionToken token) (now env)
                            (db w) with
                    | [] => {| incoming := req; user := None; sessionToken := None |}
                    | row :: _ => {| incoming := req; user := Some row;
                                     sessionToken := Some token |}
                    end w with
          | (r, w', t) => (r, w', EvIo lookup true :: t)
          end
    end.
Proof.
  unfold route, authMiddleware. rewrite bind_run. unfold attempt.
  destruct (getAuthTokenFromRequest req) as [token|].
  - rewrite bind_run. unfold query. cbv zeta.
    destruct (fails env _); [reflexivity|]. rewrite set_db_id.
    destruct (Sql.select_session_user _ _ _) as [|row rows];
      rewrite ret_run; cbn [user andb negb app];
      match goal with |- context [hnd ?r w] => destruct (hnd r w) as [[r' w'] t] end;
      reflexivity.
  - rewrite ret_run. cbn [andb].
    destruct (hnd _ w) as [[r' w'] t]. reflexivity.
Qed.

(** [POST /api/auth/register] in closed form. *)
Lemma register_run r w :
  register cfg env r w
  = let failed := [EvLog "register"; EvSend 500 (JsonError "Failed to register" None)] in
    match normalizeUsername (body_username (incoming r)),
          validatePassword (body_password (incoming r)) with
    | Some uname, Some password =>
        let sel := DbQuery (SelectUserByName uname) in
        let ins := DbQuery (InsertUser uname) in
        if fails env sel then (Ok tt, w, EvIo sel false :: failed)
        else
          match Sql.select_user_by_name uname (db w) with
          | _ :: _ =>
              (Ok tt, w, [EvIo sel true; EvSend 409 (JsonError "Username already taken" None)])
          | [] =>
              match hashPassword env password with
              | Throw _ => (Ok tt, w, EvIo sel true :: failed)
              | Ok passwordHash =>
                  match (if fails env ins then Throw DbError
                         else Sql.insert_user uname passwordHash (now env) (db w)) with
                  | Throw _ => (Ok tt, w, EvIo sel true :: EvIo ins false :: failed)
                  | Ok (usr, d1) =>
                      let token := generateSessionToken env in
                      let tokenHash := hashSessionToken token in
                      let insS := DbQuery (InsertSession tokenHash (au_id usr)) in
                      match (if fails env insS then Throw DbError
                             else Sql.insert_session tokenHash (au_id usr)
                                    (now env + session_ttl_ms cfg) (now env) d1) with
                      | Throw _ =>
                          (Ok tt, set_db w d1,
                           EvIo sel true :: EvIo ins true :: EvIo insS false :: failed)
                      | Ok (_, d2) =>
                          (Ok tt, set_db w d2,
                           [EvIo sel true; EvIo ins true; EvIo insS true;
                            EvSend 200 (JsonAuth token usr)])
                      end
                  end
              end
          end
    | _, _ => (Ok tt, w, [EvSend 400 (JsonError "Invalid username or password" None)])
    end.
Proof.
  cbv zeta. unfold register, issue_session. unfold_monad.
  destruct (normalizeUsername _) as [uname|]; [|reflexivity].
  destruct (validatePassword _) as [password|]; [|reflexivity].
  destruct (fails env (DbQuery (SelectUserByName uname))); [reflexivity|].
  cbn [db set_db]. rewrite set_db_id.
  destruct (Sql.select_user_by_name uname (db w)); [|reflexivity].
  destruct (hashPassword env password) as [hash|e]; [|reflexivity].
  destruct (fails env (DbQuery (InsertUser uname))); [reflexivity|].
  destruct (Sql.insert_user uname hash (now env) (db w)) as [[usr d1]|e]; [|reflexivity].
  cbn [db set_db].
  destruct (fails env (DbQuery (InsertSession _ _))); [reflexivity|].
  destruct (Sql.insert_session _ _ _ _ d1) as [[[] d2]|e]; reflexivity.
Qed.

(** [POST /api/auth/login] in closed form. *)
Lemma login_run r w :
  login cfg env r w
  = let failed := [EvLog "login"; EvSend 500 (JsonError "Failed to login" None)] in
    let refused := EvSend 401 (JsonError "Invalid username or password" None) in
    match normalizeUsername (body_username (incoming r)),
          validatePassword (body_password (incoming r)) with
    | Some uname, Some password =>
        let sel := DbQuery (SelectUserByName uname) in
        if fails env sel then (Ok tt, w, EvIo sel false :: failed)
        else
          match Sql.select_user_by_name uname (db w) with
          | [] => (Ok tt, w, [EvIo sel true; refused])
          | row :: _ =>
              match verifyPassword password (password_hash row) with
              | Throw _ => (Ok tt, w, EvIo sel true :: failed)
              | Ok false => (Ok tt, w, [EvIo sel true; refused])
              | Ok true =>
                  let token := generateSessionToken env in
                  let tokenHash := hashSessionToken token in
                  let insS := DbQuery (InsertSession tokenHash (u_id row)) in
                  match (if fails env insS then Throw DbError
                         else Sql.insert_session tokenHash (u_id row)
                                (now env + session_ttl_ms cfg) (now env) (db w)) with
                  | Throw _ => (Ok tt, w, EvIo sel true :: EvIo insS false :: failed)
                  | Ok (_, d2) =>
                      (Ok tt, set_db w d2,
                       [EvIo sel true; EvIo insS true;
                        EvSend 200 (JsonAuth token (Sql.auth_of row))])
                  end
              end
          end
    | _, _ => (Ok tt, w, [EvSend 400 (JsonError "Invalid username or password" None)])
    end.
Proof.
  cbv zeta. unfold login, issue_session. unfold_monad.
  destruct (normalizeUsername _) as [uname|]; [|reflexivity].
  destruct (validatePassword _) as [password|]; [|reflexivity].
  destruct (fails env (DbQuery (SelectUserByName uname))); [reflexivity|].
  cbn [db set_db]. rewrite set_db_id.
  destruct (Sql.select_user_by_name uname (db w)) as [|row rows]; [reflexivity|].
  destruct (verifyPassword password (password_hash row)) as [[]|e]; try reflexivity.
  cbn [negb].
  destruct (fails env (DbQuery (InsertSession _ _))); [reflexivity|].
  destruct (Sql.insert_session _ _ _ _ (db w)) as [[[] d2]|e]; reflexivity.
Qed.

(** Register and login do not look at the principal of the request. *)
Lemma open_route_frame c req w :
  c = CRegister \/ c = CLogin ->
  (forall token, getAuthTokenFromRequest req = Some token ->
                 fails env (DbQuery (SelectSessionUser (hashSessionToken token))) = false) ->
  let hnd := match c with CRegister => register cfg env | _ => login cfg env end in
  let base := hnd {| incoming := req; user := None; sessionToken := None |} w in
  handler cfg env c req w
  = (outcome base, world_of base, auth_lookup req ++ trace_of base).
Proof.
  intros Hc Hf. cbv zeta.
  assert (Hr : forall hnd : Request -> M unit,
             (forall r, incoming r = req ->
                        hnd r w = hnd {| incoming := req; user := None;
                                         sessionToken := None |} w) ->
             route env false hnd req w
             = (outcome (hnd {| incoming := req; user := None; sessionToken := None |} w),
                world_of (hnd {| incoming := req; user := None; sessionToken := None |} w),
                auth_lookup req
                ++ trace_of (hnd {| incoming := req; user := None;
                                    sessionToken := None |} w))).
  { intros hnd Hh. rewrite route_open_run. unfold auth_lookup.
    destruct (getAuthTokenFromRequest req) as [token|].
    - cbv zeta. rewrite (Hf token eq_refl).
      rewrite Hh by (destruct (Sql.select_session_user _ _ _); reflexivity).
      destruct (hnd _ w) as [[r' w'] t]. reflexivity.
    - destruct (hnd _ w) as [[r' w'] t]. reflexivity. }
  destruct Hc as [-> | ->]; cbn [handler]; apply Hr; intros r <-.
  - rewrite !register_run. reflexivity.
  - rewrite !login_run. reflexivity.
Qed.

End Accounts.

(** * Accounts *)

Section Register.

Context `{PlatformLaws}.
Variables (cfg : Config) (env : Env).

Lemma in_lookup_not_send req e :
  In e (auth_lookup req) -> is_send e = false.
Proof.
  unfold auth_lookup. destruct (getAuthTokenFromRequest req); [|contradiction].
  intros [<-|[]]. reflexivity.
Qed.

Lemma filter_send_lookup req t :
  List.filter is_send (auth_lookup req ++ t) = List.filter is_send t.
Proof.
  rewrite List.filter_app. unfold auth_lookup.
  destruct (getAuthTokenFromRequest req); reflexivity.
Qed.

(** The run of a registration that sends a token. *)
Lemma register_success req w token principal :
  In (EvSend 200 (JsonAuth token principal))
     (trace_of (handler cfg env CRegister req w)) ->
  exists uname password hash d1 d2,
    normalizeUsername (body_username req) = Some uname /\
    validatePassword (body_password req) = Some password /\
    Sql.select_user_by_name uname (db w) = [] /\
    hashPassword env password = Ok hash /\
    Sql.insert_user uname hash (now env) (db w) = Ok (principal, d1) /\
    token = generateSessionToken env /\
    Sql.insert_session (hashSessionToken token) (au_id principal)
      (now env + session_ttl_ms cfg) (now env) d1 = Ok (tt, d2) /\
    world_of (handler cfg env CRegister req w) = set_db w d2.
Proof.
  cbn [handler]. rewrite route_open_run.
  assert (Hreg : forall r,
             incoming r = req ->
             In (EvSend 200 (JsonAuth token principal)) (trace_of (register cfg env r w)) ->
             exists uname password hash d1 d2,
               normalizeUsername (body_username req) = Some uname /\
               validatePassword (body_password req) = Some password /\
               Sql.select_user_by_name uname (db w) = [] /\
               hashPassword env password = Ok hash /\
               Sql.insert_user uname hash (now env) (db w) = Ok (principal, d1) /\
               token = generateSessionToken env /\
               Sql.insert_session (hashSessionToken token) (au_id principal)
                 (now env + session_ttl_ms cfg) (now env) d1 = Ok (tt, d2) /\
               world_of (register cfg env r w) = set_db w d2).
  { intros r <-. rewrite register_run. cbv zeta.
    destruct (normalizeUsername _) as [uname|]; [|intros Hin; in_trace Hin].
    destruct (validatePassword _) as [password|]; [|intros Hin; in_trace Hin].
    destruct (fails env (DbQuery (SelectUserByName uname))); [intros Hin; in_trace Hin|].
    destruct (Sql.select_user_by_name uname (db w)) eqn:Hsel; [|intros Hin; in_trace Hin].
    destruct (hashPassword env password) as [hash|e] eqn:Hh; [|intros Hin; in_trace Hin].
    destruct (fails env (DbQuery (InsertUser uname))); [intros Hin; in_trace Hin|].
    destruct (Sql.insert_user uname hash (now env) (db w)) as [[usr d1]|e] eqn:Hu;
      [|intros Hin; in_trace Hin].
    destruct (fails env (DbQuery (InsertSession _ _))); [intros Hin; in_trace Hin|].
    destruct (Sql.insert_session _ _ _ _ d1) as [[[] d2]|e] eqn:Hs;
      [|intros Hin; in_trace Hin].
    intros Hin. in_trace Hin. injection Hin as <- <-.
    exists uname, password, hash, d1, d2. repeat split; assumption. }
  destruct (getAuthTokenFromRequest req) as [tok|]; [|now apply Hreg].
  cbv zeta. destruct (fails env _); [intros Hin; in_trace Hin|].
  match goal with |- context [register cfg env ?r w] => pose proof (Hreg r) as Hr end.
  destruct (register cfg env _ w) as [[res w'] t].
  unfold trace_of, world_of in *. cbn [fst snd] in *.
  intros [Hc|Hin]; [discriminate|].
  apply Hr; [|exact Hin]. destruct (Sql.select_session_user _ _ _); reflexivity.
Qed.

(** The rows of such a run. *)
Lemma register_rows req w token principal :
  let run := handler cfg env CRegister req w in
  In (EvSend 200 (JsonAuth token principal)) (trace_of run) ->
  exists uname password hash key,
    normalizeUsername (body_username req) = Some uname /\
    validatePassword (body_password req) = Some password /\
    scrypt password (salt_bytes env) 64 = Ok key /\
    hash = "scrypt$" +:+ Buffer.toBase64 (salt_bytes env) +:+ "$" +:+ Buffer.toBase64 key /\
    Forall (fun row => username row <> uname) (users (db w)) /\
    users (db (world_of run))
    = users (db w) ++ [{| u_id := users_seq (db w) + 1; username := uname;
                          password_hash := hash; role := RoleUser;
                          u_created_at := now env |}] /\
    principal = {| au_id := users_seq (db w) + 1; au_username := uname;
                   au_role := RoleUser |} /\
    sessions (db (world_of run))
    = sessions (db w) ++ [{| s_id := sessions_seq (db w) + 1;
                             token_hash := hashSessionToken token;
                             s_user_id := users_seq (db w) + 1;
                             s_created_at := now env;
                             expires_at := now env + session_ttl_ms cfg |}] /\
    projects (db (world_of run)) = projects (db w) /\
    bucket (world_of run) = bucket w /\ disk (world_of run) = disk w.
Proof.
  cbv zeta. intros Hin.
  destruct (register_success req w token principal Hin)
    as (uname & password & hash & d1 & d2 & Hu & Hp & Hsel & Hh & Hiu & -> & His & ->).
  unfold hashPassword in Hh.
  destruct (scrypt password (salt_bytes env) 64) as [key|] eqn:Hk; [|discriminate].
  injection Hh as <-.
  eexists uname, password, _, key.
  split; [exact Hu|]. split; [exact Hp|]. split; [exact Hk|]. split; [reflexivity|].
  split.
  { unfold Sql.select_user_by_name in Hsel. apply Forall_forall. intros row Hrow Hn.
    apply list_elem_of_In in Hrow.
    assert (Hf : In row (List.filter (fun u => String.eqb (username u) uname)
                           (users (db w)))).
    { apply filter_In. split; [exact Hrow|]. now apply String.eqb_eq. }
    rewrite Hsel in Hf. exact Hf. }
  unfold Sql.insert_user in Hiu.
  destruct (existsb _ (users (db w))); [discriminate|]. injection Hiu as <- <-.
  unfold Sql.insert_session in His. cbn [sessions users set_users sessions_seq] in His.
  destruct (existsb _ (sessions (db w))); [discriminate|].
  destruct (negb _); [discriminate|]. injection His as <-.
  cbn. repeat split.
Qed.

(** X11. A registration that is answered with a token has appended
    exactly one user row and one session row and changed nothing
    else.  The user row carries the normalised name, the role [user]
    and a password hash record made by [hashPassword], against which
    the submitted password verifies; the principal sent back is that
    of the row, and the session row holds the hash of the token sent,
    the user's id and the expiry. *)
Theorem register_creates_account req w token principal :
  let run := handler cfg env CRegister req w in
  In (EvSend 200 (JsonAuth token principal)) (trace_of run) ->
  exists uname password hash,
    normalizeUsername (body_username req) = Some uname /\
    validatePassword (body_password req) = Some password /\
    hashPassword env password = Ok hash /\
    verifyPassword password hash = Ok true /\
    Forall (fun row => username row <> uname) (users (db w)) /\
    users (db (world_of run))
    = users (db w) ++ [{| u_id := users_seq (db w) + 1; username := uname;
                          password_hash := hash; role := RoleUser;
                          u_created_at := now env |}] /\
    principal = {| au_id := users_seq (db w) + 1; au_username := uname;
                   au_role := RoleUser |} /\
    sessions (db (world_of run))
    = sessions (db w) ++ [{| s_id := sessions_seq (db w) + 1;
                             token_hash := hashSessionToken token;
                             s_user_id := users_seq (db w) + 1;
                             s_created_at := now env;
                             expires_at := now env + session_ttl_ms cfg |}] /\
    projects (db (world_of run)) = projects (db w) /\
    bucket (world_of run) = bucket w /\ disk (world_of run) = disk w.
Proof.
  cbv zeta. intros Hin.
  destruct (register_rows req w token principal Hin)
    as (uname & password & hash & key & Hu & Hp & Hk & -> & Hrest).
  eexists uname, password, _.
  split; [exact Hu|]. split; [exact Hp|].
  split; [unfold hashPassword; now rewrite Hk|].
  split; [|exact Hrest].
  rewrite (verify_hashed env password password key Hk), Hk.
  now rewrite bytes_eqb_refl.
Qed.

(** X12. A login with well-formed credentials is refused in the same
    way whether the name is unknown or the password is wrong: the
    same look-up, the same 401 with the same message, and nothing is
    changed (no session is created). *)
Theorem login_failures_alike req w uname password :
  (forall token, getAuthTokenFromRequest req = Some token ->
                 fails env (DbQuery (SelectSessionUser (hashSessionToken token))) = false) ->
  normalizeUsername (body_username req) = Some uname ->
  validatePassword (body_password req) = Some password ->
  fails env (DbQuery (SelectUserByName uname)) = false ->
  Sql.select_user_by_name uname (db w) = [] \/
  (exists row others,
      Sql.select_user_by_name uname (db w) = row :: others /\
      verifyPassword password (password_hash row) = Ok false) ->
  let run := handler cfg env CLogin req w in
  world_of run = w /\
  trace_of run
  = auth_lookup req
    ++ [EvIo (DbQuery (SelectUserByName uname)) true;
        EvSend 401 (JsonError "Invalid username or password" None)].
Proof.
  intros Hf Hu Hp Hs Hcase. cbv zeta.
  rewrite (open_route_frame cfg env CLogin req w (or_intror eq_refl) Hf).
  cbv zeta. rewrite login_run. cbv zeta. cbn [incoming]. rewrite Hu, Hp, Hs.
  destruct Hcase as [->|(row & others & -> & ->)]; split; reflexivity.
Qed.

(** X13. Registration followed by login: after a registration that
    was answered with a token, a login with the same password and a
    name that normalises to the same name (any letter case, any
    surrounding white space) is answered with a token for the same
    principal, provided its statements go through and its fresh
    token is not one already stored. *)
Theorem register_then_login req w token principal env' req' :
  let registered := world_of (handler cfg env CRegister req w) in
  In (EvSend 200 (JsonAuth token principal))
     (trace_of (handler cfg env CRegister req w)) ->
  normalizeUsername (body_username req') = normalizeUsername (body_username req) ->
  body_password req' = body_password req ->
  (forall q, fails env' (DbQuery q) = false) ->
  Forall (fun s => token_hash s <> hashSessionToken (generateSessionToken env'))
    (sessions (db registered)) ->
  let run := handler cfg env' CLogin req' registered in
  List.filter is_send (trace_of run)
  = [EvSend 200 (JsonAuth (generateSessionToken env') principal)] /\
  exists session,
    sessions (db (world_of run)) = sessions (db registered) ++ [session] /\
    token_hash session = hashSessionToken (generateSessionToken env') /\
    s_user_id session = au_id principal /\
    expires_at session = now env' + session_ttl_ms cfg.
Proof.
  cbv zeta. intros Hin Hname Hpw Hf Hfresh.
  destruct (register_rows req w token principal Hin)
    as (uname & password & hash & key & Hu & Hp & Hk & Hhash & Hnone & Husers & ->
        & Hsess & _).
  assert (Hv : verifyPassword password hash = Ok true).
  { rewrite Hhash, (verify_hashed env password password key Hk), Hk.
    now rewrite bytes_eqb_refl. }
  rewrite (open_route_frame cfg env' CLogin req' _ (or_intror eq_refl))
    by (intros; apply Hf).
  cbv zeta. rewrite login_run. cbv zeta. cbn [incoming].
  rewrite Hname, Hu, Hpw, Hp, Hf.
  set (w1 := world_of (handler cfg env CRegister req w)) in *.
  set (row := {| u_id := users_seq (db w) + 1; username := uname;
                 password_hash := hash; role := RoleUser;
                 u_created_at := now env |}) in *.
  assert (Hsel : Sql.select_user_by_name uname (db w1) = [row]).
  { unfold Sql.select_user_by_name. rewrite Husers, List.filter_app.
    cbn [List.filter username row]. rewrite String.eqb_refl.
    replace (List.filter _ (users (db w))) with (@nil UserRow); [reflexivity|].
    symmetry. clear -Hnone. induction Hnone as [|x l Hx _ IH]; [reflexivity|].
    cbn [List.filter]. apply String.eqb_neq in Hx. now rewrite Hx. }
  rewrite Hsel. cbn [password_hash row]. rewrite Hv, Hf.
  unfold Sql.insert_session.
  assert (Hnew : existsb (fun s => String.eqb (token_hash s)
                                     (hashSessionToken (generateSessionToken env')))
                   (sessions (db w1)) = false).
  { clear -Hfresh. induction Hfresh as [|x l Hx _ IH]; [reflexivity|].
    cbn [existsb]. apply String.eqb_neq in Hx. now rewrite Hx. }
  rewrite Hnew.
  assert (Huser : existsb (fun u => u_id u =? u_id row) (users (db w1)) = true).
  { apply existsb_exists. exists row. split; [|apply Z.eqb_refl].
    rewrite Husers. apply in_or_app. right. now left. }
  rewrite Huser. cbn [negb].
  unfold outcome, world_of, trace_of. cbn [fst snd].
  rewrite filter_send_lookup. split; [reflexivity|].
  eexists. cbn [db set_db sessions set_sessions]. split; [reflexivity|].
  cbn. repeat split.
Qed.

Lemma filter_nil_existsb {A} (f : A -> bool) (l : list A) :
  List.filter f l = [] -> existsb f l = false.
Proof.
  induction l as [|x l IH]; [reflexivity|]. cbn [List.filter existsb].
  destruct (f x); [discriminate|]. exact IH.
Qed.

(** X14. Registration is not atomic.  When the session [INSERT] fails
    after the user [INSERT] went through, the client is answered 500
    but the account stays: the user row is there, without a session,
    and registering the same name again is answered 409. *)
Theorem registration_is_not_atomic req w uname password hash env' :
  normalizeUsername (body_username req) = Some uname ->
  validatePassword (body_password req) = Some password ->
  (forall q, fails env (DbQuery q)
             = match q with InsertSession _ _ => true | _ => false end) ->
  Sql.select_user_by_name uname (db w) = [] ->
  hashPassword env password = Ok hash ->
  (forall q, fails env' (DbQuery q) = false) ->
  let run := handler cfg env CRegister req w in
  let row := {| u_id := users_seq (db w) + 1; username := uname;
                password_hash := hash; role := RoleUser; u_created_at := now env |} in
  List.filter is_send (trace_of run)
  = [EvSend 500 (JsonError "Failed to register" None)] /\
  users (db (world_of run)) = users (db w) ++ [row] /\
  sessions (db (world_of run)) = sessions (db w) /\
  List.filter is_send (trace_of (handler cfg env' CRegister req (world_of run)))
  = [EvSend 409 (JsonError "Username already taken" None)].
Proof.
  intros Hu Hp Hf Hsel Hh Hf'. cbv zeta.
  rewrite (open_route_frame cfg env CRegister req w (or_introl eq_refl))
    by (intros; now rewrite Hf).
  cbv zeta. rewrite register_run. cbv zeta. cbn [incoming].
  rewrite Hu, Hp, !Hf, Hsel, Hh.
  unfold Sql.insert_user. rewrite (filter_nil_existsb _ _ Hsel). cbv iota.
  rewrite Hf.
  unfold outcome, world_of, trace_of. cbn [fst snd].
  rewrite filter_send_lookup.
  split; [reflexivity|]. split; [reflexivity|]. split; [reflexivity|].
  rewrite (open_route_frame cfg env' CRegister req _ (or_introl eq_refl))
    by (intros; apply Hf').
  cbv zeta. rewrite register_run. cbv zeta. cbn [incoming].
  rewrite Hu, Hp, Hf'. unfold Sql.select_user_by_name.
  cbn [db set_db users set_users]. rewrite List.filter_app.
  cbn [List.filter username]. rewrite String.eqb_refl.
  unfold Sql.select_user_by_name in Hsel. rewrite Hsel. cbn [app].
  unfold trace_of. cbn [snd]. rewrite filter_send_lookup. reflexivity.
Qed.

End Register.

Lemma register_creates_account_witness :
  let run := @handler Demo.platform Demo.cfg_local (Demo.env_at 1000 Demo.no_fault)
               CRegister (DemoAuth.signup "  Carol " "secret1") (Demo.world [] [] []) in
  exists hash,
    @verifyPassword Demo.platform "secret1" hash = Ok true /\
    map username (users (db (world_of run))) = ["alice"; "bob"; "carol"] /\
    map password_hash (users (db (world_of run))) = ["x"; "x"; hash].
Proof.
  cbv zeta.
  destruct (@register_creates_account Demo.platform demo_laws Demo.cfg_local
              (Demo.env_at 1000 Demo.no_fault) (DemoAuth.signup "  Carol " "secret1")
              (Demo.world [] [] []) DemoAuth.token DemoAuth.carol)
    as (uname & password & hash & Hu & Hp & _ & Hv & _ & Husers & _).
  - vm_compute. tauto.
  - vm_compute in Hu. injection Hu as <-. vm_compute in Hp. injection Hp as <-.
    exists hash. split; [exact Hv|]. rewrite Husers. split; reflexivity.
Defined.

Lemma login_failures_alike_witness :
  let env := Demo.env_at 1000 Demo.no_fault in
  let w := Demo.world [] [] [] in
  trace_of (@handler Demo.platform Demo.cfg_local env CLogin
              (DemoAuth.signup "nobody" "secret1") w)
  = [EvIo (DbQuery (SelectUserByName "nobody")) true;
     EvSend 401 (JsonError "Invalid username or password" None)] /\
  trace_of (@handler Demo.platform Demo.cfg_local env CLogin
              (DemoAuth.signup "alice" "secret1") w)
  = [EvIo (DbQuery (SelectUserByName "alice")) true;
     EvSend 401 (JsonError "Invalid username or password" None)].
Proof.
  cbv zeta. split.
  - refine (proj2 (@login_failures_alike Demo.platform Demo.cfg_local
                     (Demo.env_at 1000 Demo.no_fault) (DemoAuth.signup "nobody" "secret1")
                     (Demo.world [] [] []) "nobody" "secret1" _ eq_refl eq_refl eq_refl _)).
    + intros token Ht. discriminate Ht.
    + left. reflexivity.
  - refine (proj2 (@login_failures_alike Demo.platform Demo.cfg_local
                     (Demo.env_at 1000 Demo.no_fault) (DemoAuth.signup "alice" "secret1")
                     (Demo.world [] [] []) "alice" "secret1" _ eq_refl eq_refl eq_refl _)).
    + intros token Ht. discriminate Ht.
    + right. exists Demo.alice, []. split; reflexivity.
Defined.

Lemma register_then_login_witness :
  let registered :=
    world_of (@handler Demo.platform Demo.cfg_local (Demo.env_at 1000 Demo.no_fault)
                CRegister (DemoAuth.signup "  Carol " "secret1") (Demo.world [] [] [])) in
  let later :=
    {| now := 2000; fails := Demo.no_fault; salt_bytes := Demo.rand 16 Byte.x2a;
       token_bytes := Demo.rand 32 Byte.x11; name_bytes := Demo.rand 8 Byte.xc3;
       cover_source := "https://img.example/c.png"; http_get := fun _ => None |} in
  List.filter is_send
    (trace_of (@handler Demo.platform Demo.cfg_local later CLogin
                 (DemoAuth.signup "CAROL" "secret1") registered))
  = [EvSend 200 (JsonAuth (@generateSessionToken later) DemoAuth.carol)].
Proof.
  cbv zeta.
  refine (proj1 (@register_then_login Demo.platform demo_laws Demo.cfg_local
                   (Demo.env_at 1000 Demo.no_fault) (DemoAuth.signup "  Carol " "secret1")
                   (Demo.world [] [] []) DemoAuth.token DemoAuth.carol _
                   (DemoAuth.signup "CAROL" "secret1") _ eq_refl eq_refl _ _)).
  - vm_compute. tauto.
  - intros q. reflexivity.
  - vm_compute. repeat constructor; discriminate.
Defined.

Lemma registration_is_not_atomic_witness :
  let run := @handler Demo.platform Demo.cfg_local (Demo.env_at 1000 fail_session_inserts)
               CRegister (DemoAuth.signup "carol" "secret1") (Demo.world [] [] []) in
  List.filter is_send (trace_of run) = [EvSend 500 (JsonError "Failed to register" None)] /\
  map username (users (db (world_of run))) = ["alice"; "bob"; "carol"] /\
  sessions (db (world_of run)) = [Demo.session_a].
Proof.
  cbv zeta.
  destruct (@registration_is_not_atomic Demo.platform Demo.cfg_local
              (Demo.env_at 1000 fail_session_inserts)
              (DemoAuth.signup "carol" "secret1") (Demo.world [] [] []) "carol" "secret1"
              (match @hashPassword Demo.platform (Demo.env_at 1000 fail_session_inserts)
                       "secret1" with
               | Ok h => h
               | Throw _ => EmptyString
               end)
              (Demo.env_at 2000 Demo.no_fault) eq_refl eq_refl)
    as (H1 & H2 & H3 & _).
  - intros q. cbn. destruct q; reflexivity.
  - reflexivity.
  - reflexivity.
  - intros q. reflexivity.
  - split; [exact H1|]. split; [rewrite H2; reflexivity|exact H3].
Defined.

(** * Frames *)

Section Frames.

Context `{Platform}.
Context {R : World -> World -> Prop} {Rq : Db -> Db -> Prop} {P : Event -> Prop}.
Context {laws : FrameLaws R Rq P}.

Let R_refl := @frame_refl R Rq P laws.
Let R_trans := @frame_trans R Rq P laws.
Let R_db := @frame_db R Rq P laws.
Let P_log := @frame_log R Rq P laws.
Let P_send := @frame_send R Rq P laws.
Let P_exists := @frame_exists R Rq P laws.
Let P_db := @frame_query R Rq P laws.

Lemma frames_ret {A} (a : A) : frames R P (ret a).
Proof. intros w. split; [apply R_refl|constructor]. Qed.

Lemma frames_throw {A} e : frames R P (@throw A e).
Proof. intros w. split; [apply R_refl|constructor]. Qed.

Lemma frames_lift {A} (r : result A) : frames R P (lift r).
Proof. intros w. split; [apply R_refl|constructor]. Qed.

Lemma frames_log m : frames R P (console_error m).
Proof. intros w. split; [apply R_refl|repeat constructor; apply P_log]. Qed.

Lemma frames_send s b : frames R P (send s b).
Proof. intros w. split; [apply R_refl|repeat constructor; apply P_send]. Qed.

Lemma frames_bind {A B} (m : M A) (f : A -> M B) :
  frames R P m -> (forall a, frames R P (f a)) -> frames R P (bind m f).
Proof.
  intros Hm Hf w. specialize (Hm w). unfold bind, world_of, trace_of in *.
  destruct (m w) as [[[a|e] w1] t1]; cbn in *; [|exact Hm].
  destruct Hm as [H1 T1]. specialize (Hf a w1). unfold world_of, trace_of in Hf.
  destruct (f a w1) as [[r w2] t2]; cbn in *. destruct Hf as [H2 T2].
  split; [eapply R_trans; eassumption|]. apply Forall_app; split; assumption.
Qed.

Lemma frames_try_catch {A} (m : M A) (h : error -> M A) :
  frames R P m -> (forall e, frames R P (h e)) -> frames R P (try_catch m h).
Proof.
  intros Hm Hh w. specialize (Hm w). unfold try_catch, world_of, trace_of in *.
  destruct (m w) as [[[a|e] w1] t1]; cbn in *; [exact Hm|].
  destruct Hm as [H1 T1]. specialize (Hh e w1). unfold world_of, trace_of in Hh.
  destruct (h e w1) as [[r w2] t2]; cbn in *. destruct Hh as [H2 T2].
  split; [eapply R_trans; eassumption|]. apply Forall_app; split; assumption.
Qed.

Lemma frames_try_finally {A} (m : M A) (f : M unit) :
  frames R P m -> frames R P f -> frames R P (try_finally m f).
Proof.
  intros Hm Hf w. specialize (Hm w). unfold try_finally, world_of, trace_of in *.
  destruct (m w) as [[r w1] t1]; cbn in *.
  destruct Hm as [H1 T1]. specialize (Hf w1). unfold world_of, trace_of in Hf.
  destruct (f w1) as [[[u|e] w2] t2]; cbn in *; destruct Hf as [H2 T2];
    (split; [eapply R_trans; eassumption|apply Forall_app; split; assumption]).
Qed.

Lemma frames_attempt {A} (m : M A) : frames R P m -> frames R P (attempt m).
Proof.
  intros Hm w. specialize (Hm w). unfold attempt, world_of, trace_of in *.
  destruct (m w) as [[r w1] t1]; cbn in *. exact Hm.
Qed.

Variable env : Env.

Lemma frames_query {A} q (run : Db -> result (A * Db)) :
  (forall d a d', run d = Ok (a, d') -> Rq d d') -> frames R P (query env q run).
Proof.
  intros Hrun w. unfold query, world_of, trace_of.
  destruct (fails env (DbQuery q)); cbn.
  - split; [apply R_refl|]. repeat constructor. apply P_db.
  - destruct (run (db w)) as [[a d]|e] eqn:E; cbn.
    + split; [apply R_db; eapply Hrun; eassumption|]. repeat constructor. apply P_db.
    + split; [apply R_refl|]. repeat constructor. apply P_db.
Qed.

Lemma frames_existsSync p : frames R P (existsSync p).
Proof. intros w. split; [apply R_refl|]. repeat constructor. apply P_exists. Qed.

Lemma frames_unlinkSync p :
  (forall w, R w (set_disk w (disk w ∖ {[ p ]}))) ->
  (forall ok, P (EvIo (FsUnlink p) ok)) ->
  frames R P (unlinkSync env p).
Proof.
  intros HR HP w. unfold unlinkSync, world_of, trace_of.
  destruct (fails env (FsUnlink p) || negb (bool_decide (p ∈ disk w))); cbn.
  - split; [apply R_refl|repeat constructor; apply HP].
  - split; [apply HR|repeat constructor; apply HP].
Qed.

Lemma frames_writeFileSync p :
  (forall w, R w (set_disk w ({[ p ]} ∪ disk w))) ->
  (forall ok, P (EvIo (FsWrite p) ok)) ->
  frames R P (writeFileSync env p).
Proof.
  intros HR HP w. unfold writeFileSync, world_of, trace_of.
  destruct (fails env (FsWrite p)); cbn.
  - split; [apply R_refl|repeat constructor; apply HP].
  - split; [apply HR|repeat constructor; apply HP].
Qed.

Variable cfg : Config.

Lemma frames_putObjectToR2 k :
  (R2_ENABLED cfg = true ->
   (forall w, R w (set_bucket w ({[ k ]} ∪ bucket w))) /\
   (forall ok, P (EvIo (R2Put k) ok))) ->
  frames R P (putObjectToR2 cfg env k).
Proof.
  intros Hk. unfold putObjectToR2.
  destruct (R2_ENABLED cfg); cbn [negb]; [|apply frames_throw].
  destruct (Hk eq_refl) as [HR HP]. intros w. unfold world_of, trace_of.
  destruct (fails env (R2Put k)); cbn.
  - split; [apply R_refl|repeat constructor; apply HP].
  - split; [apply HR|repeat constructor; apply HP].
Qed.

Lemma frames_deleteObjectFromR2 k :
  (R2_ENABLED cfg = true ->
   (forall w, R w (set_bucket w (bucket w ∖ {[ k ]}))) /\
   (forall ok, P (EvIo (R2Delete k) ok))) ->
  frames R P (deleteObjectFromR2 cfg env k).
Proof.
  intros Hk. unfold deleteObjectFromR2.
  destruct (R2_ENABLED cfg); cbn [negb]; [|apply frames_ret].
  destruct (Hk eq_refl) as [HR HP]. intros w. unfold world_of, trace_of.
  destruct (fails env (R2Delete k)); cbn.
  - split; [apply R_refl|repeat constructor; apply HP].
  - split; [apply HR|repeat constructor; apply HP].
Qed.

End Frames.

(** One rule of the calculus, chosen by the shape of the computation;
    what a rule asks of [R] and [P] is left to be shown. *)
Ltac frame_step :=
  lazymatch goal with
  | |- frames _ _ (bind _ _) => apply frames_bind; [|intros ?]
  | |- frames _ _ (try_catch _ _) => apply frames_try_catch; [|intros ?]
  | |- frames _ _ (try_finally _ _) => apply frames_try_finally
  | |- frames _ _ (attempt _) => apply frames_attempt
  | |- frames _ _ (ret _) => apply frames_ret
  | |- frames _ _ (throw _) => apply frames_throw
  | |- frames _ _ (lift _) => apply frames_lift
  | |- frames _ _ (console_error _) => apply frames_log
  | |- frames _ _ (send _ _) => apply frames_send
  | |- frames _ _ (existsSync _) => apply frames_existsSync
  | |- frames _ _ (query _ _ _) => apply frames_query
  | |- frames _ _ (unlinkSync _ _) => apply frames_unlinkSync
  | |- frames _ _ (writeFileSync _ _) => apply frames_writeFileSync
  | |- frames _ _ (putObjectToR2 _ _ _) => apply frames_putObjectToR2
  | |- frames _ _ (deleteObjectFromR2 _ _ _) => apply frames_deleteObjectFromR2
  | |- frames _ _ (match ?x with _ => _ end) => destruct x eqn:?
  | |- frames _ _ (let _ := _ in _) => cbv zeta
  end.

(** * Frames of the routes *)

Section RouteFrames.

Context `{Platform}.
Context {R : World -> World -> Prop} {Rq : Db -> Db -> Prop} {P : Event -> Prop}.
Context {laws : FrameLaws R Rq P}.
Variables (cfg : Config) (env : Env).

Hypothesis any_update : forall d d', Rq d d'.
Hypothesis unlinks :
  forall p, (forall w, R w (set_disk w (disk w ∖ {[ p ]}))) /\
            (forall ok, P (EvIo (FsUnlink p) ok)).
Hypothesis writes :
  R2_ENABLED cfg = false ->
  forall p, (forall w, R w (set_disk w ({[ p ]} ∪ disk w))) /\
            (forall ok, P (EvIo (FsWrite p) ok)).
Hypothesis puts :
  R2_ENABLED cfg = true ->
  forall k, (forall w, R w (set_bucket w ({[ k ]} ∪ bucket w))) /\
            (forall ok, P (EvIo (R2Put k) ok)).
Hypothesis deletes :
  R2_ENABLED cfg = true ->
  forall k, (forall w, R w (set_bucket w (bucket w ∖ {[ k ]}))) /\
            (forall ok, P (EvIo (R2Delete k) ok)).

Ltac side :=
  first
    [ solve [intros; apply any_update]
    | solve [apply unlinks]
    | solve [intros E; apply puts; first [assumption | reflexivity]]
    | solve [intros E; apply deletes; first [assumption | reflexivity]]
    | solve [apply writes; first [assumption | reflexivity]]
    | solve [intros E; exfalso;
             match goal with
             | Hx : R2_ENABLED _ = _ |- _ => rewrite Hx in E; discriminate E
             | Hx : true = false |- _ => discriminate Hx
             | Hx : false = true |- _ => discriminate Hx
             end] ].

Ltac steps := repeat (frame_step; try side).

Lemma frames_the_user r : frames R P (the_user r).
Proof. unfold the_user. steps. Qed.

Lemma frames_access id usr : frames R P (requireProjectWriteAccess env id usr).
Proof. unfold requireProjectWriteAccess. steps. Qed.

Lemma frames_owner id : frames R P (getProjectWithOwner env id).
Proof. unfold getProjectWithOwner. steps. Qed.

Lemma frames_auth req : frames R P (authMiddleware env req).
Proof. unfold authMiddleware. steps. Qed.

Lemma frames_register r : frames R P (register cfg env r).
Proof. unfold register, issue_session. steps. Qed.

Lemma frames_login r : frames R P (login cfg env r).
Proof. unfold login, issue_session. steps. Qed.

Lemma frames_logout r : frames R P (logout env r).
Proof. unfold logout. steps. Qed.

Lemma frames_me r : frames R P (me r).
Proof. unfold me. steps. Qed.

Lemma frames_create_try r : frames R P (createProject_try cfg env r).
Proof.
  unfold createProject_try, createProject_upload, createProject_catch.
  repeat first [ apply frames_the_user | apply frames_owner | frame_step; try side ].
Qed.

Lemma frames_create r : frames R P (createProject cfg env r).
Proof.
  unfold createProject. apply frames_try_finally; [apply frames_create_try|].
  unfold createProject_finally. steps.
Qed.

Lemma frames_rename r : frames R P (renameProject env r).
Proof.
  unfold renameProject.
  repeat first [ apply frames_the_user | apply frames_owner | apply frames_access
               | frame_step; try side ].
Qed.

Lemma frames_assets project : frames R P (deleteProjectAssets cfg env project).
Proof. unfold deleteProjectAssets. steps. Qed.

Lemma frames_delete r : frames R P (deleteProject cfg env r).
Proof.
  unfold deleteProject.
  repeat first [ apply frames_the_user | apply frames_assets | apply frames_access
               | frame_step; try side ].
Qed.

Lemma frames_download src id : frames R P (downloadCoverToStorage cfg env src id).
Proof. unfold downloadCoverToStorage. steps. Qed.

Lemma frames_cover r : frames R P (generateCover cfg env r).
Proof.
  unfold generateCover, commitCover, removePreviousCover.
  repeat first [ apply frames_the_user | apply frames_owner | apply frames_access
               | apply frames_download | frame_step; try side ].
Qed.

Lemma frames_route protected hnd req :
  (forall r, frames R P (hnd r)) -> frames R P (route env protected hnd req).
Proof.
  intros Hh. unfold route.
  repeat first [ apply frames_auth | apply Hh | frame_step; try side ].
Qed.

Lemma frames_handler c req : frames R P (handler cfg env c req).
Proof.
  destruct c; cbn [handler]; apply frames_route; intros r;
    first [ apply frames_register | apply frames_login | apply frames_logout
          | apply frames_me | apply frames_create | apply frames_rename
          | apply frames_delete | apply frames_cover ].
Qed.

End RouteFrames.

Section HistoryFrames.

Context `{Platform}.
Context {R : World -> World -> Prop} {Rq : Db -> Db -> Prop} {P : Event -> Prop}.
Context {laws : FrameLaws R Rq P}.
Variable cfg : Config.

Hypothesis any_update : forall d d', Rq d d'.
Hypothesis unlinks :
  forall p, (forall w, R w (set_disk w (disk w ∖ {[ p ]}))) /\
            (forall ok, P (EvIo (FsUnlink p) ok)).
Hypothesis writes :
  R2_ENABLED cfg = false ->
  forall p, (forall w, R w (set_disk w ({[ p ]} ∪ disk w))) /\
            (forall ok, P (EvIo (FsWrite p) ok)).
Hypothesis puts :
  R2_ENABLED cfg = true ->
  forall k, (forall w, R w (set_bucket w ({[ k ]} ∪ bucket w))) /\
            (forall ok, P (EvIo (R2Put k) ok)).
Hypothesis deletes :
  R2_ENABLED cfg = true ->
  forall k, (forall w, R w (set_bucket w (bucket w ∖ {[ k ]}))) /\
            (forall ok, P (EvIo (R2Delete k) ok)).

Lemma frames_serve history w :
  R w (fst (serve cfg history w)) /\ Forall P (snd (serve cfg history w)).
Proof.
  revert w. induction history as [|[[env c] req] rest IH]; intros w.
  - split; [apply frame_refl|constructor].
  - pose proof (frames_handler cfg env any_update unlinks writes puts deletes c req w)
      as [H1 T1].
    cbn [serve]. unfold world_of, trace_of in *.
    destruct (handler cfg env c req w) as [[r w1] t1]; cbn in *.
    destruct (IH w1) as [H2 T2].
    destruct (serve cfg rest w1) as [w2 t2]; cbn in *.
    split; [eapply frame_trans; eassumption|]. apply Forall_app; split; assumption.
Qed.

End HistoryFrames.

Section Backends.

Context `{Platform}.
Variable cfg : Config.

(** X15. Without the remote store configured the server never talks
    to the bucket: whatever requests are served, no upload and no
    delete is requested and the bucket stays as it was. *)
Theorem local_storage_leaves_bucket_alone history w :
  R2_ENABLED cfg = false ->
  bucket (fst (serve cfg history w)) = bucket w /\
  Forall (fun e => is_bucket_request e = false) (snd (serve cfg history w)).
Proof.
  intros HR.
  assert (laws : FrameLaws (fun a b => bucket b = bucket a) (fun _ _ => True)
                   (fun e => is_bucket_request e = false)).
  { split; try reflexivity; intros; congruence. }
  apply (@frames_serve _ _ _ _ laws cfg).
  - intros; exact Logic.I.
  - intros p. split; reflexivity.
  - intros _ p. split; reflexivity.
  - intros E. congruence.
  - intros E. congruence.
Qed.


End Backends.

Lemma local_storage_leaves_bucket_alone_witness :
  let f := {| originalname := "take.wav"; filename := "17-take.wav";
              path := "/srv/app/uploads/17-take.wav"; mimetype := "audio/wav";
              size := 4 |} in
  let history := [(Demo.env_at 17 Demo.no_fault, CCreateProject,
                   Demo.request "" (Some "Take") (Some f));
                  (Demo.env_at 18 Demo.no_fault, CGenerateCover,
                   Demo.request "11" None None);
                  (Demo.env_at 19 Demo.no_fault, CDeleteProject,
                   Demo.request "11" None None)] in
  let w := Demo.world [] ["kept"] ["/srv/app/uploads/17-take.wav"] in
  bucket (fst (@serve Demo.platform Demo.cfg_local history w)) = bucket w /\
  Forall (fun e => is_bucket_request e = false)
    (snd (@serve Demo.platform Demo.cfg_local history w)).
Proof.
  cbv zeta.
  apply (@local_storage_leaves_bucket_alone Demo.platform Demo.cfg_local).
  reflexivity.
Defined.


(** * Responses *)

Section Sends.

Context `{Platform}.

Lemma sends_ret {A} th (a : A) : sends (Some 0%nat) th (ret a).
Proof. intros w. reflexivity. Qed.

Lemma sends_throw {A} ok e : sends ok (Some 0%nat) (@throw A e).
Proof. intros w. reflexivity. Qed.

Lemma sends_lift {A} (r : result A) : sends (Some 0%nat) (Some 0%nat) (lift r).
Proof. intros w. unfold lift, outcome. cbn. destruct r; reflexivity. Qed.

Lemma sends_log th m : sends (Some 0%nat) th (console_error m).
Proof. intros w. reflexivity. Qed.

Lemma sends_send th s b : sends (Some 1%nat) th (send s b).
Proof. intros w. reflexivity. Qed.

Lemma sends_bind {A B} ok th (m : M A) (f : A -> M B) :
  sends (Some 0%nat) th m -> (forall a, sends ok th (f a)) -> sends ok th (bind m f).
Proof.
  intros Hm Hf w. specialize (Hm w). unfold bind, outcome, trace_of in *.
  destruct (m w) as [[[a|e] w1] t1]; cbn [fst snd] in *; [|exact Hm].
  specialize (Hf a w1). unfold outcome, trace_of in Hf.
  destruct (f a w1) as [[r w2] t2]; cbn [fst snd] in *.
  rewrite count_events_app. injection Hm as Hm. rewrite <- Hm. exact Hf.
Qed.

Lemma sends_try_catch {A} ok th (m : M A) (h : error -> M A) :
  sends ok (Some 0%nat) m -> (forall e, sends ok th (h e)) ->
  sends ok th (try_catch m h).
Proof.
  intros Hm Hh w. specialize (Hm w). unfold try_catch, outcome, trace_of in *.
  destruct (m w) as [[[a|e] w1] t1]; cbn [fst snd] in *; [exact Hm|].
  specialize (Hh e w1). unfold outcome, trace_of in Hh.
  destruct (h e w1) as [[r w2] t2]; cbn [fst snd] in *.
  rewrite count_events_app. injection Hm as Hm. rewrite <- Hm. exact Hh.
Qed.

Lemma sends_try_finally {A} ok th (m : M A) (f : M unit) :
  sends ok th m -> sends (Some 0%nat) None f -> sends ok th (try_finally m f).
Proof.
  intros Hm Hf w. specialize (Hm w). unfold try_finally, outcome, trace_of in *.
  destruct (m w) as [[r w1] t1]; cbn [fst snd] in *.
  specialize (Hf w1). unfold outcome, trace_of in Hf.
  destruct (f w1) as [[[u|e] w2] t2]; cbn [fst snd] in *; [|discriminate].
  rewrite count_events_app. injection Hf as Hf. rewrite <- Hf, Nat.add_0_r. exact Hm.
Qed.

Lemma sends_attempt {A} th (m : M A) :
  sends (Some 0%nat) (Some 0%nat) m -> sends (Some 0%nat) th (attempt m).
Proof.
  intros Hm w. specialize (Hm w). unfold attempt, outcome, trace_of in *.
  destruct (m w) as [[[a|e] w1] t1]; cbn [fst snd] in *; exact Hm.
Qed.

Variable env : Env.

Lemma sends_query {A} q (run : Db -> result (A * Db)) :
  sends (Some 0%nat) (Some 0%nat) (query env q run).
Proof.
  intros w. unfold query, outcome, trace_of.
  destruct (fails env (DbQuery q)); [reflexivity|].
  destruct (run (db w)) as [[a d]|e]; reflexivity.
Qed.

Lemma sends_existsSync th p : sends (Some 0%nat) th (existsSync p).
Proof. intros w. reflexivity. Qed.

Lemma sends_unlinkSync p : sends (Some 0%nat) (Some 0%nat) (unlinkSync env p).
Proof.
  intros w. unfold unlinkSync, outcome, trace_of.
  destruct (fails env (FsUnlink p) || negb (bool_decide (p ∈ disk w))); reflexivity.
Qed.

Lemma sends_writeFileSync p : sends (Some 0%nat) (Some 0%nat) (writeFileSync env p).
Proof.
  intros w. unfold writeFileSync, outcome, trace_of.
  destruct (fails env (FsWrite p)); reflexivity.
Qed.

Variable cfg : Config.

Lemma sends_putObjectToR2 k : sends (Some 0%nat) (Some 0%nat) (putObjectToR2 cfg env k).
Proof.
  unfold putObjectToR2. destruct (R2_ENABLED cfg); cbn [negb]; [|apply sends_throw].
  intros w. unfold outcome, trace_of. destruct (fails env (R2Put k)); reflexivity.
Qed.

Lemma sends_deleteObjectFromR2 k :
  sends (Some 0%nat) (Some 0%nat) (deleteObjectFromR2 cfg env k).
Proof.
  unfold deleteObjectFromR2. destruct (R2_ENABLED cfg); cbn [negb]; [|apply sends_ret].
  intros w. unfold outcome, trace_of. destruct (fails env (R2Delete k)); reflexivity.
Qed.

End Sends.

(** One rule for [sends], chosen by the shape of the computation. *)
Ltac sends_step :=
  lazymatch goal with
  | |- sends _ _ (bind _ _) => apply sends_bind; [|intros ?]
  | |- sends _ _ (try_catch _ _) => apply sends_try_catch; [|intros ?]
  | |- sends _ _ (try_finally _ _) => apply sends_try_finally
  | |- sends _ _ (attempt _) => apply sends_attempt
  | |- sends _ _ (ret _) => apply sends_ret
  | |- sends _ _ (throw _) => apply sends_throw
  | |- sends _ _ (lift _) => apply sends_lift
  | |- sends _ _ (console_error _) => apply sends_log
  | |- sends _ _ (send _ _) => apply sends_send
  | |- sends _ _ (existsSync _) => apply sends_existsSync
  | |- sends _ _ (query _ _ _) => apply sends_query
  | |- sends _ _ (unlinkSync _ _) => apply sends_unlinkSync
  | |- sends _ _ (writeFileSync _ _) => apply sends_writeFileSync
  | |- sends _ _ (putObjectToR2 _ _ _) => apply sends_putObjectToR2
  | |- sends _ _ (deleteObjectFromR2 _ _ _) => apply sends_deleteObjectFromR2
  | |- sends _ _ (match ?x with _ => _ end) => destruct x
  | |- sends _ _ (let _ := _ in _) => cbv zeta
  end.

Section Answers.

Context `{Platform}.
Variables (cfg : Config) (env : Env).

Lemma sends_the_user r : sends (Some 0%nat) (Some 0%nat) (the_user r).
Proof. unfold the_user. repeat sends_step. Qed.

Lemma sends_access id usr :
  sends (Some 0%nat) (Some 0%nat) (requireProjectWriteAccess env id usr).
Proof. unfold requireProjectWriteAccess. repeat sends_step. Qed.

Lemma sends_owner id : sends (Some 0%nat) (Some 0%nat) (getProjectWithOwner env id).
Proof. unfold getProjectWithOwner. repeat sends_step. Qed.

Lemma sends_auth req : sends (Some 0%nat) (Some 0%nat) (authMiddleware env req).
Proof. unfold authMiddleware. repeat sends_step. Qed.

Lemma sends_register r : sends (Some 1%nat) None (register cfg env r).
Proof. unfold register, issue_session. repeat sends_step. Qed.

Lemma sends_login r : sends (Some 1%nat) None (login cfg env r).
Proof. unfold login, issue_session. repeat sends_step. Qed.

Lemma sends_logout r : sends (Some 1%nat) None (logout env r).
Proof. unfold logout. repeat sends_step. Qed.

Lemma sends_me r : sends (Some 1%nat) None (me r).
Proof. unfold me. repeat sends_step. Qed.

Lemma sends_create_try r : sends (Some 1%nat) None (createProject_try cfg env r).
Proof.
  unfold createProject_try, createProject_upload, createProject_catch.
  repeat first [ apply sends_the_user | apply sends_owner | sends_step ].
Qed.

Lemma sends_create_finally r :
  sends (Some 0%nat) None (createProject_finally cfg env r).
Proof. unfold createProject_finally. repeat sends_step. Qed.

Lemma sends_create r : sends (Some 1%nat) None (createProject cfg env r).
Proof.
  unfold createProject. apply sends_try_finally;
    [apply sends_create_try|apply sends_create_finally].
Qed.

Lemma sends_rename r : sends (Some 1%nat) None (renameProject env r).
Proof.
  unfold renameProject.
  repeat first [ apply sends_the_user | apply sends_owner | apply sends_access
               | sends_step ].
Qed.

Lemma sends_assets th project :
  sends (Some 0%nat) th (deleteProjectAssets cfg env project).
Proof. unfold deleteProjectAssets. repeat sends_step. Qed.

Lemma sends_delete r : sends (Some 1%nat) None (deleteProject cfg env r).
Proof.
  unfold deleteProject.
  repeat first [ apply sends_the_user | apply sends_assets | apply sends_access
               | sends_step ].
Qed.

Lemma sends_download th src id :
  sends (Some 0%nat) th (downloadCoverToStorage cfg env src id).
Proof. unfold downloadCoverToStorage. repeat sends_step. Qed.

Lemma sends_cover r : sends (Some 1%nat) None (generateCover cfg env r).
Proof.
  unfold generateCover, commitCover, removePreviousCover.
  repeat first [ apply sends_the_user | apply sends_owner | apply sends_access
               | apply sends_download | sends_step ].
Qed.

Lemma sends_route protected hnd req :
  (forall r, sends (Some 1%nat) None (hnd r)) ->
  sends (Some 1%nat) None (route env protected hnd req).
Proof.
  intros Hh. unfold route.
  repeat first [ apply sends_auth | apply Hh | sends_step ].
Qed.

(** X17. Every request to one of the routes is answered exactly once,
    whatever fails on the way: the run never ends in an uncaught
    error, and its trace holds exactly one response. *)
Theorem every_request_is_answered_once c req w :
  let run := handler cfg env c req w in
  outcome run = Ok tt /\ count_events is_send (trace_of run) = 1%nat.
Proof.
  cbv zeta.
  assert (Hs : sends (Some 1%nat) None (handler cfg env c req)).
  { destruct c; cbn [handler]; apply sends_route; intros r;
      first [ apply sends_register | apply sends_login | apply sends_logout
            | apply sends_me | apply sends_create | apply sends_rename
            | apply sends_delete | apply sends_cover ]. }
  specialize (Hs w). destruct (outcome (handler cfg env c req w)) as [[]|e];
    [|discriminate]. injection Hs as <-. split; reflexivity.
Qed.

End Answers.

(** * Create audio *)

Section Create.

Context `{Platform}.
Variables (cfg : Config) (env : Env).

(** The [finally] block in closed form. *)
Lemma create_finally_closed r w :
  createProject_finally cfg env r w
  = match file (incoming r) with
    | Some f =>
        if R2_ENABLED cfg && Js.truthy (path f) then
          let gone := negb (fails env (FsUnlink (path f)))
                      && bool_decide (path f ∈ disk w) in
          (Ok tt, if gone then set_disk w (disk w ∖ {[ path f ]}) else w,
           [EvIo (FsUnlink (path f)) gone])
        else (Ok tt, w, [])
    | None => (Ok tt, w, [])
    end.
Proof.
  unfold createProject_finally.
  destruct (file (incoming r)) as [f|]; [|reflexivity].
  destruct (R2_ENABLED cfg && Js.truthy (path f)); [|reflexivity].
  unfold try_catch, unlinkSync, ret. cbv zeta.
  destruct (fails env (FsUnlink (path f))); [reflexivity|].
  destruct (bool_decide (path f ∈ disk w)); reflexivity.
Qed.

(** The [try] and [catch] blocks answer once, never throw, never
    unlink and leave the disk alone. *)
Lemma create_try_quiet r w :
  R2_ENABLED cfg = true ->
  exists w1 t1,
    createProject_try cfg env r w = (Ok tt, w1, t1) /\
    disk w1 = disk w /\
    count_events is_send t1 = 1%nat /\
    Forall (fun e => is_file_unlink e = false) t1.
Proof.
  intros HR.
  assert (laws : FrameLaws (fun a b => disk b = disk a) (fun _ _ => True)
                   (fun e => is_file_unlink e = false)).
  { split; try reflexivity. intros a b c H1 H2. cbn in *. congruence. }
  assert (Hf : frames (fun a b => disk b = disk a)
                 (fun e => is_file_unlink e = false) (createProject_try cfg env r)).
  { apply (frames_create_try cfg env).
    - intros; exact Logic.I.
    - intros E. congruence.
    - intros _ k. split; reflexivity.
    - intros _ k. split; reflexivity. }
  destruct (Hf w) as [Hd Ht].
  pose proof (sends_create_try cfg env r w) as Hs.
  unfold outcome, world_of, trace_of in *.
  destruct (createProject_try cfg env r w) as [[[[]|e] w1] t1]; cbn [fst snd] in *;
    [|discriminate].
  injection Hs as Hs. exists w1, t1. repeat split; [exact Hd|now symmetry|exact Ht].
Qed.

(** X18. With the remote store configured, create-audio always ends
    by unlinking the transferred file, exactly once and after the
    response, whether the upload, the insert or nothing failed; the
    file is gone unless it was missing or the unlink failed, and
    that failure is ignored. *)
Theorem create_always_removes_upload req w f token principal others :
  R2_ENABLED cfg = true ->
  file req = Some f -> path f <> "" ->
  getAuthTokenFromRequest req = Some token ->
  fails env (DbQuery (SelectSessionUser (hashSessionToken token))) = false ->
  Sql.select_session_user (hashSessionToken token) (now env) (db w) = principal :: others ->
  let run := handler cfg env CCreateProject req w in
  let gone := negb (fails env (FsUnlink (path f))) && bool_decide (path f ∈ disk w) in
  exists t,
    trace_of run = t ++ [EvIo (FsUnlink (path f)) gone] /\
    Forall (fun e => is_file_unlink e = false) t /\
    count_events is_send t = 1%nat /\
    disk (world_of run) = (if gone then disk w ∖ {[ path f ]} else disk w).
Proof.
  intros HR Hfile Hpath Htok Hf Hs. cbv zeta. cbn [handler].
  rewrite route_protected_run, Htok. cbv zeta. rewrite Hf, Hs.
  set (r := {| incoming := req; user := Some principal; sessionToken := Some token |}).
  unfold createProject, try_finally.
  destruct (create_try_quiet r w HR) as (w1 & t1 & -> & Hd & Hc & Hq).
  rewrite create_finally_closed. cbn [r incoming]. rewrite Hfile, HR.
  rewrite (truthy_nonempty _ Hpath). cbn [andb]. cbv zeta. rewrite Hd.
  unfold world_of, trace_of. cbn [fst snd].
  exists (EvIo (DbQuery (SelectSessionUser (hashSessionToken token))) true :: t1).
  split; [reflexivity|]. split; [constructor; [reflexivity|exact Hq]|].
  split; [rewrite count_events_cons; cbn [is_send]; exact Hc|].
  destruct (negb _ && _); [reflexivity|exact Hd].
Qed.






End Create.

Lemma create_always_removes_upload_witness :
  let f := {| originalname := "take.wav"; filename := "17-take.wav";
              path := "/srv/app/uploads/17-take.wav"; mimetype := "audio/wav";
              size := 4 |} in
  let w := Demo.world [] [] ["/srv/app/uploads/17-take.wav"] in
  let run := @handler Demo.platform Demo.cfg_r2 (Demo.env_at 17 fail_inserts)
               CCreateProject (Demo.request "" (Some "Take") (Some f)) w in
  exists t,
    trace_of run = t ++ [EvIo (FsUnlink "/srv/app/uploads/17-take.wav") true] /\
    Forall (fun e => is_file_unlink e = false) t /\
    count_events is_send t = 1%nat /\
    disk (world_of run) = disk w ∖ {[ "/srv/app/uploads/17-take.wav" ]}.
Proof.
  cbv zeta.
  apply (@create_always_removes_upload Demo.platform Demo.cfg_r2
           (Demo.env_at 17 fail_inserts)
           (Demo.request "" (Some "Take")
              (Some {| originalname := "take.wav"; filename := "17-take.wav";
                       path := "/srv/app/uploads/17-take.wav"; mimetype := "audio/wav";
                       size := 4 |}))
           (Demo.world [] [] ["/srv/app/uploads/17-take.wav"])
           {| originalname := "take.wav"; filename := "17-take.wav";
              path := "/srv/app/uploads/17-take.wav"; mimetype := "audio/wav";
              size := 4 |}
           Demo.token_a (Sql.auth_of Demo.alice) []).
  - reflexivity.
  - reflexivity.
  - discriminate.
  - vm_compute. reflexivity.
  - reflexivity.
  - vm_compute. reflexivity.
Defined.


(** * Local files and their URLs *)

Lemma uint_no_slash d : has_char "/" (NilEmpty.string_of_uint d) = false.
Proof. induction d; cbn; assumption || reflexivity. Qed.

Lemma of_Z_no_slash n : has_char "/" (Js.of_Z n) = false.
Proof.
  unfold Js.of_Z, NilZero.string_of_int, NilZero.string_of_uint.
  destruct (Z.to_int n) as [d|d]; destruct d; cbn [has_char Ascii.eqb Bool.eqb orb];
    try reflexivity; apply uint_no_slash.
Qed.

Lemma hex_digit_no_slash n : (n < 16)%N -> Ascii.eqb (Buffer.hex_digit n) "/" = false.
Proof.
  intros Hn. apply Ascii.eqb_neq. unfold Buffer.hex_digit.
  destruct (n <? 10)%N; intros Hc; apply (f_equal N_of_ascii) in Hc;
    rewrite N_ascii_embedding in Hc by lia; cbn in Hc; lia.
Qed.

Lemma toHex_no_slash bs : has_char "/" (Buffer.toHex bs) = false.
Proof.
  induction bs as [|b bs IH]; [reflexivity|].
  cbn [Buffer.toHex has_char]. cbv zeta.
  pose proof (Byte.to_N_bounded b) as Hb.
  rewrite !hex_digit_no_slash, IH; [reflexivity| |].
  - apply N.mod_lt. discriminate.
  - apply N.Div0.div_lt_upper_bound. lia.
Qed.

Lemma extension_no_slash m : has_char "/" (mimeTypeToImageExtension m) = false.
Proof.
  unfold mimeTypeToImageExtension. cbv zeta.
  repeat match goal with |- context [String.eqb ?a ?b] => destruct (String.eqb a b) end;
    reflexivity.
Qed.

Lemma basename_no_slash p : has_char "/" (basename p) = false.
Proof.
  unfold basename.
  assert (H : Forall (fun x => has_char "/" x = false)
                (List.filter Js.truthy (Js.split "/" p))).
  { pose proof (split_no_sep "/" p) as Hs. rewrite Forall_forall in Hs |- *.
    intros x Hx. apply Hs. apply list_elem_of_In in Hx. apply list_elem_of_In.
    apply filter_In in Hx. tauto. }
  induction H as [|x l Hx Hl IH]; [reflexivity|].
  destruct l; [exact Hx|exact IH].
Qed.

(** A name that holds a dash and no separator is a segment. *)
Lemma dashed_proper s :
  has_char "-" s = true -> has_char "/" s = false -> proper_segment s.
Proof.
  intros Hd Hs. repeat split; try assumption; intros ->; discriminate.
Qed.

Lemma storage_filename_proper env o : proper_segment (storage_filename env o).
Proof.
  apply dashed_proper; unfold storage_filename.
  - rewrite !has_char_app. cbn [has_char Ascii.eqb Bool.eqb orb].
    now rewrite orb_true_r.
  - rewrite !has_char_app, of_Z_no_slash, basename_no_slash. reflexivity.
Qed.

Lemma no_slash_relative s : has_char "/" s = false -> Path.isAbsolute s = false.
Proof.
  unfold Path.isAbsolute, Js.startsWith. destruct s as [|c s]; [reflexivity|].
  cbn [has_char String.prefix]. intros H. apply orb_false_iff in H as [H _].
  apply Ascii.eqb_neq in H. destruct (ascii_dec "/" c); [congruence|reflexivity].
Qed.

(** The segments of a path below a canonical directory. *)
Lemma segments_under segs rel :
  segs <> [] -> Forall proper_segment segs ->
  Path.segments (Path.of_segments segs +:+ "/" +:+ rel)
  = rev (fold_left Path.norm_step (Js.split "/" rel) (rev segs)).
Proof.
  intros Hne H. unfold Path.segments, Path.of_segments, Path.normalize_segments.
  assert (Hs : Js.split "/" (Js.join "/" segs) = segs)
    by (apply split_join; [assumption | now apply proper_no_slash]).
  change (("/" +:+ Js.join "/" segs) +:+ "/" +:+ rel)
    with ("" +:+ String "/" (Js.join "/" segs +:+ String "/" rel)).
  rewrite split_app, split_app, Hs. cbn [Js.split].
  rewrite fold_left_app. cbn [fold_left app].
  change (Path.norm_step [] "") with (@nil string).
  rewrite fold_left_app, (fold_norm_id segs []) by assumption.
  now rewrite app_nil_r.
Qed.

Lemma segments_child segs name :
  segs <> [] -> Forall proper_segment segs -> proper_segment name ->
  Path.segments (Path.of_segments segs +:+ "/" +:+ name) = segs ++ [name] /\
  Path.segments (Path.of_segments segs +:+ "/" +:+ (name +:+ "/")) = segs ++ [name].
Proof.
  intros Hne H (N1 & N2 & N3 & N4).
  apply String.eqb_neq in N1, N2, N3.
  rewrite !segments_under by assumption.
  change (name +:+ "/") with (name +:+ String "/" "").
  rewrite split_app, split_no_char by assumption.
  cbn [Js.split app fold_left]. unfold Path.norm_step.
  rewrite N1, N2, N3. cbn [String.eqb]. cbn [rev].
  now rewrite rev_involutive.
Qed.

Lemma uploadsDir_segments cfg : uploadsDir cfg = Path.of_segments (uploads_segments cfg).
Proof. reflexivity. Qed.

Lemma uploads_segments_proper cfg : Forall proper_segment (uploads_segments cfg).
Proof. apply segments_proper. Qed.

Lemma covers_proper : proper_segment "covers".
Proof. repeat split; discriminate. Qed.

Lemma coversDir_segments cfg :
  coversDir cfg = Path.of_segments (uploads_segments cfg ++ ["covers"]).
Proof.
  unfold coversDir, Path.join. rewrite uploadsDir_segments.
  now rewrite (proj1 (segments_child _ "covers" (uploads_segments_nonempty cfg)
                        (uploads_segments_proper cfg) covers_proper)).
Qed.

(** A path below the uploads root passes the check of
    [resolveUploadsPath]. *)
Lemma below_root cfg rest :
  rest <> [] -> Forall proper_segment rest ->
  Js.startsWith (Path.of_segments (uploads_segments cfg ++ rest))
    (Path.resolve1 (uploadsDir cfg) +:+ Path.sep) = true.
Proof.
  intros Hne Hr. rewrite uploadsRoot_eq. change Path.sep with "/".
  apply startsWith_root_inside.
  - apply Forall_app. split; [apply uploads_segments_proper|exact Hr].
  - exists rest. split; [exact Hne|reflexivity].
Qed.

Lemma uploads_child_resolves cfg name :
  proper_segment name ->
  resolveUploadsPath cfg ("/uploads/" +:+ name) = Ok (Path.join (uploadsDir cfg) name).
Proof.
  intros Hp. pose proof Hp as (N1 & _ & _ & N4).
  unfold resolveUploadsPath.
  change (Js.startsWith ("/uploads/" +:+ name) "/uploads/")
    with (String.prefix "/uploads/" ("/uploads/" +:+ name)).
  rewrite prefix_app. cbn [negb]. cbv zeta.
  change (Js.slice (String.length "/uploads/") ("/uploads/" +:+ name)) with name.
  unfold Path.resolve, Path.join.
  apply String.eqb_neq in N1. rewrite N1, (no_slash_relative _ N4).
  rewrite uploadsDir_segments.
  destruct (segments_child _ name (uploads_segments_nonempty cfg)
              (uploads_segments_proper cfg) Hp) as [-> ->].
  rewrite <- uploadsDir_segments.
  rewrite below_root; [reflexivity|discriminate|now constructor].
Qed.

Lemma covers_child_resolves cfg name :
  proper_segment name ->
  resolveUploadsPath cfg ("/uploads/covers/" +:+ name) = Ok (Path.join (coversDir cfg) name).
Proof.
  intros Hp. pose proof Hp as (N1 & N2 & N3 & N4).
  unfold resolveUploadsPath.
  change ("/uploads/covers/" +:+ name) with ("/uploads/" +:+ ("covers/" +:+ name)).
  change (Js.startsWith ("/uploads/" +:+ ("covers/" +:+ name)) "/uploads/")
    with (String.prefix "/uploads/" ("/uploads/" +:+ ("covers/" +:+ name))).
  rewrite prefix_app. cbn [negb]. cbv zeta.
  change (Js.slice (String.length "/uploads/") ("/uploads/" +:+ ("covers/" +:+ name)))
    with ("covers/" +:+ name).
  unfold Path.resolve, Path.join.
  change (("covers/" +:+ name =? "")%string) with false.
  change (Path.isAbsolute ("covers/" +:+ name)) with false. cbv iota.
  rewrite coversDir_segments.
  assert (Hc : uploads_segments cfg ++ ["covers"] <> [])
    by (destruct (uploads_segments cfg); discriminate).
  assert (Hcp : Forall proper_segment (uploads_segments cfg ++ ["covers"])).
  { apply Forall_app. split; [apply uploads_segments_proper|].
    constructor; [exact covers_proper|constructor]. }
  rewrite (proj1 (segments_child _ name Hc Hcp Hp)).
  rewrite uploadsDir_segments.
  rewrite segments_under
    by (apply uploads_segments_nonempty || apply uploads_segments_proper).
  change (("covers/" +:+ name) +:+ "/")
    with ("covers" +:+ String "/" (name +:+ String "/" "")).
  rewrite split_app, split_app, (split_no_char _ _ N4).
  change (Js.split "/" "covers") with ["covers"].
  change (Js.split "/" "") with [""].
  cbn [app fold_left].
  change (Path.norm_step (rev (uploads_segments cfg)) "covers")
    with ("covers" :: rev (uploads_segments cfg)).
  unfold Path.norm_step.
  apply String.eqb_neq in N1, N2, N3. rewrite N1, N2, N3. cbn [String.eqb].
  cbn [rev]. rewrite rev_involutive, <- !app_assoc. cbn [app].
  rewrite <- uploadsDir_segments.
  rewrite below_root; [reflexivity|discriminate|].
  constructor; [exact covers_proper|now constructor].
Qed.

(** X20. The URL stored for a local upload resolves to the file the
    upload was written to, whatever the client called the file: the
    stored name keeps only the last component of the client's name,
    holds no separator, and the file lies directly in the uploads
    directory. *)
Theorem upload_url_resolves_to_stored_file (cfg : Config) (env : Env) (originalname : string) :
  let fname := storage_filename env originalname in
  has_char "/" fname = false /\
  storage_path cfg env originalname = uploadsDir cfg +:+ "/" +:+ fname /\
  resolveUploadsPath cfg ("/uploads/" +:+ fname) = Ok (storage_path cfg env originalname).
Proof.
  cbv zeta. pose proof (storage_filename_proper env originalname) as Hp.
  split; [apply Hp|]. split; [|now apply uploads_child_resolves].
  unfold storage_path, Path.join. rewrite uploadsDir_segments at 1.
  rewrite (proj1 (segments_child _ _ (uploads_segments_nonempty cfg)
                    (uploads_segments_proper cfg) Hp)).
  rewrite of_segments_abs by (destruct (uploads_segments cfg); discriminate).
  rewrite abs_app, <- uploadsDir_abs. cbn [abs_path].
  f_equal. change (String "/" ?x) with ("/" +:+ x). f_equal.
  clear. induction (storage_filename env originalname) as [|c s IH]; [reflexivity|].
  rewrite app_cons. now f_equal.
Qed.

Section LocalCover.

Variables (cfg : Config) (env : Env).

(** X21. Without the remote store, a cover that
    [downloadCoverToStorage] reports as stored was written to one
    file, and the URL it returns resolves to exactly that file, which
    is then on disk; no object key is returned, and the database and
    the bucket are as before. *)
Theorem local_cover_url_resolves sourceUrl projectId w stored w' t :
  R2_ENABLED cfg = false ->
  has_char "/" projectId = false ->
  downloadCoverToStorage cfg env sourceUrl projectId w = (Ok (Some stored), w', t) ->
  exists p,
    resolveUploadsPath cfg (url stored) = Ok p /\
    t = [EvIo (FsWrite p) true] /\
    disk w' = {[ p ]} ∪ disk w /\
    objectKey stored = None /\
    db w' = db w /\ bucket w' = bucket w.
Proof.
  intros HR Hpid Hrun.
  unfold downloadCoverToStorage, try_catch in Hrun. rewrite bind_run in Hrun.
  unfold lift in Hrun.
  match type of Hrun with
  | context [match ?f with Ok _ => _ | Throw _ => _ end] =>
      destruct f as [[[buf mime]|]|e]
  end.
  - cbv zeta in Hrun. rewrite HR in Hrun. rewrite bind_run in Hrun.
    unfold writeFileSync in Hrun.
    match type of Hrun with
    | context [fails env (FsWrite ?q)] => set (p := q) in *; destruct (fails env (FsWrite p))
    end.
    + unfold_monad. cbn [fst snd app] in Hrun. discriminate.
    + rewrite ret_run in Hrun. cbn [app] in Hrun.
      injection Hrun as <- <- <-. exists p. cbn [url objectKey disk set_disk db bucket].
      split; [|repeat split].
      apply covers_child_resolves. apply dashed_proper.
      * rewrite !has_char_app. cbn [has_char Ascii.eqb Bool.eqb orb].
        now rewrite orb_true_r.
      * rewrite !has_char_app, of_Z_no_slash, Hpid, toHex_no_slash, extension_no_slash.
        reflexivity.
  - unfold_monad. cbn [fst snd app] in Hrun. discriminate.
  - unfold_monad. cbn [fst snd app] in Hrun. discriminate.
Qed.

End LocalCover.

Lemma local_cover_url_resolves_witness :
  let w := Demo.world [] [] [] in
  let run := @downloadCoverToStorage Demo.cfg_local (Demo.env_at 17 Demo.no_fault)
               "https://img.example/c.png" "12" w in
  exists p,
    resolveUploadsPath Demo.cfg_local "/uploads/covers/17-project-12-c3c3c3c3c3c3c3c3.png"
    = Ok p /\
    trace_of run = [EvIo (FsWrite p) true] /\
    p ∈ disk (world_of run).
Proof.
  cbv zeta.
  destruct (@local_cover_url_resolves Demo.cfg_local
              (Demo.env_at 17 Demo.no_fault) "https://img.example/c.png" "12"
              (Demo.world [] [] [])
              {| url := "/uploads/covers/17-project-12-c3c3c3c3c3c3c3c3.png";
                 objectKey := None |}
              (world_of (@downloadCoverToStorage Demo.cfg_local
                           (Demo.env_at 17 Demo.no_fault)
                           "https://img.example/c.png" "12" (Demo.world [] [] [])))
              (trace_of (@downloadCoverToStorage Demo.cfg_local
                           (Demo.env_at 17 Demo.no_fault)
                           "https://img.example/c.png" "12" (Demo.world [] [] []))))
    as (p & Hres & Ht & Hd & _).
  - reflexivity.
  - reflexivity.
  - vm_compute. reflexivity.
  - exists p. split; [exact Hres|]. split; [exact Ht|].
    rewrite Hd. apply elem_of_union_l, elem_of_singleton. reflexivity.
Defined.
